(** * Glow Market Hunter: a shallow embedding of the JavaScript services

    The repository holds several versions of one Express service
    ([src/index.js] and the unnamed parts).  Each one searches Google
    Places page by page, enriches the results with Place Details (in the
    later versions through a bounded worker pool), deduplicates them by
    [place_id] and appends them to a Google Sheet.

    Modelling conventions:
    - a JS string is the list of its UTF-16 code units ([jsstr := list N]);
      ASCII literals are written [js "..."];
    - a JS value met in a row or an API payload is a [jsval];
    - a JS [Set] of strings is a [gset jsstr], an object with string keys a
      [gmap string jsval];
    - a thrown error is the [Throw] case of the small result monad [res];
    - external calls (Places, Sheets) are explicit inputs: a stub function
      giving the response of each call, and a trace of the calls made. *)

From stdpp Require Import base gmap sets list strings.
From Stdlib Require Import ZArith Lia.

(* ===================================================================== *)
(** ** JS strings as code units *)

Abbreviation jsstr := (list N).

Definition js (s : string) : jsstr :=
  map (fun a => N.of_nat (Ascii.nat_of_ascii a)) (String.list_ascii_of_string s).

(** The code units matched by the [\s] regex class and removed by
    [String.prototype.trim] (white space and line terminators). *)
Definition is_js_space (c : N) : bool :=
  ((9 <=? c) && (c <=? 13))%N || (c =? 32)%N || (c =? 160)%N || (c =? 5760)%N
  || ((8192 <=? c) && (c <=? 8202))%N || (c =? 8232)%N || (c =? 8233)%N
  || (c =? 8239)%N || (c =? 8287)%N || (c =? 12288)%N || (c =? 65279)%N.

Fixpoint drop_space (s : jsstr) : jsstr :=
  match s with
  | c :: s' => if is_js_space c then drop_space s' else s
  | [] => []
  end.

(** [s.trim()] *)
Definition trim (s : jsstr) : jsstr := rev (drop_space (rev (drop_space s))).

Definition comma : N := 44%N.

(** [s.split(",")]: the segments between commas, in order; the empty
    string gives the one segment [""]. *)
Fixpoint split_comma (s : jsstr) : list jsstr :=
  match s with
  | [] => [[]]
  | c :: s' =>
      let parts := split_comma s' in
      if (c =? comma)%N then [] :: parts
      else match parts with
           | p :: ps => (c :: p) :: ps
           | [] => [[c]]
           end
  end.

(* ===================================================================== *)
(** ** [splitCityCountry] (src/unnamed/part_001, lines 171-175)

<<
function splitCityCountry(cityString) {
  const parts = cityString.split(",").map((x) => x.trim());
  if (parts.length === 1) return { city: parts[0], country: "" };
  return { city: parts[0], country: parts[parts.length - 1] };
}
>> *)

Record city_country := { cc_city : jsstr; cc_country : jsstr }.

Definition splitCityCountry (cityString : jsstr) : city_country :=
  let parts := map trim (split_comma cityString) in
  if Nat.eqb (length parts) 1
  then {| cc_city := hd [] parts; cc_country := [] |}
  else {| cc_city := hd [] parts; cc_country := List.last parts [] |}.

(* ===================================================================== *)
(** ** Column letters

    [columnLetter] (src/unnamed/part_001, lines 97-105):
<<
function columnLetter(n) {
  let s = "";
  while (n > 0) {
    const m = (n - 1) % 26;
    s = String.fromCharCode(65 + m) + s;
    n = Math.floor((n - m) / 26);
  }
  return s;
}
>>
    [colLetter] (src/unnamed/part_005, lines 75-83) is the same loop with
    [n = Math.floor((n - 1) / 26)].

    A JS number is an IEEE-754 double, so [n - 1], [n - m] and the quotient
    by 26 are rounded to the nearest double (53-bit mantissa, ties to even)
    before [Math.floor]; below [2^53] every step is exact.  The values met
    are non-negative integers, and the double model below covers those:
    [dbl_round a b] is the double nearest to [a / b].  JS [%] on an integer
    double is exact ([Z.rem]). *)

Definition dbl_scaled (a b e : Z) : Z * Z :=
  if (0 <=? e)%Z then (a, b * 2 ^ e)%Z else (a * 2 ^ (- e), b)%Z.

(** The exponent [e] with [2^52 <= a / (b * 2^e) < 2^53]: the mantissa
    of the double nearest to [a / b] has 53 bits. *)
Definition dbl_exp (a b : Z) : Z :=
  let e0 := (Z.log2 a - Z.log2 b - 53)%Z in
  let '(num, den) := dbl_scaled a b e0 in
  if (2 ^ 53 <=? num / den)%Z then (e0 + 1)%Z else e0.

(** The double nearest to [a / b] (ties to even), for [a >= 0] and
    [b >= 1], as a mantissa [m] and an exponent [e]: its value is [m * 2^e]. *)
Definition dbl_round (a b : Z) : Z * Z :=
  let e := dbl_exp a b in
  let '(num, den) := dbl_scaled a b e in
  let q := (num / den)%Z in
  let r := (num mod den)%Z in
  ((if (den <? 2 * r)%Z || ((2 * r =? den)%Z && Z.odd q) then q + 1 else q)%Z, e).

(** [Math.floor] of the double [m * 2^e]. *)
Definition dbl_floor (me : Z * Z) : Z :=
  let '(m, e) := me in
  if (0 <=? e)%Z then (m * 2 ^ e)%Z else (m / 2 ^ (- e))%Z.

(** [x - y] on two integers held as doubles. *)
Definition js_sub (x y : Z) : Z :=
  let r := (x - y)%Z in
  if (r <? 0)%Z then (- dbl_floor (dbl_round (- r) 1))%Z
  else dbl_floor (dbl_round r 1).

(** [Math.floor(a / b)] for [a >= 0] and [b >= 1]. *)
Definition js_floor_div (a b : Z) : Z := dbl_floor (dbl_round a b).

Fixpoint columnLetter_loop (fuel : nat) (n : Z) (s : jsstr) : jsstr :=
  match fuel with
  | O => s
  | S fuel' =>
      if (0 <? n)%Z then
        let m := Z.rem (js_sub n 1) 26 in
        columnLetter_loop fuel' (js_floor_div (js_sub n m) 26) (Z.to_N (65 + m) :: s)
      else s
  end.

(** Each pass at least halves [n] (lemma [columnLetter_next_half]), so
    [log2 n + 1] passes run the loop to its end for every [n]. *)
Definition columnLetter (n : Z) : jsstr :=
  columnLetter_loop (S (Z.to_nat (Z.log2 n))) n [].

Fixpoint colLetter_loop (fuel : nat) (n : Z) (s : jsstr) : jsstr :=
  match fuel with
  | O => s
  | S fuel' =>
      if (0 <? n)%Z then
        let m := Z.rem (js_sub n 1) 26 in
        colLetter_loop fuel' (js_floor_div (js_sub n 1) 26) (Z.to_N (65 + m) :: s)
      else s
  end.

Definition colLetter (n : Z) : jsstr :=
  colLetter_loop (S (Z.to_nat (Z.log2 n))) n [].

(** The same loop in exact integer arithmetic, the reference for the
    bijective numeral. *)
Fixpoint columnLetter_exact_loop (fuel : nat) (n : Z) (s : jsstr) : jsstr :=
  match fuel with
  | O => s
  | S fuel' =>
      if (0 <? n)%Z then
        let m := Z.rem (n - 1) 26 in
        columnLetter_exact_loop fuel' ((n - m) / 26) (Z.to_N (65 + m) :: s)
      else s
  end.

Definition columnLetter_exact (n : Z) : jsstr :=
  columnLetter_exact_loop (S (Z.to_nat (Z.log2 n))) n [].

(** The reading of a column name as a bijective base-26 numeral:
    [A] is 1, ..., [Z] is 26, most significant letter first. *)
Definition is_upper (c : N) : bool := ((65 <=? c) && (c <=? 90))%N.

Definition bij26_value (s : jsstr) : Z :=
  fold_left (fun acc c => acc * 26 + (Z.of_N c - 64))%Z s 0%Z.

(* ===================================================================== *)
(** ** JS values and thrown errors *)

(** Numbers (coordinates) are only copied around by the code, so they are
    kept as opaque integers. *)
Inductive jsval :=
| JStr (s : jsstr)
| JNum (z : Z)
| JNull
| JUndef.

#[global] Instance jsval_eq_dec : EqDecision jsval.
Proof. solve_decision. Defined.

(** [v ?? d] for a value read from an object ([None]: missing key). *)
Definition nullish_or (v : option jsval) (d : jsval) : jsval :=
  match v with
  | None | Some JNull | Some JUndef => d
  | Some v' => v'
  end.

Definition truthy (v : jsval) : bool :=
  match v with
  | JStr s => negb (Nat.eqb (length s) 0)
  | JNum z => negb (Z.eqb z 0)
  | JNull | JUndef => false
  end.

(** [s || d] on a possibly missing string field. *)
Definition str_or (s : option jsstr) (d : jsstr) : jsstr :=
  match s with
  | Some ((_ :: _) as s') => s'
  | _ => d
  end.

(** A computation that returns a value or throws. *)
Inductive res (A : Type) :=
| Ok (a : A)
| Throw (msg : jsstr).
Arguments Ok {A} a.
Arguments Throw {A} msg.

Definition res_bind {A B} (m : res A) (k : A -> res B) : res B :=
  match m with
  | Ok a => k a
  | Throw e => Throw e
  end.

Notation "'let!' x ':=' m 'in' k" := (res_bind m (fun x => k))
  (at level 200, x name, m at level 100, k at level 200).

(* ===================================================================== *)
(** ** The spreadsheet

    The Google Sheets side, seen by the code through [values.append]:
    the rows of each tab, the number of write calls made, and whether the
    API currently fails (a failing call throws). *)

Record sheets_api := {
  sa_tabs : gmap jsstr (list (list jsval));
  sa_writes : nat;
  sa_down : bool
}.

Definition values_append (api : sheets_api) (title : jsstr)
    (values : list (list jsval)) : res sheets_api :=
  if sa_down api then Throw (js "Sheets API error") else
  match sa_tabs api !! title with
  | None => Throw (js "Unable to parse range")
  | Some rs =>
      Ok {| sa_tabs := <[title := rs ++ values]> (sa_tabs api);
            sa_writes := S (sa_writes api);
            sa_down := false |}
  end.

(** [appendRows] (src/index.js, lines 106-116):
<<
async function appendRows(sheets, sheetId, sheetName, rows) {
  if (!rows.length) return { appended: 0 };
  await sheets.spreadsheets.values.append({ ..., requestBody: { values: rows } });
  return { appended: rows.length };
}
>> *)
Definition appendRows (api : sheets_api) (sheetName : jsstr)
    (rows : list (list jsval)) : res (sheets_api * nat) :=
  if Nat.eqb (length rows) 0 then Ok (api, 0) else
  let! api' := values_append api sheetName rows in
  Ok (api', length rows).

(** The fixed header of src/index.js (lines 35-49). *)
Definition HEADERS_index : list string :=
  ["timestamp"; "country"; "city"; "query"; "category"; "name"; "phone";
   "website"; "lat"; "lng"; "address"; "place_id"; "source"].

(** The fixed header of src/unnamed/part_001 ([SHEET_HEADERS]) and of
    src/unnamed/part_002 ([HEADERS]). *)
Definition SHEET_HEADERS : list string :=
  ["timestamp"; "country"; "city"; "category"; "name"; "phone"; "website";
   "lat"; "lng"; "address"; "place_id"; "source"].

Definition HEADERS_part002 : list string := SHEET_HEADERS.

(** [String.prototype.indexOf] on a list of header names; [-1] is [None]. *)
Fixpoint index_of (h : string) (l : list string) : option nat :=
  match l with
  | [] => None
  | x :: l' => if String.eqb x h then Some 0 else S <$> index_of h l'
  end.

Definition cell (row : list jsval) (i : option nat) : jsval :=
  match i with
  | Some k => default JUndef (row !! k)
  | None => JUndef
  end.

(** [ensureSheetAndHeaders] of src/unnamed/part_002 (lines 67-125), on the
    store: a missing tab is created with the header row; a tab whose cell
    A1 is not ["timestamp"] gets its first row overwritten by the header. *)
Definition header_row : list jsval := map (fun h => JStr (js h)) HEADERS_part002.

Definition ensureSheetAndHeaders (api : sheets_api) (title : jsstr) : res sheets_api :=
  if sa_down api then Throw (js "Sheets API error") else
  match sa_tabs api !! title with
  | None =>
      Ok {| sa_tabs := <[title := [header_row]]> (sa_tabs api);
            sa_writes := S (S (sa_writes api)); sa_down := false |}
  | Some rs =>
      let a1 := match rs with (c :: _) :: _ => c | _ => JStr [] end in
      if decide (a1 = JStr (js "timestamp")) then Ok api
      else
        let rs' := match rs with [] => [header_row] | _ :: tl => header_row :: tl end in
        Ok {| sa_tabs := <[title := rs']> (sa_tabs api);
              sa_writes := S (sa_writes api); sa_down := false |}
  end.

(** [appendRowsDedup] (src/unnamed/part_002, lines 235-279).  Rows are
    arrays in [HEADERS] order; the tab is read back ([A1:Z]) and the
    existing [place_id] cells collected; the result is [(added, skipped)]. *)
Definition appendRowsDedup (api : sheets_api) (title : jsstr)
    (rows : list (list jsval)) : res (sheets_api * (nat * nat)) :=
  if Nat.eqb (length rows) 0 then Ok (api, (0, 0)) else
  let! api1 := ensureSheetAndHeaders api title in
  let values := default [] (sa_tabs api1 !! title) in
  let header := default [] (head values) in
  let pidIdx := list_find (fun h => h = JStr (js "place_id")) header in
  let existing : list jsval :=
    match pidIdx with
    | Some (k, _) => filter (fun v => truthy v = true)
                       (map (fun r => cell r (Some k)) (drop 1 values))
    | None => []
    end in
  let pidCol := index_of "place_id" HEADERS_part002 in
  let filtered := filter (fun r => truthy (cell r pidCol) = true
                                   /\ cell r pidCol ∉ existing) rows in
  if Nat.eqb (length filtered) 0 then Ok (api1, (0, length rows)) else
  let! api2 := values_append api1 title filtered in
  Ok (api2, (length filtered, length rows - length filtered)).

(** A row object ([{ timestamp, country, ... }]) as built by [buildRow]. *)
Abbreviation row_obj := (gmap string jsval).

(** [SHEET_HEADERS.map((h) => r[h] ?? "")], for a header list [headers]. *)
Definition rowValues (headers : list string) (r : row_obj) : list jsval :=
  map (fun h => nullish_or (r !! h) (JStr [])) headers.

Definition SHEETS_APPEND_CHUNK : nat := 300.

(** [appendRowsToSheet] (src/unnamed/part_001, lines 82-95):
<<
for (let i = 0; i < rows.length; i += SHEETS_APPEND_CHUNK) {
  const chunk = rows.slice(i, i + SHEETS_APPEND_CHUNK);
  const values = chunk.map((r) => SHEET_HEADERS.map((h) => r[h] ?? ""));
  await sheets.spreadsheets.values.append({ ..., requestBody: { values } });
}
>>
    The loop makes at most [length rows] passes (fuel). *)
Fixpoint appendRowsToSheet_loop (fuel i : nat) (api : sheets_api) (cityTitle : jsstr)
    (rows : list row_obj) : res sheets_api :=
  match fuel with
  | O => Ok api
  | S fuel' =>
      if Nat.ltb i (length rows) then
        let chunk := take SHEETS_APPEND_CHUNK (drop i rows) in
        let values := map (rowValues SHEET_HEADERS) chunk in
        let! api' := values_append api cityTitle values in
        appendRowsToSheet_loop fuel' (i + SHEETS_APPEND_CHUNK) api' cityTitle rows
      else Ok api
  end.

Definition appendRowsToSheet (api : sheets_api) (cityTitle : jsstr)
    (rows : list row_obj) : res sheets_api :=
  appendRowsToSheet_loop (length rows) 0 api cityTitle rows.

(* ===================================================================== *)
(** ** Google Places payloads *)

(** A Text Search result record ([data.results[k]]); [None] is a missing
    field. *)
Record raw_place := {
  rp_place_id : option jsstr;
  rp_name : option jsstr;
  rp_formatted_address : option jsstr;
  rp_lat : option jsval;
  rp_lng : option jsval
}.

(** A Place Details [result] object. *)
Record details_json := {
  dj_place_id : option jsstr;
  dj_name : option jsstr;
  dj_formatted_address : option jsstr;
  dj_international_phone_number : option jsstr;
  dj_formatted_phone_number : option jsstr;
  dj_website : option jsstr;
  dj_lat : option jsval;
  dj_lng : option jsval
}.

(** What [await fetch(url)] followed by [await r.json()] gives for a
    details request: a transport failure (rejected fetch, body that is not
    JSON) throws; otherwise the parsed [status] and [result]. *)
Inductive details_reply :=
| DTransportError (msg : jsstr)
| DReply (status : jsstr) (result : option details_json).

Definition OK : jsstr := js "OK".

(** [getPlaceDetails] (src/index.js, lines 151-170):
<<
  const r = await fetch(`${base}?${params.toString()}`);
  const data = await r.json();
  if (data.status !== "OK") return null;
  return data.result;
>>
    [None] in the result is JS [null] (or an absent [result]). *)
Definition getPlaceDetails (fetch_details : jsstr -> details_reply) (place_id : jsstr)
    : res (option details_json) :=
  match fetch_details place_id with
  | DTransportError e => Throw e
  | DReply status result =>
      if decide (status = OK) then Ok result else Ok None
  end.

(** The record returned by [placeDetails] of src/unnamed/part_002. *)
Record place_detail := {
  pd_place_id : jsstr;
  pd_name : jsstr;
  pd_address : jsstr;
  pd_phone : jsstr;
  pd_website : jsstr;
  pd_lat : jsval;
  pd_lng : jsval
}.

Definition NA : jsstr := js "N/A".

(** [sanitizePhone] (src/unnamed/part_002, lines 128-139): drop the
    direction marks U+200E, U+200F, U+202A..U+202E, collapse white space,
    trim, and prefix a quote. *)
(** [.replace(/\s+/g, " ")]: [in_run] tells whether the previous code
    unit was white space already replaced by the one blank. *)
Fixpoint collapse_space_from (in_run : bool) (s : jsstr) : jsstr :=
  match s with
  | [] => []
  | c :: s' =>
      if is_js_space c then
        if in_run then collapse_space_from true s'
        else 32%N :: collapse_space_from true s'
      else c :: collapse_space_from false s'
  end.

Definition collapse_space (s : jsstr) : jsstr := collapse_space_from false s.

Definition is_direction_mark (c : N) : bool :=
  (c =? 8206)%N || (c =? 8207)%N || ((8234 <=? c) && (c <=? 8238))%N.

Definition sanitizePhone (p : jsstr) : jsstr :=
  if decide (p = []) then NA else
  if decide (p = NA) then NA else
  let s := trim (collapse_space (filter (fun c => is_direction_mark c = false) p)) in
  match s with
  | 39%N :: _ => s
  | _ => 39%N :: s
  end.

(** [placeDetails] (src/unnamed/part_002, lines 174-208). *)
Definition placeDetails (fetch_details : jsstr -> details_reply) (place_id : jsstr)
    : res place_detail :=
  match fetch_details place_id with
  | DTransportError e => Throw e
  | DReply status result =>
      if decide (status = OK) then
        let d := default {| dj_place_id := None; dj_name := None;
                            dj_formatted_address := None;
                            dj_international_phone_number := None;
                            dj_formatted_phone_number := None; dj_website := None;
                            dj_lat := None; dj_lng := None |} result in
        let rawPhone := str_or (dj_international_phone_number d)
                          (str_or (dj_formatted_phone_number d) NA) in
        Ok {| pd_place_id := str_or (dj_place_id d) (str_or (Some place_id) NA);
              pd_name := str_or (dj_name d) NA;
              pd_address := str_or (dj_formatted_address d) NA;
              pd_phone := sanitizePhone rawPhone;
              pd_website := str_or (dj_website d) NA;
              pd_lat := nullish_or (dj_lat d) (JStr []);
              pd_lng := nullish_or (dj_lng d) (JStr []) |}
      else
        Ok {| pd_place_id := place_id; pd_name := NA; pd_address := NA;
              pd_phone := NA; pd_website := NA; pd_lat := JStr []; pd_lng := JStr [] |}
  end.

(* ===================================================================== *)
(** ** [/run-city] of src/index.js (lines 190-284) *)

(** The locals from which the handler writes its row literal. *)
Record rc_row := {
  rc_timestamp : jsstr; rc_country : jsstr; rc_city : jsstr; rc_query : jsstr;
  rc_category : jsstr; rc_name : jsstr; rc_phone : jsstr; rc_website : jsstr;
  rc_lat : jsval; rc_lng : jsval; rc_address : jsstr; rc_place_id : jsstr;
  rc_source : jsstr
}.

(** The row literal of lines 240-254. *)
Definition runCityRowArray (x : rc_row) : list jsval :=
  [JStr (rc_timestamp x); JStr (rc_country x); JStr (rc_city x); JStr (rc_query x);
   JStr (rc_category x); JStr (rc_name x); JStr (rc_phone x); JStr (rc_website x);
   rc_lat x; rc_lng x; JStr (rc_address x); JStr (rc_place_id x); JStr (rc_source x)].

(** The same locals read as an object keyed by column name. *)
Definition rc_field (x : rc_row) (h : string) : jsval :=
  match h with
  | "timestamp" => JStr (rc_timestamp x) | "country" => JStr (rc_country x)
  | "city" => JStr (rc_city x) | "query" => JStr (rc_query x)
  | "category" => JStr (rc_category x) | "name" => JStr (rc_name x)
  | "phone" => JStr (rc_phone x) | "website" => JStr (rc_website x)
  | "lat" => rc_lat x | "lng" => rc_lng x | "address" => JStr (rc_address x)
  | "place_id" => JStr (rc_place_id x) | "source" => JStr (rc_source x)
  | _ => JUndef
  end%string.

Definition source_glow : jsstr := js "Glow Places".

(** The body of [for (const r of results)] (lines 227-258), over the
    [existingIds] set. *)
Fixpoint runCity_results (fetch_details : jsstr -> details_reply)
    (nowISO country city query category : jsstr) (existingIds : gset jsstr)
    (results : list raw_place) : res (list (list jsval) * gset jsstr) :=
  match results with
  | [] => Ok ([], existingIds)
  | r :: rs =>
      match rp_place_id r with
      | None | Some [] =>
          runCity_results fetch_details nowISO country city query category existingIds rs
      | Some pid =>
          if decide (pid ∈ existingIds) then
            runCity_results fetch_details nowISO country city query category existingIds rs
          else
            let! det := getPlaceDetails fetch_details pid in
            let row := {|
              rc_timestamp := nowISO; rc_country := country; rc_city := city;
              rc_query := query; rc_category := category;
              rc_name := str_or (det ≫= dj_name) (str_or (rp_name r) []);
              rc_phone := str_or (det ≫= dj_formatted_phone_number) [];
              rc_website := str_or (det ≫= dj_website) [];
              rc_lat := nullish_or (det ≫= dj_lat) (nullish_or (rp_lat r) (JStr []));
              rc_lng := nullish_or (det ≫= dj_lng) (nullish_or (rp_lng r) (JStr []));
              rc_address := str_or (det ≫= dj_formatted_address)
                              (str_or (rp_formatted_address r) []);
              rc_place_id := pid; rc_source := source_glow |} in
            let! rest := runCity_results fetch_details nowISO country city query category
                           ({[pid]} ∪ existingIds) rs in
            Ok (runCityRowArray row :: fst rest, snd rest)
      end
  end.

(** The loop over [categories] (lines 222-265); [search query] stands for
    the result list of [await textSearchAll(query, language)]. *)
Fixpoint runCity_categories (fetch_details : jsstr -> details_reply)
    (search : jsstr -> list raw_place) (nowISO country city : jsstr)
    (existingIds : gset jsstr) (categories : list jsstr)
    : res (list (list jsval) * gset jsstr) :=
  match categories with
  | [] => Ok ([], existingIds)
  | category :: cs =>
      let query := category ++ js " " ++ city ++ js " " ++ country in
      let! here := runCity_results fetch_details nowISO country city query category
                     existingIds (search query) in
      let! rest := runCity_categories fetch_details search nowISO country city
                     (snd here) cs in
      Ok (fst here ++ fst rest, snd rest)
  end.

(* ===================================================================== *)
(** ** [/search-and-append] of src/unnamed/part_001 (second version,
       lines 355-772) *)

(** [toLowerCase] on one code unit.  The table covers ASCII and Latin-1
    (the letters met in Spanish names and addresses); other code units
    are left as they are. *)
Definition to_lower (c : N) : N :=
  if ((65 <=? c) && (c <=? 90))%N then (c + 32)%N
  else if ((192 <=? c) && (c <=? 222) && negb (c =? 215))%N then (c + 32)%N
  else c.

(** Canonical decomposition ([normalize("NFD")]) of the precomposed
    Latin-1 letters: base letter followed by a combining mark. *)
Definition nfd_table : list (N * (N * N)) :=
  [(192, (65, 768)); (193, (65, 769)); (194, (65, 770)); (195, (65, 771));
   (196, (65, 776)); (197, (65, 778)); (199, (67, 807)); (200, (69, 768));
   (201, (69, 769)); (202, (69, 770)); (203, (69, 776)); (204, (73, 768));
   (205, (73, 769)); (206, (73, 770)); (207, (73, 776)); (209, (78, 771));
   (210, (79, 768)); (211, (79, 769)); (212, (79, 770)); (213, (79, 771));
   (214, (79, 776)); (217, (85, 768)); (218, (85, 769)); (219, (85, 770));
   (220, (85, 776)); (221, (89, 769));
   (224, (97, 768)); (225, (97, 769)); (226, (97, 770)); (227, (97, 771));
   (228, (97, 776)); (229, (97, 778)); (231, (99, 807)); (232, (101, 768));
   (233, (101, 769)); (234, (101, 770)); (235, (101, 776)); (236, (105, 768));
   (237, (105, 769)); (238, (105, 770)); (239, (105, 776)); (241, (110, 771));
   (242, (111, 768)); (243, (111, 769)); (244, (111, 770)); (245, (111, 771));
   (246, (111, 776)); (249, (117, 768)); (250, (117, 769)); (251, (117, 770));
   (252, (117, 776)); (253, (121, 769)); (255, (121, 776))]%N.

Definition nfd (c : N) : jsstr :=
  match list_find (fun e => e.1 = c) nfd_table with
  | Some (_, (_, (b, m))) => [b; m]
  | None => [c]
  end.

Definition is_combining_mark (c : N) : bool := ((768 <=? c) && (c <=? 879))%N.

(** [normalizeKey] (lines 570-577):
<<
  return (s || "").toLowerCase().normalize("NFD")
    .replace(/[\u0300-\u036f]/g, "").replace(/\s+/g, " ").trim();
>> *)
Definition normalizeKey (s : jsstr) : jsstr :=
  trim (collapse_space
          (filter (fun c => is_combining_mark c = false)
                  (List.flat_map nfd (map to_lower s)))).

(** [fetchPlaceDetails] (lines 512-532) is the same code as
    [getPlaceDetails] of src/index.js. *)
Definition fetchPlaceDetails := getPlaceDetails.

(** The object returned by the details mapper (lines 649-662). *)
Record sa_detail := {
  sd_name : jsstr; sd_address : jsstr; sd_lat : jsval; sd_lng : jsval;
  sd_phone : jsstr; sd_website : jsstr; sd_place_id : jsstr
}.

(** The mapper handed to [mapWithConcurrency] (lines 649-662); [??]
    keeps an empty string, so it is [default] on a missing field. *)
Definition saMapper (fetch_details : jsstr -> details_reply) (item : raw_place) : sa_detail :=
  let details :=
    match fetchPlaceDetails fetch_details (default (js "undefined") (rp_place_id item)) with
    | Ok d => d
    | Throw _ => None            (* .catch(() => null) *)
    end in
  {| sd_name := default (default NA (rp_name item)) (details ≫= dj_name);
     sd_address := default (default NA (rp_formatted_address item))
                     (details ≫= dj_formatted_address);
     sd_lat := nullish_or (details ≫= dj_lat) (nullish_or (rp_lat item) (JStr []));
     sd_lng := nullish_or (details ≫= dj_lng) (nullish_or (rp_lng item) (JStr []));
     sd_phone := default NA (details ≫= dj_formatted_phone_number);
     sd_website := default NA (details ≫= dj_website);
     sd_place_id := default (default NA (rp_place_id item)) (details ≫= dj_place_id) |}.

(** [s || "N/A"] on a string. *)
Definition or_NA (s : jsstr) : jsstr := match s with [] => NA | _ => s end.

(** [buildRow] (lines 579-594). *)
Definition buildRow (timestamp country cityOnly cat : jsstr) (p : sa_detail) : row_obj :=
  list_to_map
    [("timestamp", JStr timestamp); ("country", JStr country);
     ("city", JStr cityOnly); ("category", JStr cat);
     ("name", JStr (or_NA (sd_name p))); ("phone", JStr (or_NA (sd_phone p)));
     ("website", JStr (or_NA (sd_website p)));
     ("lat", nullish_or (Some (sd_lat p)) (JStr []));
     ("lng", nullish_or (Some (sd_lng p)) (JStr []));
     ("address", JStr (or_NA (sd_address p)));
     ("place_id", JStr (or_NA (sd_place_id p))); ("source", JStr source_glow)]%string.

(** The key of the batch set [seenBatch] (lines 684-686). *)
Definition fallKey (p : sa_detail) : jsstr :=
  let pid := trim (sd_place_id p) in
  match pid with
  | [] => js "fallback:" ++ normalizeKey (sd_name p) ++ js "|" ++ normalizeKey (sd_address p)
  | _ => pid
  end.

(** The dedupe loop of one category (lines 668-698):
<<
  const seenBatch = new Set();
  for (const p of detailed) {
    if (!p) continue;
    const pid = (p.place_id || "").trim();
    if (pid && existingPlaceIds.has(pid)) { skippedExisting++; continue; }
    const fallKey = pid || `fallback:${normalizeKey(p.name)}|${normalizeKey(p.address)}`;
    if (seenBatch.has(fallKey)) { skippedBatchDup++; continue; }
    seenBatch.add(fallKey);
    rowsToInsert.push(buildRow(timestamp, country, cityOnly, cat, p));
    if (pid) existingPlaceIds.add(pid);
  }
>>
    It returns the accepted records in order (the rows are [buildRow] of
    them) and the final [existingPlaceIds] and [seenBatch]. *)
Fixpoint dedupBatch (existingPlaceIds seenBatch : gset jsstr) (detailed : list (option sa_detail))
    : list sa_detail * gset jsstr * gset jsstr :=
  match detailed with
  | [] => ([], existingPlaceIds, seenBatch)
  | None :: ps => dedupBatch existingPlaceIds seenBatch ps
  | Some p :: ps =>
      let pid := trim (sd_place_id p) in
      if decide (pid <> [] /\ pid ∈ existingPlaceIds) then
        dedupBatch existingPlaceIds seenBatch ps
      else if decide (fallKey p ∈ seenBatch) then
        dedupBatch existingPlaceIds seenBatch ps
      else
        let existing' := if decide (pid = []) then existingPlaceIds
                         else {[pid]} ∪ existingPlaceIds in
        let '(acc, E, Sb) := dedupBatch existing' ({[fallKey p]} ∪ seenBatch) ps in
        (p :: acc, E, Sb)
  end.

(** The loop over the categories (lines 642-712): [existingPlaceIds] is
    shared by the whole run, [seenBatch] is fresh for each category.
    [batches] holds, per category, the [detailed] array. *)
Fixpoint dedupCategories (existingPlaceIds : gset jsstr) (batches : list (list (option sa_detail)))
    : list (list sa_detail) * gset jsstr :=
  match batches with
  | [] => ([], existingPlaceIds)
  | detailed :: bs =>
      let '(acc, E, _) := dedupBatch existingPlaceIds ∅ detailed in
      let '(rest, E') := dedupCategories E bs in
      (acc :: rest, E')
  end.

(** The rows each category appends, for a run with the city string
    [city] and the categories [cats]; [search query] stands for the
    result of [textSearchAllPages(query)], and the [detailed] array is the
    mapper applied in index order (what [mapWithConcurrency] returns, by
    the pool proofs below, for this mapper, which never throws). *)
Definition searchAndAppend_rows (fetch_details : jsstr -> details_reply)
    (search : jsstr -> list raw_place) (timestamp city : jsstr) (cats : list jsstr)
    (existingPlaceIds : gset jsstr) : list (list row_obj) :=
  let cc := splitCityCountry city in
  let batches := map (fun cat => map (fun item => Some (saMapper fetch_details item))
                                     (search (cat ++ js " " ++ city))) cats in
  let accepted := fst (dedupCategories existingPlaceIds batches) in
  zip_with (fun cat acc => map (buildRow timestamp (cc_country cc) (cc_city cc) cat) acc)
           cats accepted.

(* ===================================================================== *)
(** ** [mapWithConcurrency] (src/unnamed/part_001, lines 181-202 and
       544-565)

<<
async function mapWithConcurrency(items, limit, mapper) {
  const results = [];
  let idx = 0;
  async function worker() {
    while (idx < items.length) {
      const myIndex = idx++;
      try { results[myIndex] = await mapper(items[myIndex], myIndex); }
      catch (e) { results[myIndex] = null; }
    }
  }
  const workers = Array(Math.min(limit, items.length)).fill(0).map(() => worker());
  await Promise.all(workers);
  return results;
}
>>
    JS runs one worker at a time and switches only at [await]; the test
    [idx < items.length] and [idx++] happen together.  The pool is a
    state (shared cursor, the [results] array, one control point per
    worker) and a step relation in which any worker may move: the
    interleaving is left open.  The mapper is a function of the item and
    its index; its outcome is fixed, so it is read when the [await]
    resumes. *)

(** What [results[myIndex]] receives: the mapper's value or [null]. *)
Inductive settled (R : Type) :=
| Fulfilled (r : R)
| CaughtNull.
Arguments Fulfilled {R} r.
Arguments CaughtNull {R}.

(** Control point of one worker: at the loop test, awaiting the mapper
    for [myIndex], or returned. *)
Inductive wstate :=
| WIdle
| WPending (myIndex : nat)
| WDone.

#[global] Instance wstate_eq_dec : EqDecision wstate.
Proof. solve_decision. Defined.

(** A JS array with holes: [None] is a hole. *)
Record pool (R : Type) := mkPool {
  p_idx : nat;
  p_results : list (option (settled R));
  p_workers : list wstate
}.
Arguments mkPool {R} p_idx p_results p_workers.
Arguments p_idx {R} p.
Arguments p_results {R} p.
Arguments p_workers {R} p.

(** [a[i] = v]: in range it overwrites, past the end it extends the
    array with holes. *)
Definition js_array_set {X} (l : list (option X)) (i : nat) (v : X) : list (option X) :=
  if Nat.ltb i (length l) then <[i := Some v]> l
  else l ++ replicate (i - length l) None ++ [Some v].

Definition settle_of {R} (r : res R) : settled R :=
  match r with
  | Ok v => Fulfilled v
  | Throw _ => CaughtNull
  end.

Section Pool.
Context {A R : Type}.
Variable items : list A.
Variable mapper : A -> nat -> res R.

(** The value stored for index [i] ([i] is always in range when a
    worker holds it). *)
Definition settle (i : nat) : settled R :=
  match items !! i with
  | Some x => settle_of (mapper x i)
  | None => CaughtNull
  end.

Inductive pool_step : pool R -> pool R -> Prop :=
| ps_claim idx rs ws1 ws2 :
    idx < length items ->
    pool_step (mkPool idx rs (ws1 ++ WIdle :: ws2))
              (mkPool (S idx) rs (ws1 ++ WPending idx :: ws2))
| ps_exit idx rs ws1 ws2 :
    length items <= idx ->
    pool_step (mkPool idx rs (ws1 ++ WIdle :: ws2))
              (mkPool idx rs (ws1 ++ WDone :: ws2))
| ps_settle idx rs ws1 ws2 i :
    pool_step (mkPool idx rs (ws1 ++ WPending i :: ws2))
              (mkPool idx (js_array_set rs i (settle i)) (ws1 ++ WIdle :: ws2)).

Definition pool_init (limit : nat) : pool R :=
  mkPool 0 [] (replicate (Nat.min limit (length items)) WIdle).

(** [Promise.all(workers)] has resolved. *)
Definition pool_final (p : pool R) : Prop := Forall (fun w => w = WDone) (p_workers p).

(** A measure that every step lowers: unclaimed indices count twice, a
    worker at the loop test once, a worker awaiting twice. *)
Definition wweight (w : wstate) : nat :=
  match w with WIdle => 1 | WPending _ => 2 | WDone => 0 end.

Definition pool_measure (p : pool R) : nat :=
  2 * (length items - p_idx p) + list_sum (map wweight (p_workers p)).

(** What every reachable state satisfies: the cursor stays within the
    items, an index below the cursor is written with its own outcome or
    held by exactly the worker awaiting it, and a worker returns only
    once the cursor has run out. *)
Definition pool_inv (p : pool R) : Prop :=
  p_idx p <= length items /\
  length (p_results p) <= p_idx p /\
  (forall i v, p_results p !! i = Some (Some v) -> v = settle i) /\
  (forall i, i < p_idx p ->
     p_results p !! i = Some (Some (settle i)) \/ WPending i ∈ p_workers p) /\
  (forall i, WPending i ∈ p_workers p -> i < p_idx p) /\
  (WDone ∈ p_workers p -> length items <= p_idx p).
End Pool.

Arguments pool_step {A R} items mapper _ _.

(* ===================================================================== *)
(** ** Text Search pagination

    [textSearchAll] (src/index.js, lines 124-148) and [textSearchAllPages]
    (src/unnamed/part_001, lines 110-147 and 478-510) run the same
    [while (true)] loop: fetch the page, collect [data.results || []],
    stop when there is no [next_page_token], otherwise wait and request
    the next page by token.  They differ in the wait (2200 ms, 2000 ms)
    and in a status other than [OK] / [ZERO_RESULTS]: index.js logs it
    and goes on, part_001 throws.  Neither bounds the number of pages. *)

Inductive ts_url :=
| UQuery (query : jsstr) (language : option jsstr)
| UPageToken (pagetoken : jsstr).

Record ts_response := {
  tr_status : jsstr;
  tr_results : list raw_place;
  tr_next_page_token : option jsstr
}.

Inductive ts_event :=
| EFetch (u : ts_url)
| ELog (status : jsstr)
| ESleep (ms : Z).

Inductive bad_status_policy := LogAndContinue | ThrowOnBad.

Definition ZERO_RESULTS : jsstr := js "ZERO_RESULTS".

(** [Returned]: the loop returned or threw, with the calls made;
    [StillRunning]: it is still looping once the fuel is spent. *)
Inductive loop_outcome :=
| Returned (r : res (list raw_place)) (trace : list ts_event)
| StillRunning (trace : list ts_event).

(** [provider k url] is the reply to the [k]-th request (a thrown error
    for a failed [fetch] or [r.json()]). *)
Fixpoint textSearch_loop (delay : Z) (policy : bad_status_policy)
    (provider : nat -> ts_url -> res ts_response)
    (fuel k : nat) (url : ts_url) (all : list raw_place) (trace : list ts_event)
    : loop_outcome :=
  match fuel with
  | O => StillRunning trace
  | S fuel' =>
      let trace1 := trace ++ [EFetch url] in
      match provider k url with
      | Throw e => Returned (Throw e) trace1
      | Ok data =>
          let bad := negb (bool_decide (tr_status data = OK)
                           || bool_decide (tr_status data = ZERO_RESULTS)) in
          match bad, policy with
          | true, ThrowOnBad =>
              Returned (Throw (js "Places TextSearch: " ++ tr_status data))
                       (trace1 ++ [ELog (tr_status data)])
          | _, _ =>
              let trace2 := if bad then trace1 ++ [ELog (tr_status data)] else trace1 in
              let all' := all ++ tr_results data in
              match tr_next_page_token data with
              | None | Some [] => Returned (Ok all') trace2
              | Some token =>
                  textSearch_loop delay policy provider fuel' (S k) (UPageToken token)
                    all' (trace2 ++ [ESleep delay])
              end
          end
      end
  end.

Definition textSearchAll (provider : nat -> ts_url -> res ts_response) (fuel : nat)
    (query language : jsstr) : loop_outcome :=
  textSearch_loop 2200 LogAndContinue provider fuel 0 (UQuery query (Some language)) [] [].

Definition textSearchAllPages (provider : nat -> ts_url -> res ts_response) (fuel : nat)
    (query : jsstr) : loop_outcome :=
  textSearch_loop 2000 ThrowOnBad provider fuel 0 (UQuery query None) [] [].

(** A stub upstream serving the given pages in order. *)
Definition page_stub (pages : list ts_response) : nat -> ts_url -> res ts_response :=
  fun k _ => match pages !! k with
             | Some p => Ok p
             | None => Throw (js "no such page")
             end.

Definition trace_of (o : loop_outcome) : list ts_event :=
  match o with Returned _ tr => tr | StillRunning tr => tr end.

Definition is_fetch (e : ts_event) : bool :=
  match e with EFetch _ => true | _ => false end.

Definition is_log (e : ts_event) : bool :=
  match e with ELog _ => true | _ => false end.

Definition fetch_count (tr : list ts_event) : nat := length (filter (fun e => is_fetch e = true) tr).

Definition strip_logs (tr : list ts_event) : list ts_event := filter (fun e => is_log e = false) tr.

Definition token_of (p : ts_response) : jsstr := default [] (tr_next_page_token p).

(** An upstream that always answers [OK] with a further page token. *)
Definition always_token : nat -> ts_url -> res ts_response :=
  fun _ _ => Ok {| tr_status := OK; tr_results := []; tr_next_page_token := Some (js "next") |}.

(** A page's status accepted by both loops. *)
Definition status_ok (p : ts_response) : Prop :=
  tr_status p = OK \/ tr_status p = ZERO_RESULTS.

(* ===================================================================== *)
(** ** Keys of the deduplication *)

(** The trimmed [place_id] of an accepted record of part_001. *)
Definition pidt (p : sa_detail) : jsstr := trim (sd_place_id p).

(** The non-empty trimmed [place_id]s of accepted records. *)
Definition pid_keys (acc : list sa_detail) : list jsstr :=
  filter (fun k => k <> []) (map pidt acc).

(** The [place_id] column (index 11) of the row arrays. *)
Definition pid_column (rows : list (list jsval)) : list jsval :=
  map (fun row => cell row (Some 11)) rows.

(* ===================================================================== *)
(** ** Sheet titles *)

(** The characters [: \ / ? * [ ]] refused in a tab title: the class
    [[:\\/?*\[\]]] of part_002 and [[*?:/\\[\]]] of part_005. *)
Definition is_title_forbidden (c : N) : bool :=
  (c =? 58)%N || (c =? 92)%N || (c =? 47)%N || (c =? 63)%N || (c =? 42)%N
  || (c =? 91)%N || (c =? 93)%N.

(** [sanitizeSheetTitle] (src/unnamed/part_002, lines 62-65):
<<
  return title.replace(/[:\\/?*\[\]]/g, "-").substring(0, 90).trim();
>> *)
Definition sanitizeSheetTitle (title : jsstr) : jsstr :=
  trim (take 90 (map (fun c => if is_title_forbidden c then 45%N else c) title)).

(** [buildSheetTitle] (src/unnamed/part_005, lines 55-65):
<<
  const norm = (s) => s.normalize("NFD").replace(/[\u0300-\u036f]/g, "")
    .replace(/[*?:/\\[\]]/g, " ").replace(/\s+/g, " ").trim();
  const title = `${norm(city)}, ${norm(country)}`.substring(0, 80);
  return title.length ? title : "Hoja";
>> *)
Definition norm_title (s : jsstr) : jsstr :=
  trim (collapse_space
          (map (fun c => if is_title_forbidden c then 32%N else c)
               (filter (fun c => is_combining_mark c = false) (List.flat_map nfd s)))).

Definition buildSheetTitle (city country : jsstr) : jsstr :=
  let title := take 80 (norm_title city ++ js ", " ++ norm_title country) in
  match title with
  | [] => js "Hoja"
  | _ => title
  end.

(** [a1Title] (src/unnamed/part_005, lines 68-72):
<<
  const safe = title.replace(/'/g, "''");
  return `'${safe}'`;
>> *)
Fixpoint escape_quotes (s : jsstr) : jsstr :=
  match s with
  | [] => []
  | c :: s' => if (c =? 39)%N then 39%N :: 39%N :: escape_quotes s' else c :: escape_quotes s'
  end.

Definition a1Title (title : jsstr) : jsstr := 39%N :: escape_quotes title ++ [39%N].

(* ===================================================================== *)
(** ** [textSearchAllPages] of src/unnamed/part_002 (lines 146-172)

    The same pages as the loops above, but a status other than [OK] /
    [ZERO_RESULTS] is logged and [break]s out of the [do ... while],
    returning what was collected so far; [data.next_page_token ?? null]
    ends the loop when absent or empty (an empty token is falsy). *)
Fixpoint textSearchAllPages_loop (provider : nat -> ts_url -> res ts_response)
    (fuel k : nat) (url : ts_url) (out : list raw_place) (trace : list ts_event)
    : loop_outcome :=
  match fuel with
  | O => StillRunning trace
  | S fuel' =>
      let trace1 := trace ++ [EFetch url] in
      match provider k url with
      | Throw e => Returned (Throw e) trace1
      | Ok data =>
          if negb (bool_decide (tr_status data = OK)
                   || bool_decide (tr_status data = ZERO_RESULTS))
          then Returned (Ok out) (trace1 ++ [ELog (tr_status data)])
          else
            let out' := out ++ tr_results data in
            match tr_next_page_token data with
            | None | Some [] => Returned (Ok out') trace1
            | Some token =>
                textSearchAllPages_loop provider fuel' (S k) (UPageToken token) out'
                  (trace1 ++ [ESleep 2000])
            end
      end
  end.

Definition textSearchAllPages_part002 (provider : nat -> ts_url -> res ts_response)
    (fuel : nat) (query : jsstr) : loop_outcome :=
  textSearchAllPages_loop provider fuel 0 (UQuery query None) [] [].

(* ===================================================================== *)
(** ** [searchCityAndBuildRows] of src/unnamed/part_002 (lines 211-322) *)

Definition SOURCE : jsstr := js "Glow Places".

(** [rowFromDetail] (lines 211-232). *)
Definition rowFromDetail (country city category : jsstr) (detail : place_detail)
    (timestamp : jsstr) : list jsval :=
  [JStr timestamp; JStr country; JStr city; JStr category; JStr (pd_name detail);
   JStr (pd_phone detail); JStr (pd_website detail); pd_lat detail; pd_lng detail;
   JStr (pd_address detail); JStr (pd_place_id detail); JStr SOURCE].

(** [for (const r of results) { if (!r.place_id) continue;
    details.push(await placeDetails(r.place_id)); }] *)
Fixpoint collectDetails (fetch_details : jsstr -> details_reply) (results : list raw_place)
    : res (list place_detail) :=
  match results with
  | [] => Ok []
  | r :: rs =>
      match rp_place_id r with
      | Some ((_ :: _) as pid) =>
          let! d := placeDetails fetch_details pid in
          let! ds := collectDetails fetch_details rs in
          Ok (d :: ds)
      | _ => collectDetails fetch_details rs
      end
  end.

(** The loop over the categories; [search query] is the result of
    [textSearchAllPages({ query })] (which may throw).  It returns
    [rows] and [perCategory] as [(category, found)] pairs. *)
Fixpoint searchCity_loop (fetch_details : jsstr -> details_reply)
    (search : jsstr -> res (list raw_place)) (timestamp safeCity safeCountry : jsstr)
    (categories : list jsstr) : res (list (list jsval) * list (jsstr * nat)) :=
  match categories with
  | [] => Ok ([], [])
  | category :: cs =>
      let query := category ++ js " " ++ safeCity ++ js " " ++ safeCountry in
      let! results := search query in
      let! details := collectDetails fetch_details results in
      let! rest := searchCity_loop fetch_details search timestamp safeCity safeCountry cs in
      Ok (map (fun d => rowFromDetail safeCountry safeCity category d timestamp) details
            ++ rest.1,
          (category, length details) :: rest.2)
  end.

Definition searchCityAndBuildRows (fetch_details : jsstr -> details_reply)
    (search : jsstr -> res (list raw_place)) (timestamp country city : jsstr)
    (categories : list jsstr) : res (list (list jsval) * list (jsstr * nat)) :=
  searchCity_loop fetch_details search timestamp (trim city) (trim country) categories.

(* ===================================================================== *)
(** ** Request bodies of [/sheets/append] *)

(** An element of [req.body.rows]: an array or an object. *)
Inductive body_item :=
| BIArr (r : list jsval)
| BIObj (o : row_obj).

(** [o[h]]: an array has no property named by a header. *)
Definition item_get (it : body_item) (h : string) : jsval :=
  match it with
  | BIObj o => default JUndef (o !! h)
  | BIArr _ => JUndef
  end.

Definition item_array (it : body_item) : option (list jsval) :=
  match it with
  | BIArr r => Some r
  | BIObj _ => None
  end.

Inductive append_reply :=
| Reply400
| Reply200 (appended : option nat).

(** [String(z)] for an integer. *)
Fixpoint N_digits (fuel : nat) (n : N) (acc : jsstr) : jsstr :=
  match fuel with
  | O => acc
  | S f =>
      let acc' := (48 + n mod 10)%N :: acc in
      if (n <? 10)%N then acc' else N_digits f (n / 10) acc'
  end.

Definition Z_to_js (z : Z) : jsstr :=
  if (z <? 0)%Z then 45%N :: N_digits (S (N.size_nat (Z.abs_N z))) (Z.abs_N z) []
  else N_digits (S (N.size_nat (Z.to_N z))) (Z.to_N z) [].

(** The text of a cell as [values.get] returns it (formatted values are
    strings; an absent cell reads as nothing). *)
Definition cell_text (v : jsval) : jsstr :=
  match v with
  | JStr s => s
  | JNum z => Z_to_js z
  | JNull | JUndef => []
  end.

(* ===================================================================== *)
(** ** [/sheets/append] of src/unnamed/part_002 (lines 423-459) *)

(** [sanitizePhone(o[h])] on any value: [!p] gives ["N/A"], otherwise
    [String(p)] is sanitized. *)
Definition sanitizePhone_val (p : jsval) : jsstr :=
  if negb (truthy p) then NA else
  match p with
  | JStr s => sanitizePhone s
  | JNum z => sanitizePhone (Z_to_js z)
  | JNull | JUndef => NA
  end.

(** [HEADERS.map((h) => (h === "phone" ? sanitizePhone(o[h]) : o[h]))] *)
Definition objectRow (it : body_item) : list jsval :=
  map (fun h => if String.eqb h "phone" then JStr (sanitizePhone_val (item_get it h))
                else item_get it h) HEADERS_part002.

(** The handler; [rows] is [None] when [req.body.rows] is not an array.
    An array body is sent as it is, and the Sheets API refuses a row
    that is not an array. *)
Definition sheets_append_part002 (api : sheets_api) (title : jsstr)
    (rows : option (list body_item)) : res (sheets_api * append_reply) :=
  if decide (title = []) then Ok (api, Reply400) else
  match rows with
  | None | Some [] => Ok (api, Reply400)
  | Some ((first :: _) as l) =>
      let values := match first with
                    | BIArr _ => mapM item_array l
                    | BIObj _ => Some (map objectRow l)
                    end in
      let sheetTitle := sanitizeSheetTitle title in
      let! api1 := ensureSheetAndHeaders api sheetTitle in
      match values with
      | None => Throw (js "Invalid values")
      | Some vs =>
          let! api2 := values_append api1 sheetTitle vs in
          Ok (api2, Reply200 None)
      end
  end.

(* ===================================================================== *)
(** ** [/sheets/append] of src/index.js (lines 56-116 and 305-336) *)

Definition hdr_index : list jsval := map (fun h => JStr (js h)) HEADERS_index.

Definition is_blank_cell (v : jsval) : bool :=
  match v with
  | JStr [] | JNull | JUndef => true
  | _ => false
  end.

(** [ensureSheetAndHeader] (lines 56-90): a missing tab is added and
    gets [HEADERS] in [A1:M1]; an existing tab gets them only when its
    range [A1:M1] reads empty. *)
Definition ensureSheetAndHeader (api : sheets_api) (sheetName : jsstr) : res sheets_api :=
  if sa_down api then Throw (js "Sheets API error") else
  match sa_tabs api !! sheetName with
  | None =>
      Ok {| sa_tabs := <[sheetName := [hdr_index]]> (sa_tabs api);
            sa_writes := S (S (sa_writes api)); sa_down := false |}
  | Some rs =>
      let row0 := match rs with r :: _ => take 13 r | [] => [] end in
      if forallb is_blank_cell row0 then
        let rs' := match rs with
                   | [] => [hdr_index]
                   | r :: tl => (hdr_index ++ drop 13 r) :: tl
                   end in
        Ok {| sa_tabs := <[sheetName := rs']> (sa_tabs api);
              sa_writes := S (sa_writes api); sa_down := false |}
      else Ok api
  end.

(** [(r[0] || "").trim()] on a row of the range [L2:L]: the trimmed
    text of column [L] (index 11). *)
Definition colL_key (r : list jsval) : jsstr := trim (cell_text (cell r (Some 11))).

(** [readExistingPlaceIds] (lines 92-104): column [L] from row 2,
    trimmed, empty strings dropped; any error gives the empty set. *)
Definition readExistingPlaceIds (api : sheets_api) (sheetName : jsstr) : gset jsstr :=
  if sa_down api then ∅ else
  match sa_tabs api !! sheetName with
  | None => ∅
  | Some rs =>
      list_to_set (filter (fun s => s <> [])
                     (map colL_key (drop 1 rs)))
  end.

(** [(o.place_id || "").trim()]; [trim] is not a method of a number. *)
Definition item_pid (it : body_item) : res jsstr :=
  let v := item_get it "place_id" in
  if truthy v then
    match v with
    | JStr s => Ok (trim s)
    | _ => Throw (js "TypeError: trim is not a function")
    end
  else Ok [].

(** [HEADERS.map(h => o[h] ?? "")] *)
Definition item_row (it : body_item) : list jsval :=
  map (fun h => nullish_or (Some (item_get it h)) (JStr [])) HEADERS_index.

(** The object branch (lines 319-324), with the set [existingIds]
    threaded through:
<<
  for (const o of rows) {
    const pid = (o.place_id || "").trim();
    if (!pid || existingIds.has(pid)) continue;
    values.push(HEADERS.map(h => o[h] ?? ""));
    existingIds.add(pid);
  }
>> *)
Fixpoint objectRowsToValues (existingIds : gset jsstr) (rows : list body_item)
    : res (list (list jsval) * gset jsstr) :=
  match rows with
  | [] => Ok ([], existingIds)
  | o :: rest =>
      let! pid := item_pid o in
      if decide (pid = [] \/ pid ∈ existingIds) then objectRowsToValues existingIds rest
      else
        let! r := objectRowsToValues ({[pid]} ∪ existingIds) rest in
        Ok (item_row o :: r.1, r.2)
  end.

(** The handler [/sheets/append] (lines 305-336); [rows] is [None] when
    [req.body.rows] is not an array. *)
Definition sheets_append (api : sheets_api) (sheetId sheetName : jsstr)
    (rows : option (list body_item)) : res (sheets_api * append_reply) :=
  if decide (sheetId = [] \/ sheetName = []) then Ok (api, Reply400) else
  let! api1 := ensureSheetAndHeader api sheetName in
  let existingIds := readExistingPlaceIds api1 sheetName in
  let! values :=
    match rows with
    | Some ((BIObj _ :: _) as l) =>
        let! r := objectRowsToValues existingIds l in Ok (Some r.1)
    | Some ((BIArr _ :: _) as l) => Ok (mapM item_array l)
    | _ => Ok (Some [])
    end in
  match values with
  | None => Throw (js "Invalid values")
  | Some vs =>
      let! r := appendRows api1 sheetName vs in
      Ok (r.1, Reply200 (Some r.2))
  end.

(* ===================================================================== *)
(** ** [/run-city] of src/unnamed/part_005 (lines 215-324) *)

(** What [placeDetails] (lines 215-234) returns; a missing property is
    [None]. *)
Record det005 := {
  d5_phone : option jsstr; d5_website : option jsstr; d5_lat : option jsval;
  d5_lng : option jsval; d5_address : option jsstr; d5_name : option jsstr
}.

Definition empty_details : details_json :=
  {| dj_place_id := None; dj_name := None; dj_formatted_address := None;
     dj_international_phone_number := None; dj_formatted_phone_number := None;
     dj_website := None; dj_lat := None; dj_lng := None |}.

Definition placeDetails005 (fetch_details : jsstr -> details_reply) (place_id : jsstr)
    : res det005 :=
  match fetch_details place_id with
  | DTransportError e => Throw e
  | DReply status result =>
      if decide (status = OK) then
        let d := default empty_details result in
        Ok {| d5_phone := Some (str_or (dj_international_phone_number d)
                                  (str_or (dj_formatted_phone_number d) NA));
              d5_website := Some (str_or (dj_website d) NA);
              d5_lat := Some (nullish_or (dj_lat d) JNull);
              d5_lng := Some (nullish_or (dj_lng d) JNull);
              d5_address := Some (str_or (dj_formatted_address d) NA);
              d5_name := Some (str_or (dj_name d) NA) |}
      else
        Ok {| d5_phone := Some NA; d5_website := Some NA; d5_lat := None;
              d5_lng := None; d5_address := None; d5_name := None |}
  end.

(** The row literal of lines 279-292. *)
Definition row005 (timestamp country city cat : jsstr) (r : raw_place) (pid : jsstr)
    (det : det005) : list jsval :=
  [JStr timestamp; JStr country; JStr city; JStr cat;
   JStr (str_or (d5_name det) (str_or (rp_name r) NA));
   JStr (str_or (d5_phone det) NA);
   JStr (str_or (d5_website det) NA);
   nullish_or (d5_lat det) (nullish_or (rp_lat r) (JStr []));
   nullish_or (d5_lng det) (nullish_or (rp_lng r) (JStr []));
   JStr (str_or (d5_address det) (str_or (rp_formatted_address r) NA));
   JStr pid; JStr source_glow].

(** [for (const r of list) { const pid = r.place_id || ""; if (!pid) continue; ... }] *)
Fixpoint runCity005_list (fetch_details : jsstr -> details_reply)
    (timestamp country city cat : jsstr) (lst : list raw_place) : res (list (list jsval)) :=
  match lst with
  | [] => Ok []
  | r :: rs =>
      match str_or (rp_place_id r) [] with
      | [] => runCity005_list fetch_details timestamp country city cat rs
      | pid =>
          let! det := placeDetails005 fetch_details pid in
          let! rest := runCity005_list fetch_details timestamp country city cat rs in
          Ok (row005 timestamp country city cat r pid det :: rest)
      end
  end.

(** The loop over the categories (lines 267-300): [rowsToAppend] and
    [perCategory] (as [(category, found)]) are accumulated; [found] counts
    the rows gathered so far whose [rr[3]] is the category. *)
Fixpoint runCity005_categories (fetch_details : jsstr -> details_reply)
    (search : jsstr -> res (list raw_place)) (timestamp country city : jsstr)
    (cats : list jsstr) (rowsToAppend : list (list jsval)) (perCategory : list (jsstr * nat))
    : res (list (list jsval) * list (jsstr * nat)) :=
  match cats with
  | [] => Ok (rowsToAppend, perCategory)
  | cat :: cs =>
      let query := cat ++ js " en " ++ city ++ js ", " ++ country in
      let! lst := search query in
      let! rows := runCity005_list fetch_details timestamp country city cat lst in
      let rowsToAppend' := rowsToAppend ++ rows in
      let found := length (filter (fun rr => cell rr (Some 3) = JStr cat) rowsToAppend') in
      runCity005_categories fetch_details search timestamp country city cs
        rowsToAppend' (perCategory ++ [(cat, found)])
  end.

Definition HEADERS_part005 : list string := SHEET_HEADERS.

(** [(v || "").toString()] *)
Definition or_empty_text (v : jsval) : jsstr := if truthy v then cell_text v else [].

(** The filter of [appendRowsDedup] (lines 164-167), against the set
    [existing] that [loadExistingPlaceIds] read from the tab. *)
Definition appendFilter005 (existing : gset jsstr) (rows : list (list jsval))
    : list (list jsval) :=
  filter (fun r => let pid := trim (or_empty_text (cell r (index_of "place_id" HEADERS_part005))) in
                   pid <> [] /\ pid ∉ existing) rows.

(** [arr.slice(-k)]: [-0] is [0], so [slice(-0)] is the whole array. *)
Definition js_slice_neg {A} (l : list A) (k : nat) : list A :=
  match k with
  | O => l
  | S _ => drop (length l - k) l
  end.

(** A value read from the plain object [addedByCat = {}]: an own count,
    a member inherited from [Object.prototype] (a method, or the prototype
    itself behind [__proto__]; all truthy), or the string that [+ 1] makes
    of such a member (its text, from [Function.prototype.toString], is
    left abstract). *)
Inductive cnt_val :=
| CNum (n : nat)
| CInherited (k : jsstr)
| CText.

#[global] Instance cnt_val_eq_dec : EqDecision cnt_val.
Proof. solve_decision. Defined.

(** The own property names of [Object.prototype]. *)
Definition Object_prototype_keys : list jsstr :=
  map js ["constructor"; "__defineGetter__"; "__defineSetter__"; "hasOwnProperty";
          "__lookupGetter__"; "__lookupSetter__"; "isPrototypeOf";
          "propertyIsEnumerable"; "toString"; "valueOf"; "__proto__";
          "toLocaleString"]%string.

(** [obj[k] || 0]: an own value (a count here, at least 1 once stored), an
    inherited member, or 0 for an absent key. *)
Definition obj_get_or0 (m : gmap jsstr cnt_val) (k : jsstr) : cnt_val :=
  match m !! k with
  | Some v => v
  | None => if decide (k ∈ Object_prototype_keys) then CInherited k else CNum 0
  end.

(** [v + 1]: a number is incremented; a function or an object is turned
    into a string and ["1"] appended. *)
Definition cnt_add1 (v : cnt_val) : cnt_val :=
  match v with
  | CNum n => CNum (S n)
  | CInherited _ | CText => CText
  end.

(** [obj[k] = v]: on [__proto__] the setter of [Object.prototype] ignores
    a value that is not an object. *)
Definition obj_set (m : gmap jsstr cnt_val) (k : jsstr) (v : cnt_val) : gmap jsstr cnt_val :=
  if decide (k = js "__proto__") then m else <[k := v]> m.

(** [addedByCat] (lines 306-310):
<<
    const addedByCat = {};
    for (const rr of rowsToAppend.slice(-appended)) {
      const c = rr[3];
      addedByCat[c] = (addedByCat[c] || 0) + 1;
    }
>> *)
Definition count_by_category (rows : list (list jsval)) : gmap jsstr cnt_val :=
  foldl (fun acc rr => let c := cell_text (cell rr (Some 3)) in
                       obj_set acc c (cnt_add1 (obj_get_or0 acc c))) ∅ rows.

Definition DEFAULT_CATEGORIES005 : list jsstr :=
  [js "barber" ++ [237%N] ++ js "as"; js "salones de belleza"; js "spas"].

(** The handler with the Sheets side summarised: [existing] is the set
    [loadExistingPlaceIds] returns inside [appendRowsDedup], whose
    [{ appended }] is the length of the filtered rows.  [None] is the 400
    reply; otherwise [total_appended] and the [per_category] entries as
    [(category, found, added)], [added] being
    [addedByCat[pc.category] || 0] (line 311). *)
Definition runCity005 (fetch_details : jsstr -> details_reply)
    (search : jsstr -> res (list raw_place)) (existing : gset jsstr)
    (timestamp country city : jsstr) (categories : option (list jsstr))
    : res (option (nat * list (jsstr * nat * cnt_val))) :=
  if decide (country = [] \/ city = []) then Ok None else
  let cats := match categories with
              | Some ((_ :: _) as l) => l
              | _ => DEFAULT_CATEGORIES005
              end in
  let! built := runCity005_categories fetch_details search timestamp country city cats [] [] in
  let rowsToAppend := built.1 in
  let appended := length (appendFilter005 existing rowsToAppend) in
  let addedByCat := count_by_category (js_slice_neg rowsToAppend appended) in
  Ok (Some (appended, map (fun pc => (pc.1, pc.2, obj_get_or0 addedByCat pc.1)) built.2)).


(** White space already collapsed: every white-space code unit is a
    blank, and no two are adjacent ([in_run]: the previous one was). *)
Fixpoint coll_ok (in_run : bool) (s : jsstr) : Prop :=
  match s with
  | [] => True
  | c :: s' =>
      if is_js_space c then c = 32%N /\ in_run = false /\ coll_ok true s'
      else coll_ok false s'
  end.
(* ===================================================================== *)
(** ** Sample data *)

Definition collide_p1 : sa_detail :=
  {| sd_name := js "a|b"; sd_address := js "c"; sd_lat := JStr []; sd_lng := JStr [];
     sd_phone := NA; sd_website := NA; sd_place_id := [] |}.
Definition collide_p2 : sa_detail :=
  {| sd_name := js "a"; sd_address := js "b|c"; sd_lat := JStr []; sd_lng := JStr [];
     sd_phone := NA; sd_website := NA; sd_place_id := [] |}.
Definition timeout_fetch : jsstr -> details_reply := fun _ => DTransportError (js "timeout").

(** A search result whose [place_id] is the empty string, and the same
    result with no [place_id] at all. *)
Definition place_blank_id : raw_place :=
  {| rp_place_id := Some []; rp_name := Some (js "Barberia Central");
     rp_formatted_address := Some (js "Calle 1, Bogota"); rp_lat := None; rp_lng := None |}.
Definition place_no_id : raw_place :=
  {| rp_place_id := None; rp_name := Some (js "Barberia Central");
     rp_formatted_address := Some (js "Calle 1, Bogota"); rp_lat := None; rp_lng := None |}.
Definition place_p1 : raw_place :=
  {| rp_place_id := Some (js "p1"); rp_name := Some (js "Spa Uno");
     rp_formatted_address := Some (js "Av. Uno 1"); rp_lat := None; rp_lng := None |}.

Definition place_p2 : raw_place :=
  {| rp_place_id := Some (js "p2"); rp_name := Some (js "Spa Dos");
     rp_formatted_address := None; rp_lat := Some (JNum 4); rp_lng := Some (JNum 74) |}.

(** A details endpoint answering [NOT_FOUND] for every id. *)
Definition notfound_fetch : jsstr -> details_reply := fun _ => DReply (js "NOT_FOUND") None.

Definition sample_mapper : nat -> nat -> res nat := fun x i => Ok (x + i).

Definition sample_mapper_fail : nat -> nat -> res nat :=
  fun x i => if Nat.eqb i 1 then Throw (js "boom") else Ok (x + i).

Definition page_a : ts_response :=
  {| tr_status := OK; tr_results := [place_p1]; tr_next_page_token := Some (js "t1") |}.
Definition page_b : ts_response :=
  {| tr_status := OK; tr_results := [place_p2]; tr_next_page_token := Some (js "t2") |}.
Definition page_c : ts_response :=
  {| tr_status := ZERO_RESULTS; tr_results := []; tr_next_page_token := None |}.

Definition dd_a : sa_detail :=
  {| sd_name := js "Spa Uno"; sd_address := js "Av. Uno 1"; sd_lat := JStr []; sd_lng := JStr [];
     sd_phone := NA; sd_website := NA; sd_place_id := js " p1 " |}.
Definition dd_b : sa_detail :=
  {| sd_name := js "Spa Uno"; sd_address := js "Av. Uno 1"; sd_lat := JStr []; sd_lng := JStr [];
     sd_phone := NA; sd_website := NA; sd_place_id := js "p2" |}.

(** The same business without [place_id], spelled twice: with an accent
    and a double blank, and plainly. *)
Definition cafe_a : sa_detail :=
  {| sd_name := [67; 97; 102; 233; 32; 32; 85; 110; 111]%N; sd_address := js " Calle 5 ";
     sd_lat := JStr []; sd_lng := JStr []; sd_phone := NA; sd_website := NA; sd_place_id := [] |}.
Definition cafe_b : sa_detail :=
  {| sd_name := js "cafe uno"; sd_address := js "calle 5";
     sd_lat := JStr []; sd_lng := JStr []; sd_phone := NA; sd_website := NA;
     sd_place_id := js "  " |}.


(** A page the Places API refuses. *)
Definition page_denied : ts_response :=
  {| tr_status := js "REQUEST_DENIED"; tr_results := []; tr_next_page_token := None |}.

(** A row of part_002 (12 columns) with [place_id] [pid]. *)
Definition row002 (pid : jsstr) : list jsval :=
  [JStr (js "2025-01-01"); JStr (js "Colombia"); JStr (js "Bogota"); JStr (js "spas");
   JStr (js "Spa"); JStr NA; JStr NA; JStr []; JStr []; JStr NA; JStr pid; JStr source_glow].

(** A spreadsheet with no tab. *)
Definition api_none : sheets_api := {| sa_tabs := ∅; sa_writes := 0; sa_down := false |}.

(** A tab [Bogota] holding the header of part_002 and one row. *)
Definition api_bogota : sheets_api :=
  {| sa_tabs := <[js "Bogota" := [header_row; row002 (js "p1")]]> ∅;
     sa_writes := 0; sa_down := false |}.

(** A tab [Leads] whose first row is blank in [A1:M1], above one data row. *)
Definition api_blank_header : sheets_api :=
  {| sa_tabs := <[js "Leads" := [[JStr []; JNull]; [JStr (js "x")]]]> ∅;
     sa_writes := 0; sa_down := false |}.

(** A request object with a [place_id], a [phone] and a [name]. *)
Definition obj_place (pid phone : string) : row_obj :=
  <["place_id" := JStr (js pid)]> (<["phone" := JStr (js phone)]>
    (<["name" := JStr (js "Spa")]> ∅)).

(** Three objects, the second repeating the first's id with blanks. *)
Definition objs_p1_p1_p2 : list body_item :=
  [BIObj (obj_place "p1" "+57 300"); BIObj (obj_place " p1 " "+57 301");
   BIObj (obj_place "p2" "+57 302")].

(** A text search answering the two places [p1] and [p2]. *)
Definition search_two : jsstr -> res (list raw_place) := fun _ => Ok [place_p1; place_p2].

(* ===================================================================== *)
(** * Proofs *)

(* --------------------------------------------------------------------- *)
(** ** Appending no rows *)

(** Claim C8: on an empty row list, [appendRows] (src/index.js) returns
    [{ appended: 0 }] and [appendRowsDedup] (src/unnamed/part_002) returns
    [{ added: 0, skipped: 0 }]; neither throws, and the spreadsheet is
    left as it was (no write call), whatever its state. *)
Theorem appendRows_empty_noop :
  forall (api : sheets_api) (sheetName title : jsstr),
    appendRows api sheetName [] = Ok (api, 0) /\
    appendRowsDedup api title [] = Ok (api, (0, 0)).
Proof. intros api sheetName title. split; reflexivity. Qed.

(* --------------------------------------------------------------------- *)
(** ** Splitting ["city, country"] *)

Lemma split_comma_nonempty (s : jsstr) : split_comma s <> [].
Proof.
  induction s as [|c s IH]; simpl; [discriminate|].
  destruct (c =? comma)%N; [discriminate|].
  destruct (split_comma s); discriminate.
Qed.

Lemma split_comma_no_comma (s : jsstr) : comma ∉ s -> split_comma s = [s].
Proof.
  induction s as [|c s IH]; intros Hs; simpl; [reflexivity|].
  rewrite elem_of_cons in Hs.
  destruct (N.eqb_spec c comma) as [->|Hc]; [tauto|].
  rewrite IH by tauto. reflexivity.
Qed.

Lemma split_comma_app (x y : jsstr) :
  split_comma (x ++ comma :: y) = split_comma x ++ split_comma y.
Proof.
  induction x as [|c x IH]; simpl.
  - reflexivity.
  - rewrite IH. destruct (c =? comma)%N; [reflexivity|].
    destruct (split_comma x) eqn:E; [exfalso; exact (split_comma_nonempty x E)|].
    reflexivity.
Qed.

(** Claim C9: [splitCityCountry] keeps the first comma-separated segment
    (trimmed) as the city and the last one (trimmed) as the country; a
    string without a comma is all city, with an empty country; middle
    segments go nowhere. *)
Theorem splitCityCountry_spec :
  (forall s : jsstr, comma ∉ s ->
     splitCityCountry s = {| cc_city := trim s; cc_country := [] |}) /\
  (forall a rest : jsstr, comma ∉ a ->
     cc_city (splitCityCountry (a ++ comma :: rest)) = trim a) /\
  (forall pre b : jsstr, comma ∉ b ->
     cc_country (splitCityCountry (pre ++ comma :: b)) = trim b) /\
  (forall a m b : jsstr, comma ∉ a -> comma ∉ b ->
     splitCityCountry (a ++ comma :: m ++ comma :: b)
     = {| cc_city := trim a; cc_country := trim b |}).
Proof.
  assert (Hcity : forall a rest : jsstr, comma ∉ a ->
            cc_city (splitCityCountry (a ++ comma :: rest)) = trim a).
  { intros a rest Ha. unfold splitCityCountry.
    rewrite split_comma_app, (split_comma_no_comma a Ha). simpl.
    destruct (length (map trim (split_comma rest)) =? 0); reflexivity. }
  assert (Hcountry : forall pre b : jsstr, comma ∉ b ->
            cc_country (splitCityCountry (pre ++ comma :: b)) = trim b).
  { intros pre b Hb. unfold splitCityCountry.
    rewrite split_comma_app, (split_comma_no_comma b Hb), map_app.
    destruct (split_comma pre) as [|p ps] eqn:E;
      [exfalso; exact (split_comma_nonempty pre E)|].
    simpl. rewrite length_app. simpl.
    replace (Nat.eqb (length (map trim ps) + 1) 0) with false
      by (symmetry; apply Nat.eqb_neq; lia).
    simpl. destruct (map trim ps ++ [trim b]) eqn:El;
      [destruct (map trim ps); discriminate|rewrite <- El; apply List.last_last]. }
  split; [|split; [exact Hcity|split; [exact Hcountry|]]].
  - intros s Hs. unfold splitCityCountry. rewrite (split_comma_no_comma s Hs). reflexivity.
  - intros a m b Ha Hb.
    pose proof (Hcity a (m ++ comma :: b) Ha) as H1.
    pose proof (Hcountry (a ++ comma :: m) b Hb) as H2.
    rewrite <- app_assoc in H2. simpl in H2.
    destruct (splitCityCountry (a ++ comma :: m ++ comma :: b)).
    simpl in *. subst. reflexivity.
Qed.

(* --------------------------------------------------------------------- *)
(** ** Column letters *)

Lemma dbl_scaled_nonpos (a b e : Z) :
  (e <= 0)%Z -> dbl_scaled a b e = (a * 2 ^ (- e), b)%Z.
Proof.
  intros He. unfold dbl_scaled. destruct (0 <=? e)%Z eqn:E; [|reflexivity].
  apply Z.leb_le in E. assert (e = 0%Z) as -> by lia. simpl. f_equal; lia.
Qed.

Lemma dbl_exp_nonpos (a b : Z) :
  (1 <= b)%Z -> (Z.log2 a + 1 <= Z.log2 b + 53)%Z -> (dbl_exp a b <= 0)%Z.
Proof.
  intros Hb Hl. unfold dbl_exp.
  rewrite dbl_scaled_nonpos by lia. cbn beta iota zeta.
  destruct (2 ^ 53 <=? _)%Z; lia.
Qed.

Lemma js_sub_exact (x y : Z) :
  (0 <= x - y <= 2 ^ 53)%Z -> js_sub x y = (x - y)%Z.
Proof.
  intros Hr. unfold js_sub. set (r := (x - y)%Z) in *.
  replace (r <? 0)%Z with false by (symmetry; apply Z.ltb_ge; lia).
  destruct (Z.eq_dec r (2 ^ 53)) as [->|Hne]; [reflexivity|].
  assert (Hl : (Z.log2 r < 53)%Z).
  { destruct (Z.eq_dec r 0) as [->|Hr0]; [simpl; lia|].
    apply Z.log2_lt_pow2; lia. }
  assert (He : (dbl_exp r 1 <= 0)%Z) by (apply dbl_exp_nonpos; simpl; lia).
  unfold dbl_round. set (e := dbl_exp r 1) in *.
  rewrite dbl_scaled_nonpos by lia. cbn beta iota zeta.
  rewrite Z.div_1_r, Z.mod_1_r, Z.mul_0_r.
  cbn [orb andb Z.ltb Z.compare Z.eqb].
  unfold dbl_floor.
  destruct (0 <=? e)%Z eqn:E.
  - apply Z.leb_le in E. assert (e = 0%Z) as -> by lia. simpl. lia.
  - rewrite Z.div_mul; [reflexivity|]. apply Z.pow_nonzero; lia.
Qed.

Lemma js_floor_div_26_exact (a : Z) :
  (0 <= a <= 2 ^ 53)%Z -> js_floor_div a 26 = (a / 26)%Z.
Proof.
  intros Ha. destruct (Z.eq_dec a (2 ^ 53)) as [->|Hne]; [reflexivity|].
  assert (Hl : (Z.log2 a < 53)%Z).
  { destruct (Z.eq_dec a 0) as [->|Ha0]; [simpl; lia|].
    apply Z.log2_lt_pow2; lia. }
  assert (He : (dbl_exp a 26 <= -4)%Z).
  { unfold dbl_exp. rewrite dbl_scaled_nonpos by (change (Z.log2 26) with 4%Z; lia).
    cbn beta iota zeta. change (Z.log2 26) with 4%Z.
    destruct (2 ^ 53 <=? _)%Z; lia. }
  unfold js_floor_div, dbl_round. set (e := dbl_exp a 26) in *.
  rewrite dbl_scaled_nonpos by lia. cbn beta iota zeta.
  unfold dbl_floor. replace (0 <=? e)%Z with false by (symmetry; apply Z.leb_gt; lia).
  set (P := (2 ^ (- e))%Z).
  assert (HP : (16 <= P)%Z).
  { subst P. change 16%Z with (2 ^ 4)%Z. apply Z.pow_le_mono_r; lia. }
  pose proof (Z.div_mod (a * P) 26 ltac:(lia)) as Hd.
  pose proof (Z.mod_pos_bound (a * P) 26 ltac:(lia)) as Hb.
  pose proof (Z.div_mod a 26 ltac:(lia)) as Hd'.
  pose proof (Z.mod_pos_bound a 26 ltac:(lia)) as Hb'.
  set (q := ((a * P) / 26)%Z) in *. set (r := ((a * P) mod 26)%Z) in *.
  set (Q := (a / 26)%Z) in *. set (R := (a mod 26)%Z) in *.
  assert (HXY : (a * P = 26 * (Q * P) + R * P)%Z) by (rewrite Hd' at 1; ring).
  assert (HY : (0 <= R * P <= 25 * P)%Z) by nia.
  set (X := (Q * P)%Z) in *. set (Y := (R * P)%Z) in *.
  destruct (_ || _) eqn:Hc.
  - assert (Hr : (13 <= r)%Z).
    { apply orb_prop in Hc as [Hc|Hc].
      - apply Z.ltb_lt in Hc. lia.
      - apply andb_prop in Hc as [Hc _]. apply Z.eqb_eq in Hc. lia. }
    symmetry. apply Z.div_unique_pos with (r := (q + 1 - X)%Z); [lia|].
    subst X. ring.
  - symmetry. apply Z.div_unique_pos with (r := (q - X)%Z); [lia|].
    subst X. ring.
Qed.

Lemma columnLetter_step (n : Z) :
  (0 < n)%Z -> ((n - Z.rem (n - 1) 26) / 26 = (n - 1) / 26)%Z.
Proof.
  intros Hn. rewrite Z.rem_mod_nonneg by lia.
  pose proof (Z.div_mod (n - 1) 26 ltac:(lia)) as Hd.
  pose proof (Z.mod_pos_bound (n - 1) 26 ltac:(lia)) as Hb.
  symmetry. apply Z.div_unique with (r := 1%Z); lia.
Qed.

Lemma columnLetter_loop_exact (fuel : nat) (n : Z) (s : jsstr) :
  (n <= 2 ^ 53)%Z -> columnLetter_loop fuel n s = columnLetter_exact_loop fuel n s.
Proof.
  revert n s; induction fuel as [|fuel IH]; intros n s Hn; simpl; [reflexivity|].
  destruct (0 <? n)%Z eqn:Hp; [|reflexivity]. apply Z.ltb_lt in Hp.
  rewrite (js_sub_exact n 1) by lia.
  pose proof (Z.rem_nonneg (n - 1) 26 ltac:(lia) ltac:(lia)).
  pose proof (Z.rem_le (n - 1) 26 ltac:(lia) ltac:(lia)).
  rewrite js_sub_exact, js_floor_div_26_exact by lia.
  apply IH. rewrite columnLetter_step by lia.
  apply Z.div_le_upper_bound; lia.
Qed.

Lemma colLetter_loop_exact (fuel : nat) (n : Z) (s : jsstr) :
  (n <= 2 ^ 53)%Z -> colLetter_loop fuel n s = columnLetter_exact_loop fuel n s.
Proof.
  revert n s; induction fuel as [|fuel IH]; intros n s Hn; simpl; [reflexivity|].
  destruct (0 <? n)%Z eqn:Hp; [|reflexivity]. apply Z.ltb_lt in Hp.
  rewrite (js_sub_exact n 1), js_floor_div_26_exact by lia.
  rewrite columnLetter_step by lia.
  apply IH. apply Z.div_le_upper_bound; lia.
Qed.

Lemma columnLetter_exact_loop_app (fuel : nat) (n : Z) (s : jsstr) :
  columnLetter_exact_loop fuel n s = columnLetter_exact_loop fuel n [] ++ s.
Proof.
  revert n s; induction fuel as [|fuel IH]; intros n s; simpl; [reflexivity|].
  destruct (0 <? n)%Z; [|reflexivity].
  rewrite (IH _ (_ :: s)), (IH _ [_]), <- app_assoc. reflexivity.
Qed.

(** Any fuel [f] with [n < 2^f] runs the loop to its end. *)
Lemma columnLetter_exact_loop_fuel (f1 f2 : nat) (n : Z) (s : jsstr) :
  (0 <= n)%Z -> (n < 2 ^ Z.of_nat f1)%Z -> (n < 2 ^ Z.of_nat f2)%Z ->
  columnLetter_exact_loop f1 n s = columnLetter_exact_loop f2 n s.
Proof.
  revert f2 n s; induction f1 as [|f1 IH]; intros f2 n s H0 H1 H2.
  - assert (n = 0%Z) by (simpl in H1; lia). subst. destruct f2; reflexivity.
  - destruct f2 as [|f2].
    + assert (n = 0%Z) by (simpl in H2; lia). subst. reflexivity.
    + rewrite Nat2Z.inj_succ, Z.pow_succ_r in H1, H2 by lia.
      simpl. destruct (0 <? n)%Z eqn:Hn; [|reflexivity].
      apply Z.ltb_lt in Hn. rewrite columnLetter_step by lia.
      pose proof (Z.div_pos (n - 1) 26 ltac:(lia) ltac:(lia)).
      apply IH; [lia| |]; apply Z.div_lt_upper_bound; lia.
Qed.

Lemma columnLetter_exact_unfold (n : Z) :
  (0 <= n)%Z -> columnLetter_exact n = columnLetter_exact_loop (Z.to_nat n) n [].
Proof.
  intros Hn. unfold columnLetter_exact. apply columnLetter_exact_loop_fuel; [exact Hn| |].
  - destruct (Z.eq_dec n 0) as [->|Hn0]; [simpl; lia|].
    rewrite Nat2Z.inj_succ, Z2Nat.id by (apply Z.log2_nonneg).
    apply Z.log2_spec; lia.
  - rewrite Z2Nat.id by exact Hn. apply Z.pow_gt_lin_r; lia.
Qed.

Lemma columnLetter_exact_double (n : Z) :
  (n <= 2 ^ 53)%Z -> columnLetter n = columnLetter_exact n /\ colLetter n = columnLetter_exact n.
Proof.
  intros Hn. unfold columnLetter, colLetter, columnLetter_exact.
  split; [apply columnLetter_loop_exact|apply colLetter_loop_exact]; exact Hn.
Qed.

Lemma dbl_q_lower (a b : Z) :
  (1 <= a)%Z -> (1 <= b)%Z ->
  let e0 := (Z.log2 a - Z.log2 b - 53)%Z in
  (2 ^ 52 <= fst (dbl_scaled a b e0) / snd (dbl_scaled a b e0))%Z.
Proof.
  intros Ha Hb e0.
  pose proof (Z.log2_spec a ltac:(lia)) as [Ha1 Ha2].
  pose proof (Z.log2_spec b ltac:(lia)) as [Hb1 Hb2].
  pose proof (Z.log2_nonneg a). pose proof (Z.log2_nonneg b).
  set (la := Z.log2 a) in *. set (lb := Z.log2 b) in *.
  unfold dbl_scaled. destruct (0 <=? e0)%Z eqn:E; simpl.
  - apply Z.leb_le in E.
    assert (Hp : (2 ^ la = 2 ^ (lb + 1) * 2 ^ e0 * 2 ^ 52)%Z).
    { rewrite <- !Z.pow_add_r by lia. f_equal. subst e0. lia. }
    pose proof (Z.pow_pos_nonneg 2 e0 ltac:(lia) E).
    apply Z.div_le_lower_bound; [nia|]. nia.
  - apply Z.leb_gt in E.
    assert (Hp : (2 ^ 52 * 2 ^ (lb + 1) = 2 ^ la * 2 ^ (- e0))%Z).
    { rewrite <- !Z.pow_add_r by lia. f_equal. subst e0. lia. }
    pose proof (Z.pow_pos_nonneg 2 (- e0) ltac:(lia) ltac:(lia)).
    apply Z.div_le_lower_bound; [lia|]. nia.
Qed.

Lemma dbl_q_succ (a b e : Z) :
  (0 <= a)%Z -> (1 <= b)%Z ->
  (fst (dbl_scaled a b (e + 1)) / snd (dbl_scaled a b (e + 1)) =
   (fst (dbl_scaled a b e) / snd (dbl_scaled a b e)) / 2)%Z.
Proof.
  intros Ha Hb. unfold dbl_scaled.
  destruct (0 <=? e)%Z eqn:E.
  - apply Z.leb_le in E.
    replace (0 <=? e + 1)%Z with true by (symmetry; apply Z.leb_le; lia). simpl.
    pose proof (Z.pow_pos_nonneg 2 e ltac:(lia) E).
    rewrite Z.pow_add_r, Z.pow_1_r, Z.mul_assoc, Z.div_div by lia. reflexivity.
  - apply Z.leb_gt in E. destruct (Z.eq_dec e (-1)) as [->|Hne].
    + simpl. change (2 ^ (-1 + 1))%Z with 1%Z. change (2 ^ (- (-1)))%Z with 2%Z.
      rewrite Z.mul_1_r, Z.div_div, Z.div_mul_cancel_r by lia. reflexivity.
    + replace (0 <=? e + 1)%Z with false by (symmetry; apply Z.leb_gt; lia). simpl.
      replace (- e)%Z with (- (e + 1) + 1)%Z by lia.
      pose proof (Z.pow_pos_nonneg 2 (- (e + 1)) ltac:(lia) ltac:(lia)).
      rewrite Z.pow_add_r, Z.pow_1_r, Z.mul_assoc, Z.div_div by lia.
      rewrite Z.div_mul_cancel_r by lia. reflexivity.
Qed.

Lemma dbl_exp_q (a b : Z) :
  (1 <= a)%Z -> (1 <= b)%Z ->
  (1 <= fst (dbl_scaled a b (dbl_exp a b)) / snd (dbl_scaled a b (dbl_exp a b)))%Z.
Proof.
  intros Ha Hb. pose proof (dbl_q_lower a b Ha Hb) as Hl. cbv zeta in Hl.
  unfold dbl_exp. set (e0 := (Z.log2 a - Z.log2 b - 53)%Z) in *.
  destruct (dbl_scaled a b e0) as [num den] eqn:Hs. simpl in Hl.
  destruct (2 ^ 53 <=? num / den)%Z eqn:Hc.
  - rewrite dbl_q_succ, Hs by lia. simpl. apply Z.leb_le in Hc.
    apply Z.div_le_lower_bound; lia.
  - rewrite Hs. simpl. lia.
Qed.

(** The double nearest to [a / b], rounded down, is at most [2 a / b]. *)
Lemma dbl_round_bound (a b : Z) :
  (0 <= a)%Z -> (1 <= b)%Z ->
  (0 <= dbl_floor (dbl_round a b))%Z /\ (b * dbl_floor (dbl_round a b) <= 2 * a)%Z.
Proof.
  intros Ha Hb. unfold dbl_round.
  destruct (Z.eq_dec a 0) as [->|Ha0].
  - set (e := dbl_exp 0 b).
    assert (Hs : (dbl_scaled 0 b e = (0, snd (dbl_scaled 0 b e)) /\ 0 < snd (dbl_scaled 0 b e))%Z).
    { unfold dbl_scaled. destruct (0 <=? e)%Z eqn:E; simpl; [|split; [reflexivity|lia]].
      apply Z.leb_le in E. pose proof (Z.pow_pos_nonneg 2 e ltac:(lia) E). split; [reflexivity|lia]. }
    destruct Hs as [Hs Hd]. rewrite Hs. cbn beta iota zeta.
    rewrite Z.div_0_l, Z.mod_0_l, Z.mul_0_r by lia. change (Z.odd 0) with false.
    rewrite andb_false_r.
    replace (snd (dbl_scaled 0 b e) <? 0)%Z with false by (symmetry; apply Z.ltb_ge; lia).
    cbn [orb]. unfold dbl_floor. destruct (0 <=? e)%Z eqn:E; [lia|]. apply Z.leb_gt in E.
    rewrite Z.div_0_l; [lia|]. apply Z.pow_nonzero; lia.
  - assert (Ha1 : (1 <= a)%Z) by lia. pose proof (dbl_exp_q a b Ha1 Hb) as Hq.
    set (e := dbl_exp a b) in *.
    unfold dbl_scaled in *. destruct (0 <=? e)%Z eqn:E; simpl in Hq |- *.
    + unfold dbl_floor. rewrite E. apply Z.leb_le in E.
      pose proof (Z.pow_pos_nonneg 2 e ltac:(lia) E).
      set (den := (b * 2 ^ e)%Z) in *.
      pose proof (Z.mul_div_le a den ltac:(nia)).
      set (q := (a / den)%Z) in *.
      assert (Hm : forall m : Z, (q <= m <= q + 1)%Z ->
                   (0 <= m * 2 ^ e)%Z /\ (b * (m * 2 ^ e) <= 2 * a)%Z) by (intros; nia).
      destruct (_ || _); apply Hm; lia.
    + unfold dbl_floor. rewrite E. apply Z.leb_gt in E.
      pose proof (Z.pow_pos_nonneg 2 (- e) ltac:(lia) ltac:(lia)).
      set (P := (2 ^ (- e))%Z) in *.
      pose proof (Z.mul_div_le (a * P) b ltac:(lia)).
      set (q := (a * P / b)%Z) in *.
      assert (Hm : forall m : Z, (q <= m <= q + 1)%Z ->
                   (0 <= m / P)%Z /\ (b * (m / P) <= 2 * a)%Z).
      { intros m Hm. pose proof (Z.mul_div_le m P ltac:(lia)).
        pose proof (Z.div_pos m P ltac:(lia) ltac:(lia)).
        split; [lia|]. apply (Z.mul_le_mono_pos_r _ _ P); [lia|]. nia. }
      destruct (_ || _); apply Hm; lia.
Qed.

Lemma js_sub_bound (x y : Z) :
  (0 <= x - y)%Z -> (0 <= js_sub x y <= 2 * (x - y))%Z.
Proof.
  intros H. unfold js_sub.
  replace (x - y <? 0)%Z with false by (symmetry; apply Z.ltb_ge; lia).
  pose proof (dbl_round_bound (x - y) 1 H ltac:(lia)). lia.
Qed.

Lemma js_floor_div_bound (a b : Z) :
  (0 <= a)%Z -> (1 <= b)%Z -> (0 <= js_floor_div a b)%Z /\ (b * js_floor_div a b <= 2 * a)%Z.
Proof. apply dbl_round_bound. Qed.

(** Each pass of either loop at least halves [n]. *)
Lemma columnLetter_next_half (n : Z) :
  (1 <= n)%Z ->
  (0 <= js_floor_div (js_sub n (Z.rem (js_sub n 1) 26)) 26 /\
   2 * js_floor_div (js_sub n (Z.rem (js_sub n 1) 26)) 26 <= n)%Z /\
  (0 <= js_floor_div (js_sub n 1) 26 /\ 2 * js_floor_div (js_sub n 1) 26 <= n)%Z.
Proof.
  intros Hn. pose proof (js_sub_bound n 1 ltac:(lia)) as H1.
  pose proof (Z.rem_nonneg (js_sub n 1) 26 ltac:(lia) ltac:(lia)).
  pose proof (Z.rem_le (js_sub n 1) 26 ltac:(lia) ltac:(lia)).
  pose proof (Z.rem_bound_pos (js_sub n 1) 26 ltac:(lia) ltac:(lia)).
  set (m := Z.rem (js_sub n 1) 26) in *.
  assert (Hm : (m <= n - 1)%Z).
  { destruct (Z.le_gt_cases n (2 ^ 53)).
    - rewrite js_sub_exact in * by lia. lia.
    - lia. }
  pose proof (js_sub_bound n m ltac:(lia)).
  pose proof (js_floor_div_bound (js_sub n m) 26 ltac:(lia) ltac:(lia)).
  pose proof (js_floor_div_bound (js_sub n 1) 26 ltac:(lia) ltac:(lia)).
  lia.
Qed.

Lemma columnLetter_loop_fuel (f1 f2 : nat) (n : Z) (s : jsstr) :
  (0 <= n)%Z -> (n < 2 ^ Z.of_nat f1)%Z -> (n < 2 ^ Z.of_nat f2)%Z ->
  columnLetter_loop f1 n s = columnLetter_loop f2 n s /\
  colLetter_loop f1 n s = colLetter_loop f2 n s.
Proof.
  revert f2 n s; induction f1 as [|f1 IH]; intros f2 n s H0 H1 H2.
  - assert (n = 0%Z) by (simpl in H1; lia). subst. destruct f2; split; reflexivity.
  - destruct f2 as [|f2].
    + assert (n = 0%Z) by (simpl in H2; lia). subst. split; reflexivity.
    + rewrite Nat2Z.inj_succ, Z.pow_succ_r in H1, H2 by lia.
      simpl. destruct (0 <? n)%Z eqn:Hn; [|split; reflexivity].
      apply Z.ltb_lt in Hn.
      destruct (columnLetter_next_half n ltac:(lia)) as [Ha Hb].
      split; apply IH; lia.
Qed.

(** The fuel of [columnLetter] and [colLetter] runs the loop to its end. *)
Lemma columnLetter_fuel_enough (n : Z) (f : nat) :
  (n < 2 ^ Z.of_nat f)%Z ->
  columnLetter n = columnLetter_loop f n [] /\ colLetter n = colLetter_loop f n [].
Proof.
  intros Hf. destruct (Z.le_gt_cases n 0) as [Hn|Hn].
  - unfold columnLetter, colLetter. destruct f; simpl;
      replace (0 <? n)%Z with false by (symmetry; apply Z.ltb_ge; lia); split; reflexivity.
  - assert (Hl : (n < 2 ^ Z.of_nat (S (Z.to_nat (Z.log2 n))))%Z).
    { rewrite Nat2Z.inj_succ, Z2Nat.id by (apply Z.log2_nonneg). apply Z.log2_spec; lia. }
    apply columnLetter_loop_fuel; lia.
Qed.

Lemma bij26_value_snoc (s : jsstr) (c : N) :
  bij26_value (s ++ [c]) = (bij26_value s * 26 + (Z.of_N c - 64))%Z.
Proof. unfold bij26_value. rewrite fold_left_app. reflexivity. Qed.

Lemma columnLetter_exact_loop_value (fuel : nat) (n : Z) :
  (0 <= n)%Z -> (Z.to_nat n <= fuel)%nat ->
  bij26_value (columnLetter_exact_loop fuel n []) = n /\
  Forall (fun c => is_upper c = true) (columnLetter_exact_loop fuel n []) /\
  ((0 < n)%Z -> columnLetter_exact_loop fuel n [] <> []).
Proof.
  revert n; induction fuel as [|fuel IH]; intros n H0 H1.
  - assert (n = 0%Z) by lia. subst. simpl. split; [reflexivity|split; [constructor|lia]].
  - simpl. destruct (0 <? n)%Z eqn:Hn.
    + apply Z.ltb_lt in Hn.
      rewrite columnLetter_step by lia.
      rewrite Z.rem_mod_nonneg by lia.
      pose proof (Z.div_mod (n - 1) 26 ltac:(lia)) as Hd.
      pose proof (Z.mod_pos_bound (n - 1) 26 ltac:(lia)) as Hb.
      pose proof (Z.div_pos (n - 1) 26 ltac:(lia) ltac:(lia)).
      assert ((n - 1) / 26 <= n - 1)%Z by (apply Z.div_le_upper_bound; lia).
      destruct (IH ((n - 1) / 26)%Z ltac:(lia) ltac:(lia)) as (Hv & Hu & _).
      rewrite columnLetter_exact_loop_app, bij26_value_snoc, Hv.
      split; [|split].
      * rewrite Z2N.id by lia. lia.
      * apply Forall_app; split; [exact Hu|]. constructor; [|constructor].
        unfold is_upper. apply andb_true_intro; split; apply N.leb_le; lia.
      * intros _ E. apply app_eq_nil in E. destruct E as [_ E]. discriminate.
    + apply Z.ltb_ge in Hn. assert (n = 0%Z) by lia. subst.
      split; [reflexivity|split; [constructor|lia]].
Qed.

Lemma bij26_value_upper (t : jsstr) :
  Forall (fun c => is_upper c = true) t ->
  (0 <= bij26_value t)%Z /\ (t <> [] -> 0 < bij26_value t)%Z.
Proof.
  intros Ht. induction t as [|d t IHt] using rev_ind.
  - split; [reflexivity|congruence].
  - apply Forall_app in Ht as [Ht Hd]. inversion Hd as [|? ? Hd' _]; subst.
    unfold is_upper in Hd'. apply andb_prop in Hd' as [Hd1 Hd2].
    apply N.leb_le in Hd1. rewrite bij26_value_snoc.
    destruct (IHt Ht) as [IH1 _]. split; intros; lia.
Qed.

(** The exact loop names every positive integer, and names each non-empty
    upper-case string's value by that string. *)
Lemma columnLetter_exact_bijective :
  (forall n : Z, (1 <= n)%Z ->
     bij26_value (columnLetter_exact n) = n /\
     Forall (fun c => is_upper c = true) (columnLetter_exact n) /\
     columnLetter_exact n <> []) /\
  (forall s : jsstr, s <> [] -> Forall (fun c => is_upper c = true) s ->
     columnLetter_exact (bij26_value s) = s).
Proof.
  split.
  - intros n Hn. rewrite columnLetter_exact_unfold by lia.
    destruct (columnLetter_exact_loop_value (Z.to_nat n) n ltac:(lia) ltac:(lia)) as (H1 & H2 & H3).
    split; [exact H1|split; [exact H2|apply H3; lia]].
  - intros s0 Hs Hu.
    induction s0 as [|c s IH] using rev_ind; [congruence|].
    apply Forall_app in Hu as [Hu Hc]. inversion Hc as [|? ? Hc' _]; subst.
    unfold is_upper in Hc'. apply andb_prop in Hc' as [Hc1 Hc2].
    apply N.leb_le in Hc1. apply N.leb_le in Hc2.
    destruct (bij26_value_upper s Hu) as [Hs0 Hs1].
    rewrite bij26_value_snoc.
    set (n := (bij26_value s * 26 + (Z.of_N c - 64))%Z).
    assert (Hn : (0 < n)%Z) by (subst n; lia).
    rewrite columnLetter_exact_unfold by lia.
    destruct (Z.to_nat n) as [|f] eqn:Hf; [lia|]. simpl.
    replace (0 <? n)%Z with true by (symmetry; apply Z.ltb_lt; lia).
    rewrite columnLetter_step by lia.
    assert (Hq : ((n - 1) / 26 = bij26_value s)%Z)
      by (subst n; symmetry; apply Z.div_unique with (r := (Z.of_N c - 65)%Z); lia).
    assert (Hr : Z.rem (n - 1) 26 = (Z.of_N c - 65)%Z).
    { rewrite Z.rem_mod_nonneg by lia.
      subst n. symmetry. apply Z.mod_unique with (q := bij26_value s); lia. }
    rewrite Hq, Hr, columnLetter_exact_loop_app.
    replace (Z.to_N (65 + (Z.of_N c - 65))) with c by lia.
    f_equal.
    destruct s as [|c0 s'].
    + destruct f; reflexivity.
    + rewrite <- (IH ltac:(discriminate) Hu) at 2.
      rewrite columnLetter_exact_unfold by lia.
      assert (Hvf : (bij26_value (c0 :: s') <= Z.of_nat f)%Z) by lia.
      pose proof (Z.pow_gt_lin_r 2 (Z.of_nat f) ltac:(lia) ltac:(lia)).
      pose proof (Z.pow_gt_lin_r 2 (bij26_value (c0 :: s')) ltac:(lia) ltac:(lia)).
      apply columnLetter_exact_loop_fuel; [lia|lia|rewrite Z2Nat.id; lia].
Qed.

(** Claim C10, as it holds: for [1 <= n <= 2^53], [columnLetter n] is
    the bijective base-26 column name of [n] (upper-case letters read with
    [A] = 1 ... [Z] = 26), every non-empty upper-case name of value at most
    [2^53] is the image of its value, [colLetter] agrees with [columnLetter]
    up to [2^53], the listed values hold, and the header range of part_001
    ends in column L. *)
Theorem columnLetter_bijective_base26 :
  (forall n : Z, (1 <= n <= 2 ^ 53)%Z ->
     bij26_value (columnLetter n) = n /\
     Forall (fun c => is_upper c = true) (columnLetter n) /\
     columnLetter n <> []) /\
  (forall s : jsstr, s <> [] -> Forall (fun c => is_upper c = true) s ->
     (bij26_value s <= 2 ^ 53)%Z -> columnLetter (bij26_value s) = s) /\
  (forall n : Z, (n <= 2 ^ 53)%Z -> colLetter n = columnLetter n) /\
  columnLetter 1 = js "A" /\ columnLetter 26 = js "Z" /\ columnLetter 27 = js "AA" /\
  columnLetter 52 = js "AZ" /\ columnLetter 703 = js "AAA" /\
  columnLetter (Z.of_nat (length SHEET_HEADERS)) = js "L".
Proof.
  split; [|split; [|split; [|repeat split; reflexivity]]].
  - intros n Hn. rewrite (proj1 (columnLetter_exact_double n ltac:(lia))).
    apply (proj1 columnLetter_exact_bijective). lia.
  - intros s Hs Hu Hv. rewrite (proj1 (columnLetter_exact_double _ Hv)).
    apply (proj2 columnLetter_exact_bijective); assumption.
  - intros n Hn. destruct (columnLetter_exact_double n Hn) as [-> ->]. reflexivity.
Qed.

(** Claim C10, as stated for every [n >= 1], fails: above [2^53] the JS
    doubles round [n - 1] and the quotient.  At [2^54] [columnLetter] ends
    in M, while the bijective name (the exact loop) ends in L; at [2^55]
    [columnLetter] and [colLetter] give different names. *)
Lemma columnLetter_double_rounding :
  columnLetter (2 ^ 54) = js "DWOVQMDNPVVM" /\
  bij26_value (columnLetter (2 ^ 54)) <> (2 ^ 54)%Z /\
  columnLetter_exact (2 ^ 54) = js "DWOVQMDNPVVL" /\
  bij26_value (columnLetter_exact (2 ^ 54)) = (2 ^ 54)%Z /\
  columnLetter (2 ^ 55) = js "IUESHZICGSRY" /\
  colLetter (2 ^ 55) = js "IUESHZICGSSY".
Proof. vm_compute. repeat split; discriminate. Qed.


(* --------------------------------------------------------------------- *)
(** ** Row arrays and the header *)

Lemma rowValues_lookup (headers : list string) (r : row_obj) (i : nat) (h : string) :
  headers !! i = Some h ->
  rowValues headers r !! i = Some (nullish_or (r !! h) (JStr [])).
Proof. intros Hh. unfold rowValues. rewrite list_lookup_fmap, Hh. reflexivity. Qed.

Lemma appendRowsToSheet_loop_rows (title : jsstr) (rows : list row_obj) :
  forall fuel i api old api',
    sa_tabs api !! title = Some old ->
    length rows <= i + fuel * SHEETS_APPEND_CHUNK ->
    appendRowsToSheet_loop fuel i api title rows = Ok api' ->
    sa_tabs api' !! title = Some (old ++ map (rowValues SHEET_HEADERS) (drop i rows)).
Proof.
  induction fuel as [|fuel IH]; intros i api old api' Hold Hlen Hrun; simpl in Hrun.
  - injection Hrun as <-. rewrite drop_ge by lia. rewrite app_nil_r. exact Hold.
  - destruct (Nat.ltb_spec i (length rows)) as [Hi|Hi].
    + unfold values_append in Hrun.
      destruct (sa_down api); [discriminate|]. rewrite Hold in Hrun. simpl in Hrun.
      eapply IH in Hrun; [| simpl; apply lookup_insert_eq | unfold SHEETS_APPEND_CHUNK in *; lia].
      rewrite Hrun, <- app_assoc, <- map_app. do 2 f_equal.
      rewrite <- (take_drop SHEETS_APPEND_CHUNK (drop i rows)) at 2.
      rewrite drop_drop. reflexivity.
    + injection Hrun as <-. rewrite drop_ge by lia. rewrite app_nil_r. exact Hold.
Qed.

(** Claim C2 (as amended): [appendRowsToSheet] of part_001 writes each
    row object as [SHEET_HEADERS.map((h) => r[h] ?? "")]: position [i] of
    the array holds the field named by the [i]-th header (a missing or
    nullish field as [""]) for whatever header list is used, and the
    chunks together add exactly these arrays, in order, to the tab.  The
    [/run-city] handler of src/index.js writes a hard-coded literal
    instead, which matches its own 13-column [HEADERS] position by
    position. *)
Theorem row_arrays_follow_header :
  (forall (headers : list string) (r : row_obj) (i : nat) (h : string),
     headers !! i = Some h ->
     rowValues headers r !! i = Some (nullish_or (r !! h) (JStr []))) /\
  (forall (api api' : sheets_api) (cityTitle : jsstr) (rows : list row_obj) old,
     sa_tabs api !! cityTitle = Some old ->
     appendRowsToSheet api cityTitle rows = Ok api' ->
     sa_tabs api' !! cityTitle = Some (old ++ map (rowValues SHEET_HEADERS) rows)) /\
  (forall (x : rc_row) (i : nat) (h : string),
     HEADERS_index !! i = Some h -> runCityRowArray x !! i = Some (rc_field x h)) /\
  (forall x : rc_row, length (runCityRowArray x) = length HEADERS_index).
Proof.
  split; [exact rowValues_lookup|split; [|split]].
  - intros api api' cityTitle rows old Hold Hrun.
    pose proof (appendRowsToSheet_loop_rows cityTitle rows (length rows) 0 api old api'
                  Hold ltac:(unfold SHEETS_APPEND_CHUNK; lia) Hrun) as H.
    rewrite drop_0 in H. exact H.
  - intros x i h Hh.
    do 13 (destruct i as [|i]; [injection Hh as <-; reflexivity|]).
    discriminate.
  - intros x. reflexivity.
Qed.

(** Claim C2, as stated, fails for src/index.js: its row is a literal, so
    under a permutation of the header list (here [country] and [city]
    swapped) the array no longer follows the header. *)
Lemma runCity_row_literal_not_header_derived :
  exists (x : rc_row) (hs : list string),
    hs ≡ₚ HEADERS_index /\ runCityRowArray x <> map (rc_field x) hs.
Proof.
  exists {| rc_timestamp := js "2025-01-01T00:00:00.000Z"; rc_country := js "Bolivia";
            rc_city := js "Santa Cruz"; rc_query := js "spas Santa Cruz Bolivia";
            rc_category := js "spas"; rc_name := js "Spa"; rc_phone := [];
            rc_website := []; rc_lat := JNum 0; rc_lng := JNum 0; rc_address := [];
            rc_place_id := js "pid1"; rc_source := source_glow |}.
  exists ["timestamp"; "city"; "country"; "query"; "category"; "name"; "phone";
          "website"; "lat"; "lng"; "address"; "place_id"; "source"]%string.
  split.
  - unfold HEADERS_index. apply perm_skip, perm_swap.
  - vm_compute. congruence.
Qed.

(* --------------------------------------------------------------------- *)
(** ** Deduplication in [/search-and-append] (part_001) *)

Lemma pid_keys_cons (p : sa_detail) (acc : list sa_detail) :
  pid_keys (p :: acc) = if decide (pidt p = []) then pid_keys acc else pidt p :: pid_keys acc.
Proof.
  unfold pid_keys. simpl. rewrite filter_cons.
  destruct (decide (pidt p = [])), (decide (pidt p <> [])); first [tauto | reflexivity].
Qed.

Lemma pid_keys_app (a b : list sa_detail) : pid_keys (a ++ b) = pid_keys a ++ pid_keys b.
Proof. unfold pid_keys. rewrite map_app, filter_app. reflexivity. Qed.

Lemma dedupBatch_spec (ps : list (option sa_detail)) :
  forall (E S : gset jsstr),
    let '(acc, E', S') := dedupBatch E S ps in
    (forall k, k ∈ E' <-> k ∈ E \/ k ∈ pid_keys acc) /\
    (forall k, k ∈ S' <-> k ∈ S \/ k ∈ map fallKey acc) /\
    (forall p, p ∈ acc -> (fallKey p ∉ S) /\ (pidt p <> [] -> pidt p ∉ E)) /\
    NoDup (map fallKey acc) /\
    NoDup (pid_keys acc) /\
    (forall k, k ∈ pid_keys acc -> k ∉ E).
Proof.
  induction ps as [|[p|] ps IH]; intros E S; simpl.
  - split; [|split; [|split; [|split; [|split]]]].
    + intros k. unfold pid_keys. simpl. set_solver.
    + intros k. simpl. set_solver.
    + intros p Hp. inversion Hp.
    + constructor.
    + constructor.
    + intros k Hk. inversion Hk.
  - fold (pidt p).
    destruct (decide (pidt p <> [] /\ pidt p ∈ E)) as [Hskip|Hin]; [apply IH|].
    destruct (decide (fallKey p ∈ S)) as [Hseen|Hnew]; [apply IH|].
    set (E1 := if decide (pidt p = []) then E else {[pidt p]} ∪ E).
    specialize (IH E1 ({[fallKey p]} ∪ S)).
    destruct (dedupBatch E1 ({[fallKey p]} ∪ S) ps) as [[acc E'] S'].
    destruct IH as (HE & HS & Hacc & Hnd1 & Hnd2 & Hfresh).
    assert (HE1 : forall k, k ∈ E1 <-> k ∈ E \/ (pidt p <> [] /\ k = pidt p)).
    { intros k. subst E1. destruct (decide (pidt p = [])) as [Hp|Hp].
      - split; [tauto|]. intros [H|[H _]]; [exact H|contradiction].
      - rewrite elem_of_union, elem_of_singleton. split; intros [H|H]; tauto. }
    split; [|split; [|split; [|split; [|split]]]].
    + intros k. rewrite HE, HE1, pid_keys_cons.
      destruct (decide (pidt p = [])) as [Hp|Hp].
      * split; [intros [[H|[H _]]|H]; tauto|tauto].
      * rewrite elem_of_cons. split; [intros [[H|[_ H]]|H]; tauto|intros [H|[H|H]]; tauto].
    + intros k. rewrite HS. simpl. rewrite elem_of_cons. set_solver.
    + intros q Hq. rewrite elem_of_cons in Hq. destruct Hq as [->|Hq].
      * split; [exact Hnew|]. intros Hne Hq. apply Hin. tauto.
      * destruct (Hacc q Hq) as [H1 H2]. split; [set_solver|].
        intros Hne HqE. apply (H2 Hne). apply HE1. tauto.
    + simpl. constructor; [|exact Hnd1].
      intros Hm. apply list_elem_of_fmap in Hm as [q [Hq Hqm]].
      destruct (Hacc q Hqm) as [H1 _]. rewrite <- Hq in H1. set_solver.
    + rewrite pid_keys_cons. destruct (decide (pidt p = [])) as [Hp|Hp]; [exact Hnd2|].
      constructor; [|exact Hnd2].
      intros Hm. apply (Hfresh _ Hm). apply HE1. tauto.
    + intros k Hk. rewrite pid_keys_cons in Hk.
      destruct (decide (pidt p = [])) as [Hp|Hp].
      * intros HkE. apply (Hfresh k Hk). apply HE1. tauto.
      * rewrite elem_of_cons in Hk. destruct Hk as [->|Hk].
        -- intros HkE. apply Hin. tauto.
        -- intros HkE. apply (Hfresh k Hk). apply HE1. tauto.
  - apply IH.
Qed.

Lemma dedupCategories_spec (batches : list (list (option sa_detail))) :
  forall E : gset jsstr,
    let '(accs, E') := dedupCategories E batches in
    (forall k, k ∈ E' <-> k ∈ E \/ k ∈ pid_keys (concat accs)) /\
    NoDup (pid_keys (concat accs)) /\
    (forall k, k ∈ pid_keys (concat accs) -> k ∉ E) /\
    Forall (fun acc => NoDup (map fallKey acc)) accs /\
    length accs = length batches.
Proof.
  induction batches as [|ps bs IH]; intros E; simpl.
  - split; [|split; [|split; [|split]]].
    + intros k. unfold pid_keys. simpl. set_solver.
    + constructor.
    + intros k Hk. inversion Hk.
    + constructor.
    + reflexivity.
  - pose proof (dedupBatch_spec ps E ∅) as Hb.
    destruct (dedupBatch E ∅ ps) as [[acc E1] S1].
    destruct Hb as (HE1 & _ & _ & Hnd1 & Hnd2 & Hfresh1).
    specialize (IH E1). destruct (dedupCategories E1 bs) as [rest E'].
    destruct IH as (HE' & Hnd' & Hfresh' & Hfk & Hlen).
    cbn [concat].
    split; [|split; [|split; [|split]]].
    + intros k. rewrite HE', HE1, pid_keys_app, elem_of_app. tauto.
    + rewrite pid_keys_app. apply NoDup_app. split; [exact Hnd2|split; [|exact Hnd']].
      intros k Hk Hk'. apply (Hfresh' k Hk'). apply HE1. tauto.
    + intros k Hk. rewrite pid_keys_app, elem_of_app in Hk. destruct Hk as [Hk|Hk].
      * exact (Hfresh1 k Hk).
      * intros HkE. apply (Hfresh' k Hk). apply HE1. tauto.
    + constructor; [exact Hnd1|exact Hfk].
    + simpl. rewrite Hlen. reflexivity.
Qed.

(* --------------------------------------------------------------------- *)
(** ** Deduplication in [/run-city] (src/index.js) *)

Lemma runCity_results_spec fd nowISO country city query category (results : list raw_place) :
  forall (E E' : gset jsstr) rows,
    runCity_results fd nowISO country city query category E results = Ok (rows, E') ->
    (forall k, k ∈ E' <-> k ∈ E \/ JStr k ∈ pid_column rows) /\
    NoDup (pid_column rows) /\
    Forall (fun v => exists k, v = JStr k /\ k <> [] /\ k ∉ E) (pid_column rows).
Proof.
  induction results as [|r rs IH]; intros E E' rows Hrun; simpl in Hrun.
  - injection Hrun as <- <-. split; [|split; constructor].
    intros k. unfold pid_column. simpl. set_solver.
  - destruct (rp_place_id r) as [[|c t]|]; [apply (IH _ _ _ Hrun)| |apply (IH _ _ _ Hrun)].
    destruct (decide ((c :: t) ∈ E)) as [Hin|Hin]; [apply (IH _ _ _ Hrun)|].
    unfold res_bind in Hrun.
    destruct (getPlaceDetails fd (c :: t)) as [det|e]; [|discriminate].
    destruct (runCity_results fd nowISO country city query category ({[c :: t]} ∪ E) rs)
      as [[rows' E1]|e] eqn:Hrest; [|discriminate].
    injection Hrun as <- <-. simpl.
    destruct (IH _ _ _ Hrest) as (HE & Hnd & Hfr).
    unfold pid_column in *. simpl. cbn [cell runCityRowArray lookup list_lookup default].
    split; [|split].
    + intros k. rewrite HE, elem_of_cons, elem_of_union, elem_of_singleton.
      assert (Hinj : JStr k = JStr (c :: t) <-> k = c :: t)
        by (split; [intros Hk; injection Hk; auto|intros ->; reflexivity]).
      rewrite Hinj. tauto.
    + constructor; [|exact Hnd].
      intros Hm. rewrite Forall_forall in Hfr. destruct (Hfr _ Hm) as (k & Hk & _ & HkE).
      injection Hk as <-. set_solver.
    + constructor.
      * exists (c :: t). split; [reflexivity|split; [discriminate|exact Hin]].
      * eapply Forall_impl; [exact Hfr|]. intros v (k & Hk & Hne & HkE).
        exists k. split; [exact Hk|split; [exact Hne|set_solver]].
Qed.

Lemma runCity_categories_spec fd search nowISO country city (cats : list jsstr) :
  forall (E E' : gset jsstr) rows,
    runCity_categories fd search nowISO country city E cats = Ok (rows, E') ->
    (forall k, k ∈ E' <-> k ∈ E \/ JStr k ∈ pid_column rows) /\
    NoDup (pid_column rows) /\
    Forall (fun v => exists k, v = JStr k /\ k <> [] /\ k ∉ E) (pid_column rows).
Proof.
  induction cats as [|cat cs IH]; intros E E' rows Hrun; simpl in Hrun.
  - injection Hrun as <- <-. split; [|split; constructor].
    intros k. unfold pid_column. simpl. set_solver.
  - unfold res_bind in Hrun.
    match type of Hrun with
    | context [runCity_results ?a ?b ?c ?d ?q ?f ?g ?h] =>
        destruct (runCity_results a b c d q f g h) as [[rows1 E1]|e] eqn:H1; [|discriminate]
    end.
    simpl in Hrun.
    destruct (runCity_categories fd search nowISO country city E1 cs)
      as [[rows2 E2]|e] eqn:H2; [|discriminate].
    injection Hrun as <- <-. simpl.
    destruct (runCity_results_spec _ _ _ _ _ _ _ _ _ _ H1) as (HE1 & Hnd1 & Hfr1).
    destruct (IH _ _ _ H2) as (HE2 & Hnd2 & Hfr2).
    unfold pid_column in *. rewrite map_app.
    split; [|split].
    + intros k. rewrite HE2, HE1, elem_of_app. tauto.
    + apply NoDup_app. split; [exact Hnd1|split; [|exact Hnd2]].
      intros v Hv1 Hv2. rewrite Forall_forall in Hfr2.
      destruct (Hfr2 _ Hv2) as (k & -> & _ & HkE1). apply HkE1, HE1. tauto.
    + apply Forall_app. split; [exact Hfr1|].
      eapply Forall_impl; [exact Hfr2|]. intros v (k & Hk & Hne & HkE1).
      exists k. split; [exact Hk|split; [exact Hne|]]. intros HkE. apply HkE1, HE1. tauto.
Qed.

(** Claim C1 (as amended).  [/run-city] of src/index.js: the rows of a
    run that completes carry pairwise distinct, non-empty [place_id]s,
    none of which was among the identifiers pre-loaded from the tab.
    [/search-and-append] of part_001: the accepted records with a
    non-empty (trimmed) [place_id] carry pairwise distinct ones, none of
    them pre-loaded, across all categories of the run.  The mapper gives a
    result without [place_id] the id ["N/A"], which is deduplicated like
    any other id; only a record whose [place_id] is empty or blank after
    trimming is keyed by name and address, and that key only separates the
    records of one category. *)
Theorem dedupe_unique_within_run :
  (forall (E : gset jsstr) (batches : list (list (option sa_detail))),
     let accs := fst (dedupCategories E batches) in
     NoDup (pid_keys (concat accs)) /\
     (forall k, k ∈ pid_keys (concat accs) -> k ∉ E) /\
     Forall (fun acc => NoDup (map fallKey acc)) accs) /\
  (forall fd search (nowISO country city : jsstr) (E E' : gset jsstr) (cats : list jsstr) rows,
     runCity_categories fd search nowISO country city E cats = Ok (rows, E') ->
     NoDup (pid_column rows) /\
     Forall (fun v => exists k, v = JStr k /\ k <> [] /\ k ∉ E) (pid_column rows)).
Proof.
  split.
  - intros E batches. pose proof (dedupCategories_spec batches E) as H.
    destruct (dedupCategories E batches) as [accs E']. simpl.
    destruct H as (_ & H1 & H2 & H3 & _). tauto.
  - intros fd search nowISO country city E E' cats rows Hrun.
    destruct (runCity_categories_spec _ _ _ _ _ _ _ _ _ Hrun) as (_ & H1 & H2). tauto.
Qed.

(** Claim C1, as stated, fails in [/search-and-append]: a search result
    whose [place_id] is the empty string keeps it through the mapper (the
    details call fails here), so the record is keyed by name and address;
    found under two categories it is accepted twice with the same key,
    since [seenBatch] is reset for each category and only non-empty ids
    reach [existingPlaceIds].  A result with no [place_id] at all becomes
    ["N/A"] and its second occurrence is skipped. *)
Lemma dedupe_fallback_key_repeats_across_categories :
  let d := saMapper timeout_fetch place_blank_id in
  let u := saMapper timeout_fetch place_no_id in
  sd_place_id d = [] /\
  fallKey d = js "fallback:barberia central|calle 1, bogota" /\
  (dedupCategories ∅ [[Some d]; [Some d]] = ([[d]; [d]], ∅)) /\
  sd_place_id u = NA /\
  (dedupCategories ∅ [[Some u]; [Some u]] = ([[u]; []], {[NA]})).
Proof. vm_compute. repeat split. Qed.

(* --------------------------------------------------------------------- *)
(** ** The worker pool of [mapWithConcurrency] *)

Lemma js_array_set_same {X} (l : list (option X)) (i : nat) (v : X) :
  js_array_set l i v !! i = Some (Some v).
Proof.
  unfold js_array_set. destruct (Nat.ltb_spec i (length l)).
  - by apply list_lookup_insert_eq.
  - rewrite lookup_app_r by lia. rewrite lookup_app_r; rewrite length_replicate; [|lia].
    by replace (i - length l - (i - length l)) with 0 by lia.
Qed.

Lemma js_array_set_other {X} (l : list (option X)) (i j : nat) (v w : X) :
  j <> i -> js_array_set l i v !! j = Some (Some w) <-> l !! j = Some (Some w).
Proof.
  intros Hji. unfold js_array_set. destruct (Nat.ltb_spec i (length l)).
  - rewrite list_lookup_insert_ne by congruence. reflexivity.
  - destruct (decide (j < length l)).
    + rewrite lookup_app_l by lia. reflexivity.
    + rewrite lookup_app_r by lia. rewrite (lookup_ge_None_2 l j) by lia.
      rewrite lookup_app. split; [|discriminate].
      destruct (replicate (i - length l) None !! (j - length l)) eqn:Hr.
      * apply lookup_replicate in Hr as [-> _]. discriminate.
      * apply lookup_ge_None in Hr. rewrite length_replicate in Hr |- *.
        destruct (j - length l - (i - length l)) eqn:?; [lia|]. simpl. auto.
Qed.

Lemma js_array_set_length {X} (l : list (option X)) (i : nat) (v : X) :
  length (js_array_set l i v) = Nat.max (length l) (S i).
Proof.
  unfold js_array_set. destruct (Nat.ltb_spec i (length l)).
  - rewrite length_insert. lia.
  - rewrite !length_app, length_replicate. simpl. lia.
Qed.

Lemma not_all_done (ws : list wstate) :
  ~ Forall (fun w => w = WDone) ws ->
  exists ws1 w ws2, ws = ws1 ++ w :: ws2 /\ w <> WDone.
Proof.
  induction ws as [|w ws IH]; intros Hn.
  - exfalso. apply Hn. constructor.
  - destruct (decide (w = WDone)) as [->|Hw].
    + destruct IH as (ws1 & w' & ws2 & -> & Hw').
      { intros Hall. apply Hn. by constructor. }
      exists (WDone :: ws1), w', ws2. split; [reflexivity|exact Hw'].
    + exists [], w, ws. split; [reflexivity|exact Hw].
Qed.

Section PoolProofs.
Context {A R : Type}.
Variable items : list A.
Variable mapper : A -> nat -> res R.

Local Abbreviation step := (pool_step items mapper).
Local Abbreviation inv := (pool_inv items mapper).

Lemma pool_inv_init (limit : nat) : inv (pool_init items limit).
Proof.
  unfold pool_inv, pool_init; simpl.
  split; [lia|split; [lia|split; [|split; [|split]]]].
  - intros i v Hi. discriminate Hi.
  - intros i Hi. lia.
  - intros i Hi. apply elem_of_replicate in Hi as [Hi _]. discriminate.
  - intros Hi. apply elem_of_replicate in Hi as [Hi _]. discriminate.
Qed.

Lemma pool_inv_step (p q : pool R) : step p q -> inv p -> inv q.
Proof.
  unfold pool_inv.
  intros Hs (Hidx & Hlen & Hval & Hcov & Hpend & Hdone).
  inversion Hs as [idx rs ws1 ws2 Hlt|idx rs ws1 ws2 Hge|idx rs ws1 ws2 i]; subst; simpl in *.
  - split; [lia|split; [lia|split; [exact Hval|split; [|split]]]].
    + intros j Hj. destruct (decide (j = idx)) as [->|Hne].
      * right. set_solver.
      * destruct (Hcov j ltac:(lia)) as [Hw|Hw]; [by left|right].
        rewrite elem_of_app, elem_of_cons in Hw |- *.
        destruct Hw as [Hw|[Hw|Hw]]; [tauto|discriminate|tauto].
    + intros j Hj. rewrite elem_of_app, elem_of_cons in Hj.
      destruct Hj as [Hj|[Hj|Hj]].
      * specialize (Hpend j). set_solver.
      * injection Hj as ->. lia.
      * specialize (Hpend j). set_solver.
    + intros Hj. rewrite elem_of_app, elem_of_cons in Hj.
      destruct Hj as [Hj|[Hj|Hj]]; [|discriminate|]; (enough (length items <= idx) by lia);
        apply Hdone; set_solver.
  - split; [lia|split; [lia|split; [exact Hval|split; [|split]]]].
    + intros j Hj. destruct (Hcov j Hj) as [Hw|Hw]; [by left|right].
      rewrite elem_of_app, elem_of_cons in Hw |- *.
      destruct Hw as [Hw|[Hw|Hw]]; [tauto|discriminate|tauto].
    + intros j Hj. apply Hpend.
      rewrite elem_of_app, elem_of_cons in Hj |- *.
      destruct Hj as [Hj|[Hj|Hj]]; [tauto|discriminate|tauto].
    + intros _. exact Hge.
  - assert (Hi : i < idx) by (apply Hpend; set_solver).
    split; [lia|split; [|split; [|split; [|split]]]].
    + rewrite js_array_set_length. lia.
    + intros j v Hj. destruct (decide (j = i)) as [->|Hne].
      * rewrite js_array_set_same in Hj. congruence.
      * apply js_array_set_other in Hj; [|exact Hne]. by apply Hval.
    + intros j Hj. destruct (decide (j = i)) as [->|Hne].
      * left. apply js_array_set_same.
      * rewrite js_array_set_other by exact Hne.
        destruct (Hcov j Hj) as [Hw|Hw]; [by left|right].
        rewrite elem_of_app, elem_of_cons in Hw |- *.
        destruct Hw as [Hw|[Hw|Hw]]; [tauto| |tauto]. injection Hw as ->. congruence.
    + intros j Hj. apply Hpend.
      rewrite elem_of_app, elem_of_cons in Hj |- *.
      destruct Hj as [Hj|[Hj|Hj]]; [tauto|discriminate|tauto].
    + intros Hj. apply Hdone.
      rewrite elem_of_app, elem_of_cons in Hj |- *.
      destruct Hj as [Hj|[Hj|Hj]]; [tauto|discriminate|tauto].
Qed.

Lemma pool_inv_reach (limit : nat) (p : pool R) :
  rtc step (pool_init items limit) p -> inv p.
Proof.
  intros Hr. remember (pool_init items limit) as p0 eqn:Hp0.
  assert (H0 : inv p0) by (subst; apply pool_inv_init).
  clear Hp0. induction Hr as [x|x y z Hxy _ IH]; [exact H0|].
  apply IH. eapply pool_inv_step; eauto.
Qed.

Lemma pool_step_workers (p q : pool R) :
  step p q -> length (p_workers q) = length (p_workers p).
Proof.
  intros Hs. inversion Hs; subst; simpl; rewrite !length_app; reflexivity.
Qed.

Lemma pool_reach_workers (p q : pool R) :
  rtc step p q -> length (p_workers q) = length (p_workers p).
Proof.
  induction 1 as [|x y z Hxy _ IH]; [reflexivity|].
  rewrite IH. by apply pool_step_workers.
Qed.

(** Once every worker has returned, [results] holds, at each index, the
    settled outcome of the mapper on that item. *)
Lemma pool_final_results (p : pool R) :
  inv p -> pool_final p ->
  (p_workers p <> [] \/ length items = 0) ->
  p_results p = imap (fun i x => Some (settle_of (mapper x i))) items.
Proof.
  unfold pool_inv, pool_final.
  intros (Hidx & Hlen & Hval & Hcov & Hpend & Hdone) Hfin Hne.
  assert (Hend : p_idx p = length items).
  { destruct Hne as [Hne|Hz]; [|lia].
    destruct (p_workers p) as [|w ws] eqn:Hw; [congruence|].
    inversion Hfin as [|? ? Hw0 _]; subst.
    enough (length items <= p_idx p) by lia. apply Hdone. set_solver. }
  apply list_eq. intros i. rewrite list_lookup_imap.
  destruct (items !! i) as [x|] eqn:Hx; simpl.
  - assert (Hi : i < p_idx p) by (apply lookup_lt_Some in Hx; lia).
    destruct (Hcov i Hi) as [Hw|Hw].
    + rewrite Hw. unfold settle. by rewrite Hx.
    + rewrite Forall_forall in Hfin. specialize (Hfin _ Hw). discriminate.
  - apply lookup_ge_None in Hx. apply lookup_ge_None. lia.
Qed.

Lemma pool_step_measure (p q : pool R) :
  step p q -> pool_measure items q < pool_measure items p.
Proof.
  intros Hs. unfold pool_measure.
  inversion Hs; subst; simpl; rewrite !map_app, !list_sum_app; simpl; lia.
Qed.

Lemma pool_progress (p : pool R) : ~ pool_final p -> exists q, step p q.
Proof.
  unfold pool_final. destruct p as [idx rs ws]; simpl. intros Hn.
  destruct (not_all_done ws Hn) as (ws1 & w & ws2 & -> & Hw).
  destruct w as [|i|]; [|eexists; constructor|congruence].
  destruct (decide (idx < length items)).
  - eexists. by apply ps_claim.
  - eexists. apply ps_exit. lia.
Qed.

Lemma pool_terminates (p : pool R) : exists q, rtc step p q /\ pool_final q.
Proof.
  induction p as [p IH] using (induction_ltof1 _ (pool_measure items)).
  destruct (decide (pool_final p)) as [Hf|Hf].
  - exists p. split; [reflexivity|exact Hf].
  - destruct (pool_progress p Hf) as [q Hq].
    destruct (IH q) as (r & Hr & Hfr).
    { unfold ltof. by apply pool_step_measure. }
    exists r. split; [|exact Hfr]. eapply rtc_l; eauto.
Qed.
End PoolProofs.

Lemma pool_init_workers {A R} (items : list A) (limit : nat) :
  length (p_workers (pool_init (R:=R) items limit)) = Nat.min limit (length items).
Proof. unfold pool_init. simpl. apply length_replicate. Qed.

Lemma pool_reach_final_results {A R} (items : list A) (mapper : A -> nat -> res R)
    (K : nat) (p : pool R) :
  1 <= K ->
  rtc (pool_step items mapper) (pool_init items K) p -> pool_final p ->
  p_results p = imap (fun i x => Some (settle_of (mapper x i))) items.
Proof.
  intros HK Hr Hf. apply pool_final_results; [eapply pool_inv_reach; exact Hr|exact Hf|].
  destruct (decide (length items = 0)) as [Hz|Hz]; [by right|left].
  apply pool_reach_workers in Hr. rewrite pool_init_workers in Hr.
  intros Hw. rewrite Hw in Hr. simpl in Hr. lia.
Qed.

(** Claim C3: for a limit [K] with [1 <= K <= M] ([M] the number of
    items), [mapWithConcurrency] starts [min(K, M)] workers; whatever the
    interleaving of the workers and the order in which the mapper calls
    complete, the pool reaches the point where every worker has returned,
    and in every such state [results] has length [M] and holds at index
    [i] the settled outcome of the mapper on [items[i]] (its value, or
    [null] if it threw). *)
Theorem mapWithConcurrency_order {A R} (items : list A) (mapper : A -> nat -> res R) (K : nat) :
  1 <= K <= length items ->
  length (p_workers (pool_init (R:=R) items K)) = Nat.min K (length items) /\
  (exists p, rtc (pool_step items mapper) (pool_init items K) p /\ pool_final p) /\
  (forall p, rtc (pool_step items mapper) (pool_init items K) p -> pool_final p ->
     length (p_results p) = length items /\
     p_results p = imap (fun i x => Some (settle_of (mapper x i))) items).
Proof.
  intros HK. split; [apply pool_init_workers|split].
  - apply pool_terminates.
  - intros p Hr Hf. rewrite (pool_reach_final_results items mapper K p) by (lia || assumption).
    split; [|reflexivity]. by rewrite length_imap.
Qed.

(** Claim C4 (as the code has it): for any limit [K >= 1], every step of
    any worker lowers [pool_measure], so no interleaving runs forever, and
    a state in which some worker has not returned can always step: the
    pool always completes.  In every completed state [results] has one
    entry per item; at an index [j] whose mapper call threw it holds the
    fixed value [null] written by the [catch] (there is no caller-supplied
    default), and at any other index the mapper's own value. *)
Theorem mapWithConcurrency_failure_isolated {A R} (items : list A) (mapper : A -> nat -> res R)
    (K : nat) :
  1 <= K ->
  (forall p q, pool_step items mapper p q -> pool_measure items q < pool_measure items p) /\
  (forall p, ~ pool_final p -> exists q, pool_step items mapper p q) /\
  (forall p, rtc (pool_step items mapper) (pool_init items K) p -> pool_final p ->
     length (p_results p) = length items /\
     forall j x, items !! j = Some x ->
       (forall e, mapper x j = Throw e -> p_results p !! j = Some (Some CaughtNull)) /\
       (forall v, mapper x j = Ok v -> p_results p !! j = Some (Some (Fulfilled v)))).
Proof.
  intros HK. split; [apply pool_step_measure|split; [apply pool_progress|]].
  intros p Hr Hf. rewrite (pool_reach_final_results items mapper K p HK Hr Hf).
  split; [by rewrite length_imap|].
  intros j x Hx. rewrite list_lookup_imap, Hx. simpl.
  split; [intros e He|intros v Hv]; [rewrite He|rewrite Hv]; reflexivity.
Qed.

(** Claim C4, as stated, fails: with a mapper that always throws, on one
    item, the completed pool holds [null] at index 0, never a value of the
    result type, so no caller-chosen default can appear there. *)
Lemma mapWithConcurrency_no_caller_default :
  (exists p, rtc (pool_step [tt] (fun _ _ => Throw (js "boom") : res nat)) (pool_init [tt] 1) p
             /\ pool_final p) /\
  (forall p, rtc (pool_step [tt] (fun _ _ => Throw (js "boom") : res nat)) (pool_init [tt] 1) p ->
     pool_final p ->
     p_results p = [Some CaughtNull] /\
     forall dflt : nat, p_results p !! 0 <> Some (Some (Fulfilled dflt))).
Proof.
  split; [apply pool_terminates|].
  intros p Hr Hf. rewrite (pool_reach_final_results [tt] _ 1 p ltac:(lia) Hr Hf).
  split; [reflexivity|]. intros dflt. simpl. discriminate.
Qed.

(* --------------------------------------------------------------------- *)
(** ** Pagination *)

Lemma fetch_count_app (a b : list ts_event) :
  fetch_count (a ++ b) = fetch_count a + fetch_count b.
Proof. unfold fetch_count. by rewrite filter_app, length_app. Qed.

Lemma fetch_count_strip_logs (tr : list ts_event) :
  fetch_count (strip_logs tr) = fetch_count tr.
Proof.
  unfold fetch_count, strip_logs.
  induction tr as [|e tr IH]; [reflexivity|].
  destruct e; simpl; rewrite ?filter_cons; simpl; rewrite ?filter_cons; simpl; try rewrite IH; auto.
Qed.

Lemma strip_logs_app (a b : list ts_event) :
  strip_logs (a ++ b) = strip_logs a ++ strip_logs b.
Proof. apply filter_app. Qed.


Lemma textSearch_loop_pages delay policy provider (mid : list ts_response) (lastp : ts_response) :
  Forall (fun p => token_of p <> []) mid ->
  token_of lastp = [] ->
  (policy = LogAndContinue \/ Forall status_ok (mid ++ [lastp])) ->
  forall fuel k url all trace,
  (forall i p u, (mid ++ [lastp]) !! i = Some p -> provider (k + i) u = Ok p) ->
  length mid < fuel ->
  exists tr',
    textSearch_loop delay policy provider fuel k url all trace
      = Returned (Ok (all ++ concat (map tr_results (mid ++ [lastp])))) (trace ++ tr') /\
    strip_logs tr' = EFetch url :: flat_map (fun p => [ESleep delay; EFetch (UPageToken (token_of p))]) mid.
Proof.
  intros Htok Hlast Hpol.
  induction mid as [|p mid IH]; intros fuel k url all trace Hprov Hfuel;
    (destruct fuel as [|fuel]; [simpl in Hfuel; lia|]); simpl.
  - assert (Hk : provider k url = Ok lastp) by (rewrite <- (Nat.add_0_r k); by apply Hprov).
    rewrite Hk.
    assert (Hst : policy = ThrowOnBad -> status_ok lastp).
    { intros ->. destruct Hpol as [Hp|Hp]; [discriminate|]. by inversion Hp. }
    unfold token_of in Hlast.
    destruct (negb _) eqn:Hbad.
    + destruct policy.
      * exists [EFetch url; ELog (tr_status lastp)]. rewrite <- !app_assoc.
        destruct (tr_next_page_token lastp) as [[|c t]|]; simpl in Hlast; try discriminate;
          (split; [by rewrite app_nil_r|reflexivity]).
      * exfalso. destruct (Hst eq_refl) as [Hs|Hs]; rewrite Hs in Hbad;
          vm_compute in Hbad; discriminate.
    + exists [EFetch url].
      destruct policy; destruct (tr_next_page_token lastp) as [[|c t]|]; simpl in Hlast;
        try discriminate; (split; [by rewrite app_nil_r|reflexivity]).
  - inversion Htok as [|? ? Hp Htok']; subst.
    assert (Hk : provider k url = Ok p) by (rewrite <- (Nat.add_0_r k); by apply Hprov).
    rewrite Hk.
    assert (Hst : policy = ThrowOnBad -> status_ok p).
    { intros ->. destruct Hpol as [Hq|Hq]; [discriminate|]. by inversion Hq. }
    assert (Hpol' : policy = LogAndContinue \/ Forall status_ok (mid ++ [lastp])).
    { destruct Hpol as [Hq|Hq]; [by left|right]. by inversion Hq. }
    unfold token_of in Hp.
    destruct (tr_next_page_token p) as [[|c t]|] eqn:Htp; simpl in Hp; try congruence.
    assert (Hprov' : forall i q u, (mid ++ [lastp]) !! i = Some q -> provider (S k + i) u = Ok q).
    { intros i q u Hi. replace (S k + i) with (k + S i) by lia. by apply Hprov. }
    destruct (negb _) eqn:Hbad.
    + destruct policy.
      * destruct (IH Htok' Hpol' fuel (S k) (UPageToken (c :: t))
                    (all ++ tr_results p)
                    (((trace ++ [EFetch url]) ++ [ELog (tr_status p)]) ++ [ESleep delay]))
          as (tr'' & Hrun & Hstrip); [exact Hprov'|simpl in Hfuel; lia|].
        rewrite Hrun.
        exists ([EFetch url; ELog (tr_status p); ESleep delay] ++ tr'').
        split.
        -- rewrite <- !app_assoc. reflexivity.
        -- rewrite strip_logs_app, Hstrip. unfold token_of. rewrite Htp. reflexivity.
      * exfalso. destruct (Hst eq_refl) as [Hs|Hs]; rewrite Hs in Hbad;
          vm_compute in Hbad; discriminate.
    + destruct (IH Htok' Hpol' fuel (S k) (UPageToken (c :: t))
                  (all ++ tr_results p)
                  ((trace ++ [EFetch url]) ++ [ESleep delay]))
        as (tr'' & Hrun & Hstrip); [exact Hprov'|simpl in Hfuel; lia|].
      exists ([EFetch url; ESleep delay] ++ tr'').
      destruct policy; rewrite Hrun; (split;
        [rewrite <- !app_assoc; reflexivity
        |rewrite strip_logs_app, Hstrip; unfold token_of; rewrite Htp; reflexivity]).
Qed.

Lemma fetch_count_pages (delay : Z) (mid : list ts_response) :
  fetch_count (flat_map (fun p => [ESleep delay; EFetch (UPageToken (token_of p))]) mid) = length mid.
Proof.
  induction mid as [|p mid IH]; [reflexivity|].
  unfold fetch_count in *. simpl. rewrite IH. reflexivity.
Qed.

Lemma fetch_count_fetch (u : ts_url) (tr : list ts_event) :
  fetch_count (EFetch u :: tr) = S (fetch_count tr).
Proof. reflexivity. Qed.

Lemma page_stub_provider (L : list ts_response) :
  forall i p u, L !! i = Some p -> page_stub L (0 + i) u = Ok p.
Proof. intros i p u Hi. unfold page_stub. simpl. by rewrite Hi. Qed.

Lemma textSearch_loop_always_token delay policy :
  forall fuel k url all trace,
  exists tr', textSearch_loop delay policy always_token fuel k url all trace
                = StillRunning (trace ++ tr') /\ fetch_count tr' = fuel.
Proof.
  induction fuel as [|fuel IH]; intros k url all trace.
  - exists []. by rewrite app_nil_r.
  - cbn [textSearch_loop]. unfold always_token at 1. simpl.
    destruct (IH (S k) (UPageToken (js "next")) (all ++ [])
                 ((trace ++ [EFetch url]) ++ [ESleep delay]))
      as (tr'' & Hrun & Hcnt).
    exists ([EFetch url; ESleep delay] ++ tr'').
    destruct policy; simpl; rewrite Hrun; (split;
      [rewrite <- !app_assoc; reflexivity
      |rewrite <- Hcnt; reflexivity]).
Qed.

(** Claim C5 (as the code has it): for a stub serving pages [mid ++
    [lastp]], where every page of [mid] carries a non-empty
    [next_page_token] and [lastp] has none, [textSearchAll] (index.js)
    returns the concatenation of the pages' results in page order after
    exactly one request per page, and between two consecutive requests
    it waits 2200 ms and then asks for the page named by the previous
    token; [textSearchAllPages] (part_001) does the same with 2000 ms when
    every status is [OK] or [ZERO_RESULTS].  The fuel only has to exceed
    the number of tokens.  Neither loop has a page cap. *)
Theorem textSearch_pages_concat (mid : list ts_response) (lastp : ts_response) (fuel : nat)
    (query language : jsstr) :
  Forall (fun p => token_of p <> []) mid ->
  token_of lastp = [] ->
  length mid < fuel ->
  (exists tr,
     textSearchAll (page_stub (mid ++ [lastp])) fuel query language
       = Returned (Ok (concat (map tr_results (mid ++ [lastp])))) tr /\
     fetch_count tr = length (mid ++ [lastp]) /\
     strip_logs tr = EFetch (UQuery query (Some language))
                       :: flat_map (fun p => [ESleep 2200; EFetch (UPageToken (token_of p))]) mid) /\
  (Forall status_ok (mid ++ [lastp]) ->
   exists tr,
     textSearchAllPages (page_stub (mid ++ [lastp])) fuel query
       = Returned (Ok (concat (map tr_results (mid ++ [lastp])))) tr /\
     fetch_count tr = length (mid ++ [lastp]) /\
     strip_logs tr = EFetch (UQuery query None)
                       :: flat_map (fun p => [ESleep 2000; EFetch (UPageToken (token_of p))]) mid).
Proof.
  intros Htok Hlast Hfuel. split; [|intros Hok].
  - destruct (textSearch_loop_pages 2200 LogAndContinue (page_stub (mid ++ [lastp])) mid lastp
                Htok Hlast (or_introl eq_refl) fuel 0 (UQuery query (Some language)) [] []
                (page_stub_provider _) Hfuel) as (tr & Hrun & Hstrip).
    exists tr. unfold textSearchAll. rewrite Hrun. split; [reflexivity|split; [|exact Hstrip]].
    rewrite <- fetch_count_strip_logs, Hstrip, length_app, fetch_count_fetch, fetch_count_pages.
    simpl. lia.
  - destruct (textSearch_loop_pages 2000 ThrowOnBad (page_stub (mid ++ [lastp])) mid lastp
                Htok Hlast (or_intror Hok) fuel 0 (UQuery query None) [] []
                (page_stub_provider _) Hfuel) as (tr & Hrun & Hstrip).
    exists tr. unfold textSearchAllPages. rewrite Hrun. split; [reflexivity|split; [|exact Hstrip]].
    rewrite <- fetch_count_strip_logs, Hstrip, length_app, fetch_count_fetch, fetch_count_pages.
    simpl. lia.
Qed.

(** Claim C5, as stated, fails: against an upstream that always returns
    a page token, both loops are still running after any number of
    requests: with [fuel] steps they have issued exactly [fuel] requests
    and not returned, so no page cap bounds the number of requests. *)
Lemma textSearch_no_page_cap :
  (forall fuel, exists tr,
     textSearchAll always_token fuel (js "spa") (js "es") = StillRunning tr /\ fetch_count tr = fuel) /\
  (forall fuel, exists tr,
     textSearchAllPages always_token fuel (js "spa") = StillRunning tr /\ fetch_count tr = fuel) /\
  ~ (exists cap, forall fuel,
       fetch_count (trace_of (textSearchAll always_token fuel (js "spa") (js "es"))) <= cap).
Proof.
  split; [|split].
  - intros fuel. apply textSearch_loop_always_token.
  - intros fuel. apply textSearch_loop_always_token.
  - intros [cap Hcap]. specialize (Hcap (S cap)).
    destruct (textSearch_loop_always_token 2200 LogAndContinue (S cap) 0
                (UQuery (js "spa") (Some (js "es"))) [] []) as (tr & Hrun & Hcnt).
    unfold textSearchAll in Hcap. rewrite Hrun in Hcap. simpl in Hcap. lia.
Qed.

(* --------------------------------------------------------------------- *)
(** ** Fallback keys *)

(** Claim C6 (as the code has it), for two records of one category
    batch (a fresh [seenBatch]) and any pre-loaded [existingPlaceIds]:
    when both [place_id]s are empty after trimming, the key of each is
    ["fallback:" + normalizeKey(name) + "|" + normalizeKey(address)], the
    second record is dropped exactly when its key equals the first one's,
    and so it is dropped whenever the normalized names and the
    normalized addresses agree; two records with distinct non-empty
    [place_id]s, neither pre-loaded, are both kept, whatever their names
    and addresses. *)
Theorem dedupe_fallback_pairs (E : gset jsstr) (p1 p2 : sa_detail) :
  (trim (sd_place_id p1) = [] -> trim (sd_place_id p2) = [] ->
     fallKey p1 = js "fallback:" ++ normalizeKey (sd_name p1) ++ js "|"
                    ++ normalizeKey (sd_address p1) /\
     fallKey p2 = js "fallback:" ++ normalizeKey (sd_name p2) ++ js "|"
                    ++ normalizeKey (sd_address p2) /\
     (dedupBatch E ∅ [Some p1; Some p2]).1.1
       = (if decide (fallKey p1 = fallKey p2) then [p1] else [p1; p2])) /\
  (trim (sd_place_id p1) = [] -> trim (sd_place_id p2) = [] ->
     normalizeKey (sd_name p1) = normalizeKey (sd_name p2) ->
     normalizeKey (sd_address p1) = normalizeKey (sd_address p2) ->
     (dedupBatch E ∅ [Some p1; Some p2]).1.1 = [p1]) /\
  (trim (sd_place_id p1) <> [] -> trim (sd_place_id p2) <> [] ->
     trim (sd_place_id p1) <> trim (sd_place_id p2) ->
     trim (sd_place_id p1) ∉ E -> trim (sd_place_id p2) ∉ E ->
     (dedupBatch E ∅ [Some p1; Some p2]).1.1 = [p1; p2]).
Proof.
  assert (Hempty : trim (sd_place_id p1) = [] -> trim (sd_place_id p2) = [] ->
            (dedupBatch E ∅ [Some p1; Some p2]).1.1
              = (if decide (fallKey p1 = fallKey p2) then [p1] else [p1; p2])).
  { intros H1 H2. cbn [dedupBatch]. rewrite H1, H2.
    repeat case_decide; simpl; try reflexivity; exfalso; try tauto; set_solver. }
  assert (Hkey : forall p, trim (sd_place_id p) = [] ->
            fallKey p = js "fallback:" ++ normalizeKey (sd_name p) ++ js "|"
                          ++ normalizeKey (sd_address p)).
  { intros p Hp. unfold fallKey. rewrite Hp. reflexivity. }
  split; [|split].
  - intros H1 H2. split; [by apply Hkey|split; [by apply Hkey|by apply Hempty]].
  - intros H1 H2 Hn Ha. rewrite (Hempty H1 H2).
    rewrite decide_True; [reflexivity|]. rewrite !Hkey by assumption. congruence.
  - intros H1 H2 H12 HE1 HE2. cbn [dedupBatch].
    assert (Hk1 : fallKey p1 = trim (sd_place_id p1))
      by (unfold fallKey; destruct (trim (sd_place_id p1)); congruence).
    assert (Hk2 : fallKey p2 = trim (sd_place_id p2))
      by (unfold fallKey; destruct (trim (sd_place_id p2)); congruence).
    rewrite Hk1, Hk2.
    repeat case_decide; simpl; try reflexivity; exfalso; try tauto; set_solver.
Qed.

(** Claim C6, as stated, fails: two records without [place_id] whose
    names differ, also after normalization, but whose ["name|address"]
    strings coincide: the second is dropped as a duplicate of the
    first. *)
Lemma dedupe_fallback_key_collision :
  trim (sd_place_id collide_p1) = [] /\ trim (sd_place_id collide_p2) = [] /\
  normalizeKey (sd_name collide_p1) <> normalizeKey (sd_name collide_p2) /\
  normalizeKey (sd_address collide_p1) <> normalizeKey (sd_address collide_p2) /\
  (dedupBatch ∅ ∅ [Some collide_p1; Some collide_p2]).1.1 = [collide_p1].
Proof. vm_compute. repeat split; try reflexivity; discriminate. Qed.

(* --------------------------------------------------------------------- *)
(** ** Place details failures *)

(** Claim C7 (as the code has it).  On a reply whose status is not
    ["OK"], [getPlaceDetails] (index.js, and [fetchPlaceDetails] of
    part_001) returns [null], [placeDetails] (part_002) returns the
    placeholder record ([place_id], ["N/A"] for name, address, phone and
    website, [""] for the coordinates), and the details mapper of part_001
    falls back on the search result and ["N/A"].  A transport failure
    degrades the same way only in part_001, whose mapper catches it;
    [getPlaceDetails] and [placeDetails] pass the error on to their
    caller. *)
Theorem details_failure_handling (fd : jsstr -> details_reply) (pid : jsstr) (item : raw_place) :
  rp_place_id item = Some pid ->
  (forall status result, fd pid = DReply status result -> status <> OK ->
     getPlaceDetails fd pid = Ok None /\
     placeDetails fd pid
       = Ok {| pd_place_id := pid; pd_name := NA; pd_address := NA; pd_phone := NA;
               pd_website := NA; pd_lat := JStr []; pd_lng := JStr [] |} /\
     saMapper fd item
       = {| sd_name := default NA (rp_name item);
            sd_address := default NA (rp_formatted_address item);
            sd_lat := nullish_or (rp_lat item) (JStr []);
            sd_lng := nullish_or (rp_lng item) (JStr []);
            sd_phone := NA; sd_website := NA; sd_place_id := pid |}) /\
  (forall e, fd pid = DTransportError e ->
     getPlaceDetails fd pid = Throw e /\
     placeDetails fd pid = Throw e /\
     saMapper fd item
       = {| sd_name := default NA (rp_name item);
            sd_address := default NA (rp_formatted_address item);
            sd_lat := nullish_or (rp_lat item) (JStr []);
            sd_lng := nullish_or (rp_lng item) (JStr []);
            sd_phone := NA; sd_website := NA; sd_place_id := pid |}).
Proof.
  intros Hpid. split.
  - intros status result Hfd Hst.
    unfold saMapper, fetchPlaceDetails, getPlaceDetails, placeDetails.
    rewrite Hpid. simpl. rewrite Hfd.
    destruct (decide (status = OK)) as [Hc|_]; [congruence|].
    split; [reflexivity|split; reflexivity].
  - intros e Hfd.
    unfold saMapper, fetchPlaceDetails, getPlaceDetails, placeDetails.
    rewrite Hpid. simpl. rewrite Hfd. split; [reflexivity|split; reflexivity].
Qed.

(** Claim C7, as stated, fails: on a details request that fails in
    transport, [getPlaceDetails] and [placeDetails] throw, and the
    [/run-city] loop, which does not catch it, throws for the whole run
    instead of degrading the row. *)
Lemma details_transport_failure_propagates :
  getPlaceDetails timeout_fetch (js "p1") = Throw (js "timeout") /\
  placeDetails timeout_fetch (js "p1") = Throw (js "timeout") /\
  runCity_categories timeout_fetch (fun _ => [place_p1]) (js "2024-01-01") (js "Chile")
    (js "Santiago") ∅ [js "spa"] = Throw (js "timeout").
Proof. vm_compute. repeat split. Qed.

(* --------------------------------------------------------------------- *)
(** ** The claims' statements on sample inputs *)

(** [/run-city] over two categories that both find [p1]: the run
    completes, and its [place_id] column has no repeat. *)
Lemma dedupe_unique_within_run_witness :
  exists rows E',
    runCity_categories notfound_fetch (fun _ => [place_p1; place_p2; place_p1]) (js "now")
      (js "Chile") (js "Santiago") ∅ [js "spa"; js "masajes"] = Ok (rows, E') /\
    length rows = 2 /\
    NoDup (pid_column rows) /\
    Forall (fun v => exists k, v = JStr k /\ k <> [] /\ k ∉ (∅ : gset jsstr)) (pid_column rows).
Proof.
  destruct (runCity_categories notfound_fetch (fun _ => [place_p1; place_p2; place_p1]) (js "now")
              (js "Chile") (js "Santiago") ∅ [js "spa"; js "masajes"]) as [[rows E']|e] eqn:Hrun;
    [|vm_compute in Hrun; discriminate Hrun].
  exists rows, E'. split; [reflexivity|split].
  - vm_compute in Hrun. injection Hrun as <- _. reflexivity.
  - exact (proj2 dedupe_unique_within_run notfound_fetch _ _ _ _ _ _ _ _ Hrun).
Defined.

Lemma row_arrays_follow_header_witness :
  SHEET_HEADERS !! 4 = Some "name"%string /\
  rowValues SHEET_HEADERS (buildRow (js "now") (js "Chile") (js "Santiago") (js "spa") dd_a) !! 4
    = Some (nullish_or (buildRow (js "now") (js "Chile") (js "Santiago") (js "spa") dd_a
                          !! "name"%string) (JStr [])) /\
  HEADERS_index !! 2 = Some "city"%string /\
  runCityRowArray {| rc_timestamp := js "now"; rc_country := js "Chile"; rc_city := js "Santiago";
                     rc_query := js "spa Santiago Chile"; rc_category := js "spa";
                     rc_name := js "Spa Uno"; rc_phone := []; rc_website := [];
                     rc_lat := JStr []; rc_lng := JStr []; rc_address := js "Av. Uno 1";
                     rc_place_id := js "p1"; rc_source := source_glow |} !! 2
    = Some (JStr (js "Santiago")).
Proof.
  split; [reflexivity|split; [|split; [reflexivity|]]].
  - apply (proj1 row_arrays_follow_header). reflexivity.
  - rewrite (proj1 (proj2 (proj2 row_arrays_follow_header)) _ 2 "city"%string eq_refl).
    reflexivity.
Defined.

Lemma mapWithConcurrency_order_witness :
  1 <= 2 <= length [10; 20; 30] /\
  length (p_workers (pool_init (R:=nat) [10; 20; 30] 2)) = 2 /\
  (exists p, rtc (pool_step [10; 20; 30] sample_mapper) (pool_init [10; 20; 30] 2) p
             /\ pool_final p) /\
  (forall p, rtc (pool_step [10; 20; 30] sample_mapper) (pool_init [10; 20; 30] 2) p ->
     pool_final p ->
     p_results p = [Some (Fulfilled 10); Some (Fulfilled 21); Some (Fulfilled 32)]).
Proof.
  assert (HK : 1 <= 2 <= length [10; 20; 30]) by (simpl; lia).
  destruct (mapWithConcurrency_order [10; 20; 30] sample_mapper 2 HK) as (Hw & Hex & Hf).
  split; [exact HK|split; [exact Hw|split; [exact Hex|]]].
  intros p Hr Hfin. destruct (Hf p Hr Hfin) as [_ ->]. reflexivity.
Defined.

Lemma mapWithConcurrency_failure_isolated_witness :
  1 <= 2 /\
  (forall p, rtc (pool_step [10; 20; 30] sample_mapper_fail) (pool_init [10; 20; 30] 2) p ->
     pool_final p ->
     p_results p !! 0 = Some (Some (Fulfilled 10)) /\
     p_results p !! 1 = Some (Some CaughtNull) /\
     p_results p !! 2 = Some (Some (Fulfilled 32))).
Proof.
  assert (HK : 1 <= 2) by lia.
  destruct (mapWithConcurrency_failure_isolated [10; 20; 30] sample_mapper_fail 2 HK)
    as (_ & _ & Hf).
  split; [exact HK|]. intros p Hr Hfin.
  destruct (Hf p Hr Hfin) as [_ Hj].
  split; [|split].
  - exact (proj2 (Hj 0 10 eq_refl) 10 eq_refl).
  - exact (proj1 (Hj 1 20 eq_refl) (js "boom") eq_refl).
  - exact (proj2 (Hj 2 30 eq_refl) 32 eq_refl).
Defined.

Lemma textSearch_pages_concat_witness :
  Forall (fun p => token_of p <> []) [page_a; page_b] /\ token_of page_c = [] /\ 2 < 3 /\
  exists tr,
    textSearchAll (page_stub [page_a; page_b; page_c]) 3 (js "spa") (js "es")
      = Returned (Ok [place_p1; place_p2]) tr /\
    fetch_count tr = 3 /\
    strip_logs tr = [EFetch (UQuery (js "spa") (Some (js "es")));
                     ESleep 2200; EFetch (UPageToken (js "t1"));
                     ESleep 2200; EFetch (UPageToken (js "t2"))].
Proof.
  assert (Htok : Forall (fun p => token_of p <> []) [page_a; page_b]).
  { constructor; [|constructor; [|constructor]]; vm_compute; discriminate. }
  assert (Hlast : token_of page_c = []) by reflexivity.
  assert (Hfuel : length [page_a; page_b] < 3) by (simpl; lia).
  split; [exact Htok|split; [exact Hlast|split; [lia|]]].
  destruct (textSearch_pages_concat [page_a; page_b] page_c 3 (js "spa") (js "es")
              Htok Hlast Hfuel) as [(tr & Hrun & Hcnt & Hstrip) _].
  exists tr. split; [exact Hrun|split; [exact Hcnt|exact Hstrip]].
Defined.

Lemma dedupe_fallback_pairs_witness :
  trim (sd_place_id cafe_a) = [] /\ trim (sd_place_id cafe_b) = [] /\
  normalizeKey (sd_name cafe_a) = normalizeKey (sd_name cafe_b) /\
  normalizeKey (sd_address cafe_a) = normalizeKey (sd_address cafe_b) /\
  (dedupBatch ∅ ∅ [Some cafe_a; Some cafe_b]).1.1 = [cafe_a] /\
  trim (sd_place_id dd_a) <> [] /\ trim (sd_place_id dd_b) <> [] /\
  trim (sd_place_id dd_a) <> trim (sd_place_id dd_b) /\
  (trim (sd_place_id dd_a) ∉ (∅ : gset jsstr)) /\ (trim (sd_place_id dd_b) ∉ (∅ : gset jsstr)) /\
  (dedupBatch ∅ ∅ [Some dd_a; Some dd_b]).1.1 = [dd_a; dd_b].
Proof.
  assert (H1 : trim (sd_place_id cafe_a) = []) by reflexivity.
  assert (H2 : trim (sd_place_id cafe_b) = []) by reflexivity.
  assert (Hn : normalizeKey (sd_name cafe_a) = normalizeKey (sd_name cafe_b)) by reflexivity.
  assert (Ha : normalizeKey (sd_address cafe_a) = normalizeKey (sd_address cafe_b))
    by reflexivity.
  assert (D1 : trim (sd_place_id dd_a) <> []) by (vm_compute; discriminate).
  assert (D2 : trim (sd_place_id dd_b) <> []) by (vm_compute; discriminate).
  assert (D12 : trim (sd_place_id dd_a) <> trim (sd_place_id dd_b)) by (vm_compute; discriminate).
  assert (E1 : trim (sd_place_id dd_a) ∉ (∅ : gset jsstr)) by apply not_elem_of_empty.
  assert (E2 : trim (sd_place_id dd_b) ∉ (∅ : gset jsstr)) by apply not_elem_of_empty.
  do 4 (split; [assumption|]). split.
  - exact (proj1 (proj2 (dedupe_fallback_pairs ∅ cafe_a cafe_b)) H1 H2 Hn Ha).
  - do 5 (split; [assumption|]).
    exact (proj2 (proj2 (dedupe_fallback_pairs ∅ dd_a dd_b)) D1 D2 D12 E1 E2).
Defined.

Lemma details_failure_handling_witness :
  rp_place_id place_p1 = Some (js "p1") /\
  js "NOT_FOUND" <> OK /\
  getPlaceDetails notfound_fetch (js "p1") = Ok None /\
  placeDetails notfound_fetch (js "p1")
    = Ok {| pd_place_id := js "p1"; pd_name := NA; pd_address := NA; pd_phone := NA;
            pd_website := NA; pd_lat := JStr []; pd_lng := JStr [] |} /\
  placeDetails timeout_fetch (js "p1") = Throw (js "timeout") /\
  sd_name (saMapper timeout_fetch place_p1) = js "Spa Uno".
Proof.
  assert (Hp : rp_place_id place_p1 = Some (js "p1")) by reflexivity.
  assert (Hs : js "NOT_FOUND" <> OK) by (vm_compute; discriminate).
  destruct (details_failure_handling notfound_fetch (js "p1") place_p1 Hp) as [Hbad _].
  destruct (Hbad (js "NOT_FOUND") None eq_refl Hs) as (Hg & Hpd & _).
  destruct (details_failure_handling timeout_fetch (js "p1") place_p1 Hp) as [_ Hcrash].
  destruct (Hcrash (js "timeout") eq_refl) as (_ & Hpt & Hm).
  split; [exact Hp|split; [exact Hs|split; [exact Hg|split; [exact Hpd|split; [exact Hpt|]]]]].
  rewrite Hm. reflexivity.
Defined.

Lemma splitCityCountry_spec_witness :
  (comma ∉ js "Santiago") /\ (comma ∉ js " Chile") /\
  splitCityCountry (js "Santiago" ++ comma :: js " Region Metropolitana" ++ comma :: js " Chile")
    = {| cc_city := js "Santiago"; cc_country := js "Chile" |}.
Proof.
  assert (Ha : comma ∉ js "Santiago") by (apply (bool_decide_unpack _); vm_compute; exact I).
  assert (Hb : comma ∉ js " Chile") by (apply (bool_decide_unpack _); vm_compute; exact I).
  split; [exact Ha|split; [exact Hb|]].
  rewrite (proj2 (proj2 (proj2 splitCityCountry_spec)) _ _ _ Ha Hb). reflexivity.
Defined.

Lemma columnLetter_bijective_base26_witness :
  (1 <= 16384 <= 2 ^ 53)%Z /\ columnLetter 16384 = js "XFD" /\ bij26_value (js "XFD") = 16384%Z /\
  js "XFD" <> [] /\ Forall (fun c => is_upper c = true) (js "XFD") /\
  columnLetter (bij26_value (js "XFD")) = js "XFD" /\ colLetter 16384 = js "XFD".
Proof.
  assert (Hn : (1 <= 16384 <= 2 ^ 53)%Z) by lia.
  assert (Hs : js "XFD" <> []) by discriminate.
  assert (Hu : Forall (fun c => is_upper c = true) (js "XFD")) by (repeat constructor).
  assert (Hb : (bij26_value (js "XFD") <= 2 ^ 53)%Z) by (vm_compute; discriminate).
  destruct (proj1 columnLetter_bijective_base26 16384%Z Hn) as (Hv & _ & _).
  pose proof (proj1 (proj2 columnLetter_bijective_base26) _ Hs Hu Hb) as Hinv.
  pose proof (proj1 (proj2 (proj2 columnLetter_bijective_base26)) 16384%Z ltac:(lia)) as Hc.
  split; [exact Hn|split; [reflexivity|split; [|split; [exact Hs|split; [exact Hu|split; [exact Hinv|]]]]]].
  - change (bij26_value (columnLetter 16384) = 16384%Z). exact Hv.
  - rewrite Hc. reflexivity.
Defined.

(* --------------------------------------------------------------------- *)
(** ** Trimming and collapsing white space *)

Lemma drop_space_suffix (s : jsstr) : exists p, s = p ++ drop_space s.
Proof.
  induction s as [|c s IH]; simpl; [exists []; reflexivity|].
  destruct (is_js_space c); [|exists []; reflexivity].
  destruct IH as [p Hp]. exists (c :: p). simpl. congruence.
Qed.

Lemma drop_space_head (s : jsstr) :
  match drop_space s with c :: _ => is_js_space c = false | [] => True end.
Proof.
  induction s as [|c s IH]; simpl; [exact I|].
  destruct (is_js_space c) eqn:E; [exact IH|exact E].
Qed.

Lemma drop_space_id (s : jsstr) :
  match s with c :: _ => is_js_space c = false | [] => True end -> drop_space s = s.
Proof. destruct s as [|c s]; simpl; [reflexivity|]. intros H; rewrite H; reflexivity. Qed.

Lemma trim_prefix (s : jsstr) : exists q, drop_space s = trim s ++ q.
Proof.
  unfold trim. destruct (drop_space_suffix (rev (drop_space s))) as [p Hp].
  exists (rev p). rewrite <- rev_app_distr, <- Hp, rev_involutive. reflexivity.
Qed.

Lemma trim_sub (s : jsstr) : exists a b, s = a ++ trim s ++ b.
Proof.
  destruct (drop_space_suffix s) as [a Ha]. destruct (trim_prefix s) as [b Hb].
  exists a, b. rewrite Ha at 1. rewrite Hb. reflexivity.
Qed.

Lemma elem_of_trim (c : N) (s : jsstr) : c ∈ trim s -> c ∈ s.
Proof.
  intros Hc. destruct (trim_sub s) as (a & b & Hs). rewrite Hs.
  apply elem_of_app; right; apply elem_of_app; left; exact Hc.
Qed.

Lemma trim_length (s : jsstr) : length (trim s) <= length s.
Proof.
  destruct (trim_sub s) as (a & b & Hs). rewrite Hs at 2.
  rewrite !length_app. lia.
Qed.

Lemma trim_head (s : jsstr) :
  match trim s with c :: _ => is_js_space c = false | [] => True end.
Proof.
  pose proof (drop_space_head s) as H. destruct (trim_prefix s) as [q Hq].
  rewrite Hq in H. destruct (trim s); [exact I|exact H].
Qed.

Lemma trim_last (s : jsstr) :
  match rev (trim s) with c :: _ => is_js_space c = false | [] => True end.
Proof. unfold trim. rewrite rev_involutive. apply drop_space_head. Qed.

Lemma trim_id (s : jsstr) :
  match s with c :: _ => is_js_space c = false | [] => True end ->
  match rev s with c :: _ => is_js_space c = false | [] => True end ->
  trim s = s.
Proof.
  intros H1 H2. unfold trim. rewrite (drop_space_id s H1), (drop_space_id (rev s) H2).
  apply rev_involutive.
Qed.

Lemma trim_idem (s : jsstr) : trim (trim s) = trim s.
Proof. apply trim_id; [apply trim_head|apply trim_last]. Qed.

Lemma trim_cons (c : N) (s : jsstr) :
  is_js_space c = false -> trim s = s -> trim (c :: s) = c :: s.
Proof.
  intros Hc Hs. apply trim_id; [exact Hc|]. simpl.
  pose proof (trim_last s) as Hl. rewrite Hs in Hl.
  destruct (rev s); simpl; [exact Hc|exact Hl].
Qed.

Lemma collapse_coll_ok (b : bool) (s : jsstr) : coll_ok b (collapse_space_from b s).
Proof.
  revert b; induction s as [|c s IH]; intros b; simpl; [exact I|].
  destruct (is_js_space c) eqn:E.
  - destruct b; [apply IH|]. simpl. split; [reflexivity|split; [reflexivity|apply IH]].
  - simpl. rewrite E. apply IH.
Qed.

Lemma coll_ok_id (b : bool) (s : jsstr) : coll_ok b s -> collapse_space_from b s = s.
Proof.
  revert b; induction s as [|c s IH]; intros b; simpl; [reflexivity|].
  destruct (is_js_space c) eqn:E.
  - intros (-> & -> & H). f_equal. apply IH, H.
  - intros H. f_equal. apply IH, H.
Qed.

Lemma coll_ok_true_drop (s : jsstr) : coll_ok true s -> drop_space s = s.
Proof.
  destruct s as [|c s]; simpl; [reflexivity|].
  destruct (is_js_space c); [intros (_ & H & _); discriminate|reflexivity].
Qed.

Lemma coll_ok_true_false (s : jsstr) : coll_ok true s -> coll_ok false s.
Proof.
  destruct s as [|c s]; simpl; [auto|].
  destruct (is_js_space c); [intros (_ & H & _); discriminate|auto].
Qed.

Lemma coll_ok_prefix (b : bool) (a t : jsstr) : coll_ok b (a ++ t) -> coll_ok b a.
Proof.
  revert b; induction a as [|c a IH]; intros b; simpl; [auto|].
  destruct (is_js_space c); [intros (H1 & H2 & H3); eauto|eauto].
Qed.

Lemma coll_ok_drop_space (s : jsstr) : coll_ok false s -> coll_ok false (drop_space s).
Proof.
  destruct s as [|c s]; simpl; [auto|].
  destruct (is_js_space c) eqn:E.
  - intros (_ & _ & H). rewrite (coll_ok_true_drop s H). apply coll_ok_true_false, H.
  - simpl. rewrite E. auto.
Qed.

Lemma coll_ok_trim (s : jsstr) : coll_ok false s -> coll_ok false (trim s).
Proof.
  intros H. destruct (trim_prefix s) as [q Hq].
  apply (coll_ok_prefix false _ q). rewrite <- Hq. apply coll_ok_drop_space, H.
Qed.

Lemma elem_of_collapse (b : bool) (c : N) (s : jsstr) :
  c ∈ collapse_space_from b s -> c ∈ s \/ c = 32%N.
Proof.
  revert b; induction s as [|d s IH]; intros b; simpl; [intros H; inversion H|].
  rewrite elem_of_cons. intros H.
  destruct (is_js_space d); [destruct b|].
  - destruct (IH _ H); tauto.
  - apply elem_of_cons in H as [H|H]; [tauto|destruct (IH _ H); tauto].
  - apply elem_of_cons in H as [H|H]; [tauto|destruct (IH _ H); tauto].
Qed.

Lemma filter_Forall_id {X} (P : X -> Prop) `{!forall x, Decision (P x)} (l : list X) :
  Forall P l -> filter P l = l.
Proof.
  induction 1 as [|x l Hx _ IH]; [reflexivity|].
  rewrite filter_cons_True by exact Hx. f_equal. exact IH.
Qed.

(* --------------------------------------------------------------------- *)
(** ** Sanitizers *)

Lemma sanitizePhone_NA : sanitizePhone NA = NA.
Proof. vm_compute. reflexivity. Qed.

(** [sanitizePhone] (part_002) returns ["N/A"] or a string starting with
    a quote; its result holds no direction mark and is already
    collapsed and trimmed. *)
Theorem sanitizePhone_shape (p : jsstr) :
  (sanitizePhone p = NA \/ head (sanitizePhone p) = Some 39%N) /\
  Forall (fun c => is_direction_mark c = false) (sanitizePhone p) /\
  coll_ok false (sanitizePhone p) /\
  trim (sanitizePhone p) = sanitizePhone p.
Proof.
  unfold sanitizePhone.
  destruct (decide (p = [])) as [_|_].
  { split; [left; reflexivity|]. vm_compute. repeat split; repeat constructor. }
  destruct (decide (p = NA)) as [_|_].
  { split; [left; reflexivity|]. vm_compute. repeat split; repeat constructor. }
  set (s := trim (collapse_space (filter (fun c => is_direction_mark c = false) p))).
  assert (Hs_dm : Forall (fun c => is_direction_mark c = false) s).
  { apply Forall_forall. intros c Hc. unfold s in Hc. apply elem_of_trim in Hc.
    destruct (elem_of_collapse _ _ _ Hc) as [Hf| ->]; [|reflexivity].
    apply list_elem_of_filter in Hf. tauto. }
  assert (Hs_coll : coll_ok false s) by (apply coll_ok_trim, collapse_coll_ok).
  assert (Hs_trim : trim s = s) by apply trim_idem.
  destruct s as [|c s'] eqn:Es.
  - split; [right; reflexivity|].
    split; [vm_compute; repeat constructor|split; [vm_compute; tauto|vm_compute; reflexivity]].
  - destruct (N.eq_dec c 39) as [->|Hc].
    + split; [right; reflexivity|]. repeat split; assumption.
    + assert (Hr : match c with 39%N => c :: s' | _ => 39%N :: c :: s' end = 39%N :: c :: s').
      { destruct c as [|q]; [reflexivity|].
        repeat (destruct q as [q|q|]; try reflexivity); congruence. }
      rewrite Hr. split; [right; reflexivity|]. repeat split.
      * constructor; [reflexivity|exact Hs_dm].
      * exact Hs_coll.
      * apply trim_cons; [reflexivity|exact Hs_trim].
Qed.

Lemma sanitizePhone_fixed (r : jsstr) :
  head r = Some 39%N -> Forall (fun c => is_direction_mark c = false) r ->
  coll_ok false r -> trim r = r -> sanitizePhone r = r.
Proof.
  intros Hhd Hdm Hcoll Htrim. destruct r as [|c r']; [discriminate|].
  simpl in Hhd. injection Hhd as ->. unfold sanitizePhone.
  rewrite decide_False by discriminate.
  rewrite decide_False by (intros H; vm_compute in H; discriminate H).
  rewrite filter_Forall_id by exact Hdm.
  unfold collapse_space. rewrite coll_ok_id by exact Hcoll. rewrite Htrim. reflexivity.
Qed.

(** [sanitizePhone] (part_002) is idempotent: a phone already sanitized
    is written back unchanged. *)
Theorem sanitizePhone_idempotent (p : jsstr) : sanitizePhone (sanitizePhone p) = sanitizePhone p.
Proof.
  destruct (sanitizePhone_shape p) as ([HNA|Hhd] & Hdm & Hcoll & Htrim).
  - rewrite HNA. apply sanitizePhone_NA.
  - apply sanitizePhone_fixed; assumption.
Qed.

Lemma map_title_id (f : N -> N) (s : jsstr) :
  (forall c, is_title_forbidden c = false -> f c = c) ->
  Forall (fun c => is_title_forbidden c = false) s -> map f s = s.
Proof.
  intros Hf Hs. induction Hs as [|c s Hc _ IH]; [reflexivity|]. simpl. rewrite Hf, IH by exact Hc. reflexivity.
Qed.

(** [sanitizeSheetTitle] (part_002) returns a title without any of
    [: \ / ? * [ ]], at most 90 code units long, with no white space at
    either end. *)
Theorem sanitizeSheetTitle_safe (title : jsstr) :
  Forall (fun c => is_title_forbidden c = false) (sanitizeSheetTitle title) /\
  length (sanitizeSheetTitle title) <= 90 /\
  trim (sanitizeSheetTitle title) = sanitizeSheetTitle title.
Proof.
  unfold sanitizeSheetTitle. split; [|split].
  - apply Forall_forall. intros c Hc. apply elem_of_trim in Hc.
    apply elem_of_take in Hc as (i & Hi & _).
    apply list_lookup_fmap_Some in Hi as (x & -> & _).
    destruct (is_title_forbidden x) eqn:E; [reflexivity|exact E].
  - etransitivity; [apply trim_length|]. rewrite length_take. lia.
  - apply trim_idem.
Qed.

(** [sanitizeSheetTitle] (part_002) is idempotent. *)
Theorem sanitizeSheetTitle_idempotent (title : jsstr) :
  sanitizeSheetTitle (sanitizeSheetTitle title) = sanitizeSheetTitle title.
Proof.
  destruct (sanitizeSheetTitle_safe title) as (Hf & Hlen & Htrim).
  unfold sanitizeSheetTitle at 1.
  rewrite map_title_id; [|intros c Hc; rewrite Hc; reflexivity|exact Hf].
  rewrite take_ge by exact Hlen. exact Htrim.
Qed.

Lemma norm_title_safe (s : jsstr) :
  Forall (fun c => is_title_forbidden c = false) (norm_title s).
Proof.
  apply Forall_forall. intros c Hc. unfold norm_title in Hc. apply elem_of_trim in Hc.
  destruct (elem_of_collapse _ _ _ Hc) as [Hm| ->]; [|reflexivity].
  apply list_elem_of_fmap in Hm as (x & -> & _).
  destruct (is_title_forbidden x) eqn:E; [reflexivity|exact E].
Qed.

(** [buildSheetTitle] (part_005) never falls back on ["Hoja"]: the
    result is the first 80 code units of ["<city>, <country>"] after
    normalisation, between 2 and 80 code units long, with none of
    [* ? : / \ [ ]]. *)
Theorem buildSheetTitle_safe (city country : jsstr) :
  buildSheetTitle city country = take 80 (norm_title city ++ js ", " ++ norm_title country) /\
  2 <= length (buildSheetTitle city country) <= 80 /\
  Forall (fun c => is_title_forbidden c = false) (buildSheetTitle city country).
Proof.
  assert (Hlen : 2 <= length (take 80 (norm_title city ++ js ", " ++ norm_title country)) <= 80).
  { rewrite length_take, !length_app. assert (length (js ", ") = 2) as -> by reflexivity. lia. }
  assert (Heq : buildSheetTitle city country
                = take 80 (norm_title city ++ js ", " ++ norm_title country)).
  { unfold buildSheetTitle.
    destruct (take 80 (norm_title city ++ js ", " ++ norm_title country)) eqn:E;
      [simpl in Hlen; lia|reflexivity]. }
  rewrite Heq. split; [reflexivity|split; [exact Hlen|]].
  apply Forall_forall. intros c Hc. apply elem_of_take in Hc as (i & Hi & _).
  apply list_elem_of_lookup_2 in Hi.
  rewrite !elem_of_app in Hi. destruct Hi as [Hi|[Hi|Hi]].
  - exact (proj1 (Forall_forall _ _) (norm_title_safe city) c Hi).
  - vm_compute in Hi. apply elem_of_cons in Hi as [->|Hi]; [reflexivity|].
    apply elem_of_cons in Hi as [->|Hi]; [reflexivity|inversion Hi].
  - exact (proj1 (Forall_forall _ _) (norm_title_safe country) c Hi).
Qed.

Lemma escape_quotes_inj (a b : jsstr) : escape_quotes a = escape_quotes b -> a = b.
Proof.
  revert b; induction a as [|c a IH]; intros [|d b]; simpl; auto.
  - destruct (d =? 39)%N; discriminate.
  - destruct (c =? 39)%N; discriminate.
  - destruct (N.eqb_spec c 39) as [->|Hc], (N.eqb_spec d 39) as [->|Hd]; intros H.
    + injection H as H. f_equal. apply IH, H.
    + injection H as H1 _. congruence.
    + injection H as H1 _. congruence.
    + injection H as H1 H2. subst. f_equal. apply IH, H2.
Qed.

(** [a1Title] (part_005) is injective: distinct tab titles give distinct
    quoted range prefixes; the result starts and ends with a quote. *)
Theorem a1Title_injective (a b : jsstr) :
  (a1Title a = a1Title b -> a = b) /\
  head (a1Title a) = Some 39%N /\ last (a1Title a) = Some 39%N.
Proof.
  split; [|split].
  - unfold a1Title. intros H. injection H as H. apply app_inj_tail in H as [H _].
    apply escape_quotes_inj, H.
  - reflexivity.
  - unfold a1Title. rewrite app_comm_cons, last_snoc. reflexivity.
Qed.

(* --------------------------------------------------------------------- *)
(** ** Pagination of part_002 *)

Lemma status_bad_negb (p : ts_response) :
  ~ status_ok p ->
  negb (bool_decide (tr_status p = OK) || bool_decide (tr_status p = ZERO_RESULTS)) = true.
Proof. unfold status_ok. intros H. repeat case_bool_decide; simpl; tauto. Qed.

Lemma status_ok_negb (p : ts_response) :
  status_ok p ->
  negb (bool_decide (tr_status p = OK) || bool_decide (tr_status p = ZERO_RESULTS)) = false.
Proof. unfold status_ok. intros H. repeat case_bool_decide; simpl; tauto. Qed.

Lemma textSearchAllPages_loop_break provider (mid : list ts_response) (badp : ts_response) :
  Forall (fun p => status_ok p /\ token_of p <> []) mid ->
  ~ status_ok badp ->
  forall fuel k url out trace,
  (forall i p u, (mid ++ [badp]) !! i = Some p -> provider (k + i) u = Ok p) ->
  length mid < fuel ->
  exists tr',
    textSearchAllPages_loop provider fuel k url out trace
      = Returned (Ok (out ++ concat (map tr_results mid))) (trace ++ tr') /\
    strip_logs tr' = EFetch url :: flat_map (fun p => [ESleep 2000; EFetch (UPageToken (token_of p))]) mid /\
    exists tr0, tr' = tr0 ++ [ELog (tr_status badp)].
Proof.
  intros Hmid Hbad.
  induction mid as [|p mid IH]; intros fuel k url out trace Hprov Hfuel;
    (destruct fuel as [|fuel]; [simpl in Hfuel; lia|]); simpl.
  - assert (Hk : provider k url = Ok badp) by (rewrite <- (Nat.add_0_r k); by apply Hprov).
    rewrite Hk, (status_bad_negb _ Hbad).
    exists [EFetch url; ELog (tr_status badp)]. rewrite <- !app_assoc, app_nil_r.
    split; [reflexivity|split; [reflexivity|exists [EFetch url]; reflexivity]].
  - inversion Hmid as [|? ? [Hok Hp] Hmid']; subst.
    assert (Hk : provider k url = Ok p) by (rewrite <- (Nat.add_0_r k); by apply Hprov).
    rewrite Hk, (status_ok_negb _ Hok).
    unfold token_of in Hp.
    destruct (tr_next_page_token p) as [[|c t]|] eqn:Htp; simpl in Hp; try congruence.
    assert (Hprov' : forall i q u, (mid ++ [badp]) !! i = Some q -> provider (S k + i) u = Ok q).
    { intros i q u Hi. replace (S k + i) with (k + S i) by lia. by apply Hprov. }
    destruct (IH Hmid' fuel (S k) (UPageToken (c :: t)) (out ++ tr_results p)
                ((trace ++ [EFetch url]) ++ [ESleep 2000]))
      as (tr'' & Hrun & Hstrip & tr0 & Htr0); [exact Hprov'|simpl in Hfuel; lia|].
    rewrite Hrun. exists ([EFetch url; ESleep 2000] ++ tr''). split; [|split].
    + rewrite <- !app_assoc. reflexivity.
    + rewrite strip_logs_app, Hstrip. unfold token_of. rewrite Htp. reflexivity.
    + exists ([EFetch url; ESleep 2000] ++ tr0). rewrite Htr0, app_assoc. reflexivity.
Qed.

(** [textSearchAllPages] of part_002 stops at the first page whose status
    is neither [OK] nor [ZERO_RESULTS]: it logs that status and returns,
    without throwing, the results of the pages before it, after one
    request per page served. *)
Theorem textSearchAllPages_part002_break (mid : list ts_response) (badp : ts_response)
    (fuel : nat) (query : jsstr) :
  Forall (fun p => status_ok p /\ token_of p <> []) mid ->
  ~ status_ok badp ->
  length mid < fuel ->
  exists tr,
    textSearchAllPages_part002 (page_stub (mid ++ [badp])) fuel query
      = Returned (Ok (concat (map tr_results mid))) tr /\
    fetch_count tr = S (length mid) /\
    exists tr0, tr = tr0 ++ [ELog (tr_status badp)].
Proof.
  intros Hmid Hbad Hfuel.
  destruct (textSearchAllPages_loop_break (page_stub (mid ++ [badp])) mid badp Hmid Hbad
              fuel 0 (UQuery query None) [] [] (page_stub_provider _) Hfuel)
    as (tr & Hrun & Hstrip & Hlast).
  exists tr. unfold textSearchAllPages_part002. rewrite Hrun. split; [reflexivity|split; [|exact Hlast]].
  rewrite <- fetch_count_strip_logs, Hstrip, fetch_count_fetch, fetch_count_pages. reflexivity.
Qed.

(* --------------------------------------------------------------------- *)
(** ** Appending in part_002 *)

Lemma ensureSheetAndHeaders_tab (api api1 : sheets_api) (title : jsstr) :
  ensureSheetAndHeaders api title = Ok api1 ->
  sa_down api1 = false /\ exists tab, sa_tabs api1 !! title = Some tab.
Proof.
  unfold ensureSheetAndHeaders. destruct (sa_down api) eqn:Hd; [discriminate|].
  destruct (sa_tabs api !! title) as [rs|] eqn:Hrs.
  - case_decide as Ha; intros H; injection H as <-; simpl.
    + split; [exact Hd|eauto].
    + split; [reflexivity|]. rewrite lookup_insert_eq. eauto.
  - intros H; injection H as <-; simpl. split; [reflexivity|].
    rewrite lookup_insert_eq. eauto.
Qed.

Lemma values_append_tab (api api' : sheets_api) (title : jsstr) (rs values : list (list jsval)) :
  sa_tabs api !! title = Some rs ->
  values_append api title values = Ok api' ->
  sa_tabs api' !! title = Some (rs ++ values) /\ sa_down api' = false.
Proof.
  intros Hrs. unfold values_append. destruct (sa_down api); [discriminate|].
  rewrite Hrs. intros H; injection H as <-; simpl. rewrite lookup_insert_eq. auto.
Qed.

(** [appendRowsDedup] (part_002) accounts for every input row: [added]
    and [skipped] sum to the number of rows given; the tab keeps its rows
    (after the header check) and gains exactly [added] of the given rows,
    in their order, each with a [place_id] cell. *)
Theorem appendRowsDedup_accounting (api api' : sheets_api) (title : jsstr)
    (rows : list (list jsval)) (added skipped : nat) :
  appendRowsDedup api title rows = Ok (api', (added, skipped)) ->
  added + skipped = length rows /\
  ((rows = [] /\ api' = api) \/
   exists api1 tab new,
     ensureSheetAndHeaders api title = Ok api1 /\ sa_tabs api1 !! title = Some tab /\
     sa_tabs api' !! title = Some (tab ++ new) /\ length new = added /\
     sublist new rows /\ Forall (fun r => truthy (cell r (Some 10)) = true) new).
Proof.
  unfold appendRowsDedup. destruct (Nat.eqb_spec (length rows) 0) as [H0|H0].
  { intros H; injection H as <- <- <-. apply nil_length_inv in H0. subst. simpl. auto. }
  destruct (ensureSheetAndHeaders api title) as [api1|e] eqn:He; simpl; [|discriminate].
  destruct (ensureSheetAndHeaders_tab _ _ _ He) as (_ & tab & Htab).
  match goal with |- context [filter ?P rows] => set (filtered := filter P rows) end.
  assert (Hsub : sublist filtered rows) by apply sublist_filter.
  assert (Hlen : length filtered <= length rows) by apply length_filter.
  assert (Htr : Forall (fun r => truthy (cell r (Some 10)) = true) filtered).
  { apply Forall_forall. intros r Hr. apply list_elem_of_filter in Hr. exact (proj1 (proj1 Hr)). }
  destruct (Nat.eqb_spec (length filtered) 0) as [Hf|Hf].
  - intros H; injection H as <- <- <-. split; [lia|right].
    exists api1, tab, []. rewrite app_nil_r. repeat split; auto using sublist_nil_l.
  - destruct (values_append api1 title filtered) as [api2|e] eqn:Hv; simpl; [|discriminate].
    intros H; injection H as <- <- <-. split; [lia|right].
    exists api1, tab, filtered. repeat split; auto.
    exact (proj1 (values_append_tab _ _ _ _ _ Htab Hv)).
Qed.

(** [appendRowsDedup] (part_002) does not deduplicate within the batch:
    on a tab with the standard header, a row whose [place_id] is set and
    absent from the tab, given twice, is appended twice. *)
Theorem appendRowsDedup_batch_duplicates (api : sheets_api) (title : jsstr)
    (body : list (list jsval)) (r : list jsval) :
  sa_down api = false ->
  sa_tabs api !! title = Some (header_row :: body) ->
  truthy (cell r (Some 10)) = true ->
  cell r (Some 10) ∉ map (fun x => cell x (Some 10)) body ->
  exists api',
    appendRowsDedup api title [r; r] = Ok (api', (2, 0)) /\
    sa_tabs api' !! title = Some (header_row :: body ++ [r; r]).
Proof.
  intros Hd Htab Htr Hnew.
  assert (He : ensureSheetAndHeaders api title = Ok api).
  { unfold ensureSheetAndHeaders. rewrite Hd, Htab. rewrite decide_True; [reflexivity|].
    vm_compute. reflexivity. }
  assert (Hex : cell r (Some 10) ∉ filter (fun v => truthy v = true)
                                     (map (fun x => cell x (Some 10)) body)).
  { intros Hin. apply list_elem_of_filter in Hin. tauto. }
  unfold appendRowsDedup. simpl. rewrite He. simpl. rewrite Htab. simpl.
  rewrite !filter_cons_True by (split; assumption). simpl.
  unfold values_append. rewrite Hd, Htab. simpl.
  eexists. split; [reflexivity|]. simpl. rewrite lookup_insert_eq. reflexivity.
Qed.

(* --------------------------------------------------------------------- *)
(** ** [searchCityAndBuildRows] (part_002) *)

Lemma placeDetails_place_id (fd : jsstr -> details_reply) (pid : jsstr) (d : place_detail) :
  pid <> [] -> placeDetails fd pid = Ok d -> pd_place_id d <> [].
Proof.
  intros Hp. unfold placeDetails. destruct (fd pid) as [e|status result]; [discriminate|].
  case_decide as Hs; intros H; injection H as <-; simpl; [|exact Hp].
  destruct (dj_place_id _) as [[|c s]|]; simpl; try discriminate;
    destruct pid; [congruence|discriminate|congruence|discriminate].
Qed.

Lemma collectDetails_place_id (fd : jsstr -> details_reply) (results : list raw_place)
    (ds : list place_detail) :
  collectDetails fd results = Ok ds -> Forall (fun d => pd_place_id d <> []) ds.
Proof.
  revert ds; induction results as [|r rs IH]; intros ds; simpl.
  - intros H; injection H as <-. constructor.
  - destruct (rp_place_id r) as [[|c pid]|]; [apply IH| |apply IH].
    destruct (placeDetails fd (c :: pid)) as [d|e] eqn:Hd; simpl; [|discriminate].
    destruct (collectDetails fd rs) as [ds'|e] eqn:Hds; simpl; [|discriminate].
    intros H; injection H as <-. constructor; [|apply IH; reflexivity].
    exact (placeDetails_place_id fd (c :: pid) d ltac:(discriminate) Hd).
Qed.

(** [searchCityAndBuildRows] (part_002) reports one [perCategory] entry
    per category, in order, whose [found] counts sum to the number of
    rows; every row has the 12 cells of [HEADERS], the trimmed country and
    city, and a non-empty [place_id] cell, so [appendRowsDedup] never
    skips one of its rows for a missing [place_id]. *)
Theorem searchCityAndBuildRows_rows (fd : jsstr -> details_reply)
    (search : jsstr -> res (list raw_place)) (timestamp country city : jsstr)
    (categories : list jsstr) (rows : list (list jsval)) (perCategory : list (jsstr * nat)) :
  searchCityAndBuildRows fd search timestamp country city categories = Ok (rows, perCategory) ->
  map fst perCategory = categories /\
  length rows = list_sum (map snd perCategory) /\
  Forall (fun row => length row = length HEADERS_part002 /\
                     cell row (Some 1) = JStr (trim country) /\
                     cell row (Some 2) = JStr (trim city) /\
                     truthy (cell row (index_of "place_id" HEADERS_part002)) = true) rows.
Proof.
  unfold searchCityAndBuildRows.
  revert rows perCategory; induction categories as [|cat cs IH]; intros rows perCategory; simpl.
  - intros H; injection H as <- <-. repeat split; constructor.
  - destruct (search _) as [results|e]; simpl; [|discriminate].
    destruct (collectDetails fd results) as [ds|e] eqn:Hds; simpl; [|discriminate].
    destruct (searchCity_loop fd search timestamp (trim city) (trim country) cs)
      as [[rows' per']|e] eqn:Hrest; simpl; [|discriminate].
    intros H; injection H as <- <-.
    destruct (IH rows' per' eq_refl) as (Hcats & Hsum & Hall).
    simpl. split; [rewrite Hcats; reflexivity|split].
    + rewrite length_app, length_map, Hsum. reflexivity.
    + apply Forall_app; split; [|exact Hall].
      apply Forall_forall. intros row Hrow. apply list_elem_of_fmap in Hrow as (d & -> & Hd).
      pose proof (proj1 (Forall_forall _ _) (collectDetails_place_id _ _ _ Hds) d Hd) as Hp.
      split; [reflexivity|split; [reflexivity|split; [reflexivity|]]].
      simpl. destruct (pd_place_id d) eqn:E; [congruence|reflexivity].
Qed.

(* --------------------------------------------------------------------- *)
(** ** [/sheets/append] of part_002 *)

Lemma sanitizePhone_val_shape (p : jsval) :
  sanitizePhone_val p = NA \/ head (sanitizePhone_val p) = Some 39%N.
Proof.
  unfold sanitizePhone_val. destruct (truthy p); simpl; [|left; reflexivity].
  destruct p; try (left; reflexivity); apply sanitizePhone_shape.
Qed.

(** [/sheets/append] of part_002, given object rows: the tab (created
    and given its header if needed) gains one row per object, in order
    and without any deduplication; each row has the 12 cells of
    [HEADERS] and its [phone] cell is ["N/A"] or a quote-prefixed
    string. *)
Theorem sheets_append_part002_objects (api api' : sheets_api) (title : jsstr)
    (o : row_obj) (rest : list body_item) (reply : append_reply) :
  sheets_append_part002 api title (Some (BIObj o :: rest)) = Ok (api', reply) ->
  (title = [] /\ api' = api /\ reply = Reply400) \/
  (reply = Reply200 None /\
   exists api1 tab,
     ensureSheetAndHeaders api (sanitizeSheetTitle title) = Ok api1 /\
     sa_tabs api1 !! sanitizeSheetTitle title = Some tab /\
     sa_tabs api' !! sanitizeSheetTitle title = Some (tab ++ map objectRow (BIObj o :: rest)) /\
     Forall (fun row => length row = length HEADERS_part002 /\
                        exists ph, cell row (index_of "phone" HEADERS_part002) = JStr ph /\
                                   (ph = NA \/ head ph = Some 39%N))
            (map objectRow (BIObj o :: rest))).
Proof.
  unfold sheets_append_part002. case_decide as Ht.
  { intros H; injection H as <- <-. left; auto. }
  destruct (ensureSheetAndHeaders api (sanitizeSheetTitle title)) as [api1|e] eqn:He;
    simpl; [|discriminate].
  destruct (ensureSheetAndHeaders_tab _ _ _ He) as (_ & tab & Htab).
  destruct (values_append _ _ _) as [api2|e] eqn:Hv; simpl; [|discriminate].
  intros H; injection H as <- <-. right. split; [reflexivity|].
  exists api1, tab. split; [reflexivity|split; [exact Htab|split]].
  - exact (proj1 (values_append_tab _ _ _ _ _ Htab Hv)).
  - apply Forall_forall. intros row Hrow.
    change (row ∈ objectRow <$> (BIObj o :: rest)) in Hrow.
    apply list_elem_of_fmap in Hrow as (it & -> & _).
    split; [reflexivity|]. eexists. split; [reflexivity|]. apply sanitizePhone_val_shape.
Qed.

(* ===================================================================== *)
(** ** src/index.js: [ensureSheetAndHeader], [readExistingPlaceIds] and
    [/sheets/append] *)

Lemma hdr_index_not_blank : forallb is_blank_cell (take 13 hdr_index) = false.
Proof. reflexivity. Qed.

Lemma hdr_index_app_not_blank (r : list jsval) :
  forallb is_blank_cell (take 13 (hdr_index ++ drop 13 r)) = false.
Proof. rewrite take_app_length' by reflexivity. reflexivity. Qed.

Lemma ensureSheetAndHeader_fixed (api : sheets_api) (name : jsstr) (r0 : list jsval)
    (tl : list (list jsval)) :
  sa_down api = false -> sa_tabs api !! name = Some (r0 :: tl) ->
  forallb is_blank_cell (take 13 r0) = false ->
  ensureSheetAndHeader api name = Ok api.
Proof.
  intros Hd Ht Hb. unfold ensureSheetAndHeader. rewrite Hd, Ht. simpl. rewrite Hb. reflexivity.
Qed.

Lemma ensureSheetAndHeader_Ok (api api' : sheets_api) (name : jsstr) :
  ensureSheetAndHeader api name = Ok api' ->
  sa_down api' = false /\
  (exists r0 tl, sa_tabs api' !! name = Some (r0 :: tl) /\
                 forallb is_blank_cell (take 13 r0) = false /\
                 (forall rs, sa_tabs api !! name = Some rs -> tl = drop 1 rs)) /\
  (forall k, k <> name -> sa_tabs api' !! k = sa_tabs api !! k).
Proof.
  unfold ensureSheetAndHeader. destruct (sa_down api) eqn:Hd; [discriminate|].
  destruct (sa_tabs api !! name) as [rs|] eqn:Ht.
  - destruct (forallb is_blank_cell _) eqn:Hb.
    + intros H; injection H as <-; simpl. split; [reflexivity|]. split.
      * destruct rs as [|r tl].
        -- exists hdr_index, []. rewrite lookup_insert_eq.
           split; [reflexivity|]. split; [exact hdr_index_not_blank|].
           intros rs' Hrs'. injection Hrs' as <-. reflexivity.
        -- exists (hdr_index ++ drop 13 r), tl. rewrite lookup_insert_eq.
           split; [reflexivity|]. split; [apply hdr_index_app_not_blank|].
           intros rs' Hrs'. injection Hrs' as <-. reflexivity.
      * intros k Hk. rewrite lookup_insert_ne by congruence. reflexivity.
    + intros H; injection H as <-. split; [exact Hd|]. split; [|reflexivity].
      destruct rs as [|r tl]; [discriminate|].
      exists r, tl. split; [exact Ht|]. split; [exact Hb|].
      intros rs' Hrs'. assert (rs' = r :: tl) as -> by congruence. reflexivity.
  - intros H; injection H as <-; simpl. split; [reflexivity|]. split.
    + exists hdr_index, []. rewrite lookup_insert_eq.
      split; [reflexivity|]. split; [exact hdr_index_not_blank|]. congruence.
    + intros k Hk. rewrite lookup_insert_ne by congruence. reflexivity.
Qed.

(** The value cell [place_id] of a row built from an object whose key is
    [pid] reads back, trimmed, as [pid]. *)
Lemma item_row_key (it : body_item) (pid : jsstr) :
  item_pid it = Ok pid -> pid <> [] -> colL_key (item_row it) = pid.
Proof.
  unfold item_pid, colL_key.
  change (cell (item_row it) (Some 11)) with
    (nullish_or (Some (item_get it "place_id")) (JStr [])).
  destruct (item_get it "place_id") as [s|z| |]; simpl; try discriminate.
  - destruct (negb _); [|intros H; injection H as <-; congruence].
    intros H; injection H as <-. reflexivity.
  - destruct (negb _); [discriminate|]. intros H; injection H as <-; congruence.
  - intros H; injection H as <-; congruence.
  - intros H; injection H as <-; congruence.
Qed.

Lemma item_row_length (it : body_item) : length (item_row it) = 13.
Proof. reflexivity. Qed.

(** What the object loop of [/sheets/append] produces: a row per new key,
    keys non-empty, fresh and pairwise distinct, and every item's key
    either empty or in the final set. *)
Lemma objectRowsToValues_spec (items : list body_item) :
  forall (E E' : gset jsstr) (vs : list (list jsval)),
  objectRowsToValues E items = Ok (vs, E') ->
  E' = E ∪ list_to_set (map colL_key vs) /\
  Forall (fun r => length r = 13 /\ colL_key r <> [] /\ colL_key r ∉ E) vs /\
  NoDup (map colL_key vs) /\
  Forall (fun it => exists pid, item_pid it = Ok pid /\ (pid = [] \/ pid ∈ E')) items.
Proof.
  induction items as [|o rest IH]; intros E E' vs; simpl.
  - intros H; injection H as <- <-. simpl.
    split; [set_solver|]. split; [constructor|]. split; constructor.
  - destruct (item_pid o) as [pid|e] eqn:Hp; simpl; [|discriminate].
    case_decide as Hc.
    + intros H. destruct (IH E E' vs H) as (HE & Hf & Hn & Hi).
      split; [exact HE|]. split; [exact Hf|]. split; [exact Hn|].
      constructor; [|exact Hi]. exists pid. split; [exact Hp|].
      destruct Hc as [Hc|Hc]; [left; exact Hc|right; set_solver].
    + destruct (objectRowsToValues ({[pid]} ∪ E) rest) as [[vs1 E1]|e] eqn:Hr;
        simpl; [|discriminate].
      intros H; injection H as <- <-.
      destruct (IH _ _ _ Hr) as (HE & Hf & Hn & Hi).
      assert (Hk : colL_key (item_row o) = pid) by (apply item_row_key; [exact Hp|tauto]).
      change (map colL_key (item_row o :: vs1)) with (colL_key (item_row o) :: map colL_key vs1).
      rewrite Hk. split; [subst E1; set_solver|].
      split.
      * constructor; [cbv beta; rewrite Hk; split; [reflexivity|split; [tauto|tauto]]|].
        eapply Forall_impl; [exact Hf|]. intros r (Hl & Hne & Hin).
        split; [exact Hl|]. split; [exact Hne|set_solver].
      * split.
        -- constructor; [|exact Hn]. rewrite list_elem_of_fmap.
           intros (r & Hr' & Hin). rewrite Forall_forall in Hf.
           destruct (Hf r Hin) as (_ & _ & Hn'). apply Hn'. rewrite <- Hr'. set_solver.
        -- constructor; [|exact Hi]. exists pid. split; [exact Hp|]. right.
           subst E1. set_solver.
Qed.

(** Items whose keys are all empty or already known add nothing. *)
Lemma objectRowsToValues_known (items : list body_item) (E : gset jsstr) :
  Forall (fun it => exists pid, item_pid it = Ok pid /\ (pid = [] \/ pid ∈ E)) items ->
  objectRowsToValues E items = Ok ([], E).
Proof.
  induction items as [|o rest IH]; simpl; [reflexivity|].
  intros Hf. inversion Hf as [|? ? (pid & Hp & Hc) Hr]; subst.
  rewrite Hp. simpl. rewrite decide_True by exact Hc. apply IH. exact Hr.
Qed.

Lemma readExistingPlaceIds_spec (api : sheets_api) (name : jsstr) (rs : list (list jsval)) :
  sa_down api = false -> sa_tabs api !! name = Some rs ->
  readExistingPlaceIds api name =
  list_to_set (filter (fun s => s <> []) (map colL_key (drop 1 rs))).
Proof. intros Hd Ht. unfold readExistingPlaceIds. rewrite Hd, Ht. reflexivity. Qed.

(** The object branch of [/sheets/append], unfolded up to the loop. *)
Lemma sheets_append_obj (api : sheets_api) (sid name : jsstr) (o : row_obj)
    (rest : list body_item) :
  sheets_append api sid name (Some (BIObj o :: rest)) =
  if decide (sid = [] \/ name = []) then Ok (api, Reply400) else
  let! api1 := ensureSheetAndHeader api name in
  let! r := objectRowsToValues (readExistingPlaceIds api1 name) (BIObj o :: rest) in
  let! r' := appendRows api1 name r.1 in
  Ok (r'.1, Reply200 (Some r'.2)).
Proof.
  unfold sheets_append. case_decide; [reflexivity|].
  destruct (ensureSheetAndHeader api name); [|reflexivity]. cbn [res_bind].
  destruct (objectRowsToValues _ _); reflexivity.
Qed.

Lemma appendRows_Ok (api api' : sheets_api) (name : jsstr) (tab vs : list (list jsval)) (n : nat) :
  sa_tabs api !! name = Some tab -> sa_down api = false ->
  appendRows api name vs = Ok (api', n) ->
  n = length vs /\ sa_tabs api' !! name = Some (tab ++ vs) /\ sa_down api' = false /\
  (vs = [] -> api' = api).
Proof.
  intros Ht Hd. unfold appendRows. destruct (Nat.eqb (length vs) 0) eqn:L.
  - intros H; injection H as <- <-. apply Nat.eqb_eq, nil_length_inv in L. subst vs.
    rewrite app_nil_r. auto.
  - destruct (values_append api name vs) as [api2|e] eqn:Hv; simpl; [|discriminate].
    intros H; injection H as <- <-.
    destruct (values_append_tab _ _ _ _ _ Ht Hv) as [Ht' Hd'].
    split; [reflexivity|]. split; [exact Ht'|]. split; [exact Hd'|].
    intros ->. discriminate.
Qed.

(** ** Properties of src/index.js *)

(** ensureSheetAndHeader (src/index.js, lines 56-90): after it succeeds
    the tab exists and its first row has a non-blank cell among [A1:M1];
    rows after the first and other tabs are untouched; a tab whose
    [A1:M1] already has a non-blank cell is left as it is; and calling it
    again changes nothing. *)
Theorem ensureSheetAndHeader_spec (api api' : sheets_api) (name : jsstr) :
  ensureSheetAndHeader api name = Ok api' ->
  ensureSheetAndHeader api' name = Ok api' /\
  (exists r0 tl, sa_tabs api' !! name = Some (r0 :: tl) /\
                 forallb is_blank_cell (take 13 r0) = false /\
                 (forall rs, sa_tabs api !! name = Some rs -> tl = drop 1 rs)) /\
  (forall k, k <> name -> sa_tabs api' !! k = sa_tabs api !! k) /\
  (forall r tl, sa_tabs api !! name = Some (r :: tl) ->
                forallb is_blank_cell (take 13 r) = false -> api' = api).
Proof.
  intros H. destruct (ensureSheetAndHeader_Ok _ _ _ H) as (Hd & (r0 & tl & Ht & Hb & Htl) & Hk).
  split; [eapply ensureSheetAndHeader_fixed; eassumption|].
  split; [exists r0, tl; auto|]. split; [exact Hk|].
  intros r tl' Ht0 Hb0. revert H. unfold ensureSheetAndHeader.
  destruct (sa_down api); [discriminate|]. rewrite Ht0. simpl. rewrite Hb0.
  intros H; injection H as <-. reflexivity.
Qed.

(** /sheets/append with an array of objects (src/index.js, lines 305-336):
    the rows it appends go at the end of the tab, one per object, with a
    non-empty [place_id] that no row below the header already had, and no
    two of them with the same [place_id]; [appended] is their number. *)
Theorem sheets_append_objects_fresh (api api' : sheets_api) (sid name : jsstr)
    (o : row_obj) (rest : list body_item) (n : nat) :
  sheets_append api sid name (Some (BIObj o :: rest)) = Ok (api', Reply200 (Some n)) ->
  exists api1 tab new,
    ensureSheetAndHeader api name = Ok api1 /\ sa_tabs api1 !! name = Some tab /\
    sa_tabs api' !! name = Some (tab ++ new) /\ length new = n /\
    NoDup (map colL_key new) /\
    Forall (fun r => length r = 13 /\ colL_key r <> [] /\
                     colL_key r ∉ map colL_key (drop 1 tab)) new.
Proof.
  rewrite sheets_append_obj. case_decide as Hs; [discriminate|].
  destruct (ensureSheetAndHeader api name) as [api1|e] eqn:He; cbn [res_bind]; [|discriminate].
  destruct (ensureSheetAndHeader_Ok _ _ _ He) as (Hd & (r0 & tl & Ht & _ & _) & _).
  destruct (objectRowsToValues _ _) as [[vs E']|e] eqn:Hr; cbn [res_bind]; [|discriminate].
  destruct (appendRows _ _ _) as [[api2 m]|e] eqn:Ha; cbn [res_bind]; [|discriminate].
  intros H; injection H as <- <-. simpl in Ha |- *.
  destruct (appendRows_Ok _ _ _ _ _ _ Ht Hd Ha) as (-> & Ht' & _).
  destruct (objectRowsToValues_spec _ _ _ _ Hr) as (_ & Hf & Hn & _).
  rewrite (readExistingPlaceIds_spec _ _ _ Hd Ht) in Hf.
  exists api1, (r0 :: tl), vs. split; [reflexivity|]. split; [exact Ht|].
  split; [exact Ht'|]. split; [reflexivity|]. split; [exact Hn|].
  eapply Forall_impl; [exact Hf|]. intros r (Hl & Hne & Hin).
  split; [exact Hl|]. split; [exact Hne|].
  intros Hm. apply Hin. apply elem_of_list_to_set. apply list_elem_of_filter. auto.
Qed.

(** /sheets/append (src/index.js, lines 305-336): sending again the same
    array of objects right after a successful call appends nothing, reports
    [appended: 0] and leaves the spreadsheet as the first call left it. *)
Theorem sheets_append_objects_idempotent (api api1 : sheets_api) (sid name : jsstr)
    (o : row_obj) (rest : list body_item) (n : nat) :
  sheets_append api sid name (Some (BIObj o :: rest)) = Ok (api1, Reply200 (Some n)) ->
  sheets_append api1 sid name (Some (BIObj o :: rest)) = Ok (api1, Reply200 (Some 0)).
Proof.
  rewrite !sheets_append_obj. case_decide as Hs; [discriminate|].
  destruct (ensureSheetAndHeader api name) as [api2|e] eqn:He; cbn [res_bind]; [|discriminate].
  destruct (ensureSheetAndHeader_Ok _ _ _ He) as (Hd & (r0 & tl & Ht & Hb & _) & _).
  destruct (objectRowsToValues _ _) as [[vs E']|e] eqn:Hr; cbn [res_bind]; [|discriminate].
  destruct (appendRows _ _ _) as [[api3 m]|e] eqn:Ha; cbn [res_bind]; [|discriminate].
  intros H; injection H as <- <-. simpl in Ha.
  destruct (appendRows_Ok _ _ _ _ _ _ Ht Hd Ha) as (_ & Ht' & Hd' & _).
  destruct (objectRowsToValues_spec _ _ _ _ Hr) as (HE & Hf & _ & Hi).
  rewrite (ensureSheetAndHeader_fixed _ _ r0 (tl ++ vs) Hd' Ht' Hb). cbn [res_bind].
  rewrite (readExistingPlaceIds_spec _ _ _ Hd' Ht').
  rewrite (objectRowsToValues_known _ (list_to_set (filter (fun s => s <> [])
            (map colL_key (drop 1 ((r0 :: tl) ++ vs)))))).
  - reflexivity.
  - eapply Forall_impl; [exact Hi|]. intros it (pid & Hp & Hc). exists pid.
    split; [exact Hp|]. destruct Hc as [Hc|Hc]; [left; exact Hc|].
    destruct (decide (pid = [])) as [Hz|Hz]; [left; exact Hz|right].
    rewrite (readExistingPlaceIds_spec _ _ _ Hd Ht) in HE. subst E'.
    apply elem_of_list_to_set. apply list_elem_of_filter. split; [exact Hz|].
    change (drop 1 ((r0 :: tl) ++ vs)) with (tl ++ vs).
    rewrite map_app. apply elem_of_union in Hc as [Hc|Hc].
    + apply elem_of_list_to_set, list_elem_of_filter in Hc as [_ Hc].
      apply elem_of_app. left. exact Hc.
    + apply elem_of_list_to_set in Hc. apply elem_of_app. right. exact Hc.
Qed.

Lemma mapM_item_array (l : list (list jsval)) : mapM item_array (map BIArr l) = Some l.
Proof. induction l as [|r l IH]; simpl; [reflexivity|]. rewrite IH. reflexivity. Qed.

(** /sheets/append with an array of arrays (src/index.js, lines 305-336):
    the rows are appended as they are, in order, duplicates included, and
    [appended] is their number. *)
Theorem sheets_append_arrays_verbatim (api api' : sheets_api) (sid name : jsstr)
    (rs : list (list jsval)) (n : nat) :
  sheets_append api sid name (Some (map BIArr rs)) = Ok (api', Reply200 (Some n)) ->
  n = length rs /\
  exists api1 tab, ensureSheetAndHeader api name = Ok api1 /\
    sa_tabs api1 !! name = Some tab /\ sa_tabs api' !! name = Some (tab ++ rs).
Proof.
  unfold sheets_append. case_decide as Hs; [discriminate|].
  destruct (ensureSheetAndHeader api name) as [api1|e] eqn:He; cbn [res_bind]; [|discriminate].
  destruct (ensureSheetAndHeader_Ok _ _ _ He) as (Hd & (r0 & tl & Ht & _ & _) & _).
  assert (Hv : exists vs, (match Some (map BIArr rs) with
                 | Some ((BIObj _ :: _) as l) =>
                     let! r := objectRowsToValues (readExistingPlaceIds api1 name) l in
                     Ok (Some r.1)
                 | Some ((BIArr _ :: _) as l) => Ok (mapM item_array l)
                 | _ => Ok (Some [])
                 end) = Ok (Some vs) /\ vs = rs).
  { destruct rs as [|r rs']; [exists []; auto|].
    exists (r :: rs'). split; [|reflexivity].
    change (map BIArr (r :: rs')) with (BIArr r :: map BIArr rs').
    cbv iota. f_equal. change (BIArr r :: map BIArr rs') with (map BIArr (r :: rs')).
    apply mapM_item_array. }
  destruct Hv as (vs & -> & ->). cbn [res_bind].
  destruct (appendRows _ _ _) as [[api2 m]|e] eqn:Ha; cbn [res_bind]; [|discriminate].
  intros H; injection H as <- <-.
  destruct (appendRows_Ok _ _ _ _ _ _ Ht Hd Ha) as (-> & Ht' & _).
  split; [reflexivity|]. exists api1, (r0 :: tl). auto.
Qed.

(* ===================================================================== *)
(** ** src/unnamed/part_005: [/run-city] *)

Lemma runCity005_list_cat (fd : jsstr -> details_reply) (ts country city cat : jsstr)
    (lst : list raw_place) (rows : list (list jsval)) :
  runCity005_list fd ts country city cat lst = Ok rows ->
  Forall (fun rr => cell rr (Some 3) = JStr cat) rows.
Proof.
  revert rows; induction lst as [|r rs IH]; intros rows; simpl.
  - intros H; injection H as <-. constructor.
  - destruct (str_or (rp_place_id r) []) as [|c pid]; [apply IH|].
    destruct (placeDetails005 fd (c :: pid)) as [det|e]; simpl; [|discriminate].
    destruct (runCity005_list _ _ _ _ _ rs) as [rest|e] eqn:Hr; simpl; [|discriminate].
    intros H; injection H as <-. constructor; [reflexivity|]. apply IH. reflexivity.
Qed.

Lemma filter_Forall_ext {A} (P Q : A -> Prop) `{forall x, Decision (P x)}
    `{forall x, Decision (Q x)} (l : list A) :
  Forall (fun x => P x <-> Q x) l -> filter P l = filter Q l.
Proof.
  induction 1 as [|x l Hx _ IH]; [reflexivity|].
  rewrite !filter_cons. rewrite IH.
  destruct (decide (P x)), (decide (Q x)); tauto || reflexivity.
Qed.

(** With distinct categories, the [found] of each category is the number
    of rows of that category at the end of the loop. *)
Lemma runCity005_categories_found (fd : jsstr -> details_reply)
    (search : jsstr -> res (list raw_place)) (ts country city : jsstr) (cats : list jsstr) :
  NoDup cats ->
  forall acc per rows' per',
  runCity005_categories fd search ts country city cats acc per = Ok (rows', per') ->
  per' = per ++ map (fun c => (c, length (filter (fun rr => cell rr (Some 3) = JStr c) rows'))) cats /\
  exists extra, rows' = acc ++ extra /\
    Forall (fun rr => exists c, c ∈ cats /\ cell rr (Some 3) = JStr c) extra.
Proof.
  induction 1 as [|cat cs Hnin Hnd IH]; intros acc per rows' per'; cbn [runCity005_categories map].
  - intros H; injection H as <- <-. rewrite !app_nil_r. split; [reflexivity|].
    exists []. rewrite app_nil_r. split; [reflexivity|constructor].
  - destruct (search _) as [lst|e]; cbn [res_bind]; [|discriminate].
    destruct (runCity005_list fd ts country city cat lst) as [rows|e] eqn:Hl; cbn [res_bind]; [|discriminate].
    intros H. destruct (IH _ _ _ _ H) as (Hp & extra & Hr & Hf).
    assert (Hx : filter (fun rr => cell rr (Some 3) = JStr cat) extra = []).
    { clear - Hf Hnin. induction Hf as [|x l Hx0 _ IHf]; [reflexivity|].
      destruct Hx0 as (c & Hc & Hx). rewrite filter_cons_False; [exact IHf|].
      rewrite Hx. intros Heq. injection Heq as ->. exact (Hnin Hc). }
    assert (Hc : filter (fun rr => cell rr (Some 3) = JStr cat) rows' =
                 filter (fun rr => cell rr (Some 3) = JStr cat) (acc ++ rows))
      by (rewrite Hr, filter_app, Hx, app_nil_r; reflexivity).
    split.
    + rewrite Hp, <- app_assoc. cbn [app map]. rewrite Hc. reflexivity.
    + exists (rows ++ extra). rewrite Hr, app_assoc. split; [reflexivity|].
      apply Forall_app. split.
      * eapply Forall_impl; [exact (runCity005_list_cat _ _ _ _ _ _ _ Hl)|].
        intros rr Hrr. exists cat. split; [left|exact Hrr].
      * eapply Forall_impl; [exact Hf|]. intros rr (c & Hc' & Hrr).
        exists c. split; [right; exact Hc'|exact Hrr].
Qed.

Lemma obj_get_or0_set_ne (m : gmap jsstr cnt_val) (k c : jsstr) (v : cnt_val) :
  k <> c -> obj_get_or0 (obj_set m k v) c = obj_get_or0 m c.
Proof.
  intros Hne. unfold obj_set. case_decide; [reflexivity|].
  unfold obj_get_or0. rewrite lookup_insert_ne by exact Hne. reflexivity.
Qed.

Lemma obj_get_or0_set_eq (m : gmap jsstr cnt_val) (c : jsstr) (v : cnt_val) :
  c ∉ Object_prototype_keys -> obj_get_or0 (obj_set m c v) c = v.
Proof.
  intros Hc. unfold obj_set. case_decide as Hp.
  - exfalso. apply Hc. rewrite Hp. apply (bool_decide_unpack _). vm_compute. exact I.
  - unfold obj_get_or0. rewrite lookup_insert_eq. reflexivity.
Qed.

Lemma count_by_category_foldl (rows : list (list jsval)) (c : jsstr) :
  c ∉ Object_prototype_keys ->
  forall (m : gmap jsstr cnt_val) (k : nat), obj_get_or0 m c = CNum k ->
  obj_get_or0 (foldl (fun acc rr => let c' := cell_text (cell rr (Some 3)) in
                                    obj_set acc c' (cnt_add1 (obj_get_or0 acc c'))) m rows) c =
  CNum (k + length (filter (fun rr => cell_text (cell rr (Some 3)) = c) rows)).
Proof.
  intros Hc. induction rows as [|r rs IH]; intros m k Hm; cbn [foldl].
  - rewrite Hm. f_equal. simpl. lia.
  - rewrite filter_cons. destruct (decide (cell_text (cell r (Some 3)) = c)) as [Heq|Hne].
    + rewrite (IH _ (S k)).
      * simpl. f_equal. lia.
      * rewrite Heq, obj_get_or0_set_eq by exact Hc. rewrite Hm. reflexivity.
    + rewrite (IH _ k); [reflexivity|].
      rewrite obj_get_or0_set_ne by exact Hne. exact Hm.
Qed.

Lemma count_by_category_spec (rows : list (list jsval)) (c : jsstr) :
  c ∉ Object_prototype_keys ->
  obj_get_or0 (count_by_category rows) c =
  CNum (length (filter (fun rr => cell_text (cell rr (Some 3)) = c) rows)).
Proof.
  intros Hc. unfold count_by_category. apply (count_by_category_foldl _ _ Hc ∅ 0).
  unfold obj_get_or0. rewrite lookup_empty. rewrite decide_False by exact Hc. reflexivity.
Qed.

Lemma DEFAULT_CATEGORIES005_NoDup : NoDup DEFAULT_CATEGORIES005.
Proof. unfold DEFAULT_CATEGORIES005. repeat constructor; vm_compute; intros H; inversion H; subst;
  repeat match goal with Hx : _ ∈ _ |- _ => inversion Hx; subst; clear Hx end. Qed.

Lemma DEFAULT_CATEGORIES005_own : Forall (fun c => c ∉ Object_prototype_keys) DEFAULT_CATEGORIES005.
Proof. repeat constructor; apply (bool_decide_unpack _); vm_compute; exact I. Qed.

(** /run-city (src/unnamed/part_005, lines 248-324): when no row is
    appended ([total_appended] is 0) and the categories are distinct and
    none is a property name inherited from [Object.prototype], every
    [per_category] entry reports as [added] its [found] count, not 0:
    [rowsToAppend.slice(-0)] is the whole array. *)
Theorem runCity005_nothing_appended_added_found (fd : jsstr -> details_reply)
    (search : jsstr -> res (list raw_place)) (existing : gset jsstr)
    (timestamp country city : jsstr) (categories : option (list jsstr))
    (per : list (jsstr * nat * cnt_val)) :
  (forall l, categories = Some l -> NoDup l /\ Forall (fun c => c ∉ Object_prototype_keys) l) ->
  runCity005 fd search existing timestamp country city categories = Ok (Some (0, per)) ->
  Forall (fun e => e.2 = CNum e.1.2) per.
Proof.
  intros Hnd. unfold runCity005. case_decide as Hs; [discriminate|].
  set (cats := match categories with Some ((_ :: _) as l) => l | _ => DEFAULT_CATEGORIES005 end).
  assert (Hcats : NoDup cats /\ Forall (fun c => c ∉ Object_prototype_keys) cats).
  { subst cats. destruct categories as [[|c l]|];
      [split; [apply DEFAULT_CATEGORIES005_NoDup|apply DEFAULT_CATEGORIES005_own]| |
       split; [apply DEFAULT_CATEGORIES005_NoDup|apply DEFAULT_CATEGORIES005_own]].
    apply Hnd. reflexivity. }
  destruct Hcats as [Hcats Hown].
  destruct (runCity005_categories _ _ _ _ _ cats [] []) as [[rows per0]|e] eqn:Hb;
    cbn [res_bind]; [|discriminate].
  intros H; injection H as Happ Hper. cbn [fst snd] in Happ, Hper.
  rewrite Happ in Hper. cbn [js_slice_neg] in Hper. subst per.
  destruct (runCity005_categories_found _ _ _ _ _ _ Hcats _ _ _ _ Hb) as (-> & extra & Hr & Hf).
  simpl in Hr. subst extra.
  apply Forall_forall. intros e He. apply list_elem_of_fmap in He as (pc & -> & Hpc).
  apply list_elem_of_fmap in Hpc as (c & -> & Hc). cbn [fst snd].
  rewrite Forall_forall in Hown.
  rewrite count_by_category_spec by exact (Hown c Hc). f_equal. f_equal. apply filter_Forall_ext.
  eapply Forall_impl; [exact Hf|]. intros rr (c' & _ & Hrr). rewrite Hrr. simpl.
  split; [intros ->; reflexivity|intros Heq; injection Heq as ->; reflexivity].
Qed.

(** For a category named after a member of [Object.prototype],
    [addedByCat[c] || 0] reads the inherited member: [added] is then a
    string ([constructor]) or the prototype object ([__proto__]), not the
    count. *)
Lemma runCity005_inherited_category_added :
  runCity005 notfound_fetch search_two {[js "p1"; js "p2"]} (js "2025-01-01")
    (js "Colombia") (js "Bogota") (Some [js "constructor"; js "__proto__"])
  = Ok (Some (0, [(js "constructor", 2, CText);
                  (js "__proto__", 2, CInherited (js "__proto__"))])).
Proof. vm_compute. reflexivity. Qed.

(* ===================================================================== *)
(** ** Instances of the properties of the uncovered code *)

Lemma textSearchAllPages_part002_break_witness :
  Forall (fun p => status_ok p /\ token_of p <> []) [page_a; page_b] /\
  ~ status_ok page_denied /\ 2 < 3 /\
  exists tr,
    textSearchAllPages_part002 (page_stub [page_a; page_b; page_denied]) 3 (js "spa")
      = Returned (Ok [place_p1; place_p2]) tr /\
    fetch_count tr = 3 /\
    exists tr0, tr = tr0 ++ [ELog (js "REQUEST_DENIED")].
Proof.
  assert (Hm : Forall (fun p => status_ok p /\ token_of p <> []) [page_a; page_b]).
  { repeat constructor; (left; reflexivity) || (vm_compute; discriminate). }
  assert (Hb : ~ status_ok page_denied).
  { unfold status_ok. vm_compute. intros [H|H]; discriminate. }
  assert (Hf : length [page_a; page_b] < 3) by (simpl; lia).
  split; [exact Hm|split; [exact Hb|split; [lia|]]].
  exact (textSearchAllPages_part002_break [page_a; page_b] page_denied 3 (js "spa") Hm Hb Hf).
Defined.

Lemma appendRowsDedup_accounting_witness :
  exists api',
    appendRowsDedup api_bogota (js "Bogota") [row002 (js "p1"); row002 (js "p2")]
      = Ok (api', (1, 1)) /\
    1 + 1 = 2 /\
    exists api1 tab new,
      ensureSheetAndHeaders api_bogota (js "Bogota") = Ok api1 /\
      sa_tabs api1 !! js "Bogota" = Some tab /\
      sa_tabs api' !! js "Bogota" = Some (tab ++ new) /\ length new = 1 /\
      sublist new [row002 (js "p1"); row002 (js "p2")] /\
      Forall (fun r => truthy (cell r (Some 10)) = true) new.
Proof.
  assert (Hv : exists api', appendRowsDedup api_bogota (js "Bogota")
                 [row002 (js "p1"); row002 (js "p2")] = Ok (api', (1, 1)))
    by (eexists; reflexivity).
  destruct Hv as [api' Hv]. exists api'. split; [exact Hv|].
  destruct (appendRowsDedup_accounting _ _ _ _ _ _ Hv) as [Hs [[Hn _]|Hex]];
    [discriminate|].
  split; [exact Hs|exact Hex].
Defined.

Lemma appendRowsDedup_batch_duplicates_witness :
  sa_down api_bogota = false /\
  sa_tabs api_bogota !! js "Bogota" = Some (header_row :: [row002 (js "p1")]) /\
  truthy (cell (row002 (js "p2")) (Some 10)) = true /\
  (cell (row002 (js "p2")) (Some 10) ∉ map (fun x => cell x (Some 10)) [row002 (js "p1")]) /\
  exists api',
    appendRowsDedup api_bogota (js "Bogota") [row002 (js "p2"); row002 (js "p2")]
      = Ok (api', (2, 0)) /\
    sa_tabs api' !! js "Bogota" =
      Some (header_row :: [row002 (js "p1")] ++ [row002 (js "p2"); row002 (js "p2")]).
Proof.
  assert (Hd : sa_down api_bogota = false) by reflexivity.
  assert (Ht : sa_tabs api_bogota !! js "Bogota" = Some (header_row :: [row002 (js "p1")]))
    by reflexivity.
  assert (Hr : truthy (cell (row002 (js "p2")) (Some 10)) = true) by reflexivity.
  assert (Hn : cell (row002 (js "p2")) (Some 10) ∉
                 map (fun x => cell x (Some 10)) [row002 (js "p1")]).
  { simpl. rewrite list_elem_of_singleton. discriminate. }
  split; [exact Hd|split; [exact Ht|split; [exact Hr|split; [exact Hn|]]]].
  exact (appendRowsDedup_batch_duplicates api_bogota (js "Bogota") [row002 (js "p1")]
           (row002 (js "p2")) Hd Ht Hr Hn).
Defined.

Lemma searchCityAndBuildRows_rows_witness :
  exists rows perCategory,
    searchCityAndBuildRows notfound_fetch search_two (js "2025-01-01") (js " Colombia ")
      (js " Bogota ") [js "spas"; js "barberias"] = Ok (rows, perCategory) /\
    map fst perCategory = [js "spas"; js "barberias"] /\
    length rows = list_sum (map snd perCategory) /\
    Forall (fun row => length row = length HEADERS_part002 /\
                       cell row (Some 1) = JStr (trim (js " Colombia ")) /\
                       cell row (Some 2) = JStr (trim (js " Bogota ")) /\
                       truthy (cell row (index_of "place_id" HEADERS_part002)) = true) rows.
Proof.
  assert (Hv : exists rows perCategory,
            searchCityAndBuildRows notfound_fetch search_two (js "2025-01-01") (js " Colombia ")
              (js " Bogota ") [js "spas"; js "barberias"] = Ok (rows, perCategory))
    by (do 2 eexists; reflexivity).
  destruct Hv as (rows & per & Hv). exists rows, per. split; [exact Hv|].
  exact (searchCityAndBuildRows_rows _ _ _ _ _ _ _ _ Hv).
Defined.

Lemma sheets_append_part002_objects_witness :
  exists api' reply,
    sheets_append_part002 api_none (js "Bogota")
      (Some [BIObj (obj_place "p1" "+57 300"); BIObj (obj_place "p2" "300")])
      = Ok (api', reply) /\
    reply = Reply200 None /\
    exists api1 tab,
      ensureSheetAndHeaders api_none (sanitizeSheetTitle (js "Bogota")) = Ok api1 /\
      sa_tabs api1 !! sanitizeSheetTitle (js "Bogota") = Some tab /\
      sa_tabs api' !! sanitizeSheetTitle (js "Bogota") =
        Some (tab ++ map objectRow [BIObj (obj_place "p1" "+57 300"); BIObj (obj_place "p2" "300")]) /\
      Forall (fun row => length row = length HEADERS_part002 /\
                         exists ph, cell row (index_of "phone" HEADERS_part002) = JStr ph /\
                                    (ph = NA \/ head ph = Some 39%N))
             (map objectRow [BIObj (obj_place "p1" "+57 300"); BIObj (obj_place "p2" "300")]).
Proof.
  assert (Hv : exists api' reply,
            sheets_append_part002 api_none (js "Bogota")
              (Some [BIObj (obj_place "p1" "+57 300"); BIObj (obj_place "p2" "300")])
              = Ok (api', reply)) by (do 2 eexists; reflexivity).
  destruct Hv as (api' & reply & Hv). exists api', reply. split; [exact Hv|].
  destruct (sheets_append_part002_objects _ _ _ _ _ _ Hv) as [(Ht & _)|Hok];
    [discriminate|exact Hok].
Defined.

Lemma ensureSheetAndHeader_spec_witness :
  exists api',
    ensureSheetAndHeader api_blank_header (js "Leads") = Ok api' /\
    ensureSheetAndHeader api' (js "Leads") = Ok api' /\
    (exists r0 tl, sa_tabs api' !! js "Leads" = Some (r0 :: tl) /\
                   forallb is_blank_cell (take 13 r0) = false /\
                   (forall rs, sa_tabs api_blank_header !! js "Leads" = Some rs -> tl = drop 1 rs)) /\
    (forall k, k <> js "Leads" -> sa_tabs api' !! k = sa_tabs api_blank_header !! k).
Proof.
  assert (Hv : exists api', ensureSheetAndHeader api_blank_header (js "Leads") = Ok api')
    by (eexists; reflexivity).
  destruct Hv as [api' Hv]. exists api'. split; [exact Hv|].
  destruct (ensureSheetAndHeader_spec _ _ _ Hv) as (Hi & Hr & Hk & _).
  split; [exact Hi|split; [exact Hr|exact Hk]].
Defined.

Lemma sheets_append_objects_fresh_witness :
  exists api',
    sheets_append api_none (js "sheet-1") (js "Leads") (Some objs_p1_p1_p2)
      = Ok (api', Reply200 (Some 2)) /\
    exists api1 tab new,
      ensureSheetAndHeader api_none (js "Leads") = Ok api1 /\
      sa_tabs api1 !! js "Leads" = Some tab /\
      sa_tabs api' !! js "Leads" = Some (tab ++ new) /\ length new = 2 /\
      NoDup (map colL_key new) /\
      Forall (fun r => length r = 13 /\ colL_key r <> [] /\
                       colL_key r ∉ map colL_key (drop 1 tab)) new.
Proof.
  assert (Hv : exists api', sheets_append api_none (js "sheet-1") (js "Leads")
                 (Some objs_p1_p1_p2) = Ok (api', Reply200 (Some 2)))
    by (eexists; reflexivity).
  destruct Hv as [api' Hv]. exists api'. split; [exact Hv|].
  exact (sheets_append_objects_fresh api_none api' (js "sheet-1") (js "Leads")
           (obj_place "p1" "+57 300") (tail objs_p1_p1_p2) 2 Hv).
Defined.

Lemma sheets_append_objects_idempotent_witness :
  exists api1,
    sheets_append api_none (js "sheet-1") (js "Leads") (Some objs_p1_p1_p2)
      = Ok (api1, Reply200 (Some 2)) /\
    sheets_append api1 (js "sheet-1") (js "Leads") (Some objs_p1_p1_p2)
      = Ok (api1, Reply200 (Some 0)).
Proof.
  assert (Hv : exists api1, sheets_append api_none (js "sheet-1") (js "Leads")
                 (Some objs_p1_p1_p2) = Ok (api1, Reply200 (Some 2)))
    by (eexists; reflexivity).
  destruct Hv as [api1 Hv]. exists api1. split; [exact Hv|].
  exact (sheets_append_objects_idempotent api_none api1 (js "sheet-1") (js "Leads")
           (obj_place "p1" "+57 300") (tail objs_p1_p1_p2) 2 Hv).
Defined.

Lemma sheets_append_arrays_verbatim_witness :
  exists api',
    sheets_append api_none (js "sheet-1") (js "Leads")
      (Some (map BIArr [row002 (js "p1"); row002 (js "p1")]))
      = Ok (api', Reply200 (Some 2)) /\
    2 = length [row002 (js "p1"); row002 (js "p1")] /\
    exists api1 tab, ensureSheetAndHeader api_none (js "Leads") = Ok api1 /\
      sa_tabs api1 !! js "Leads" = Some tab /\
      sa_tabs api' !! js "Leads" = Some (tab ++ [row002 (js "p1"); row002 (js "p1")]).
Proof.
  assert (Hv : exists api', sheets_append api_none (js "sheet-1") (js "Leads")
                 (Some (map BIArr [row002 (js "p1"); row002 (js "p1")]))
                 = Ok (api', Reply200 (Some 2)))
    by (eexists; reflexivity).
  destruct Hv as [api' Hv]. exists api'. split; [exact Hv|].
  exact (sheets_append_arrays_verbatim _ _ _ _ _ _ Hv).
Defined.

Lemma runCity005_nothing_appended_added_found_witness :
  (forall l, Some [js "spas"] = Some l -> NoDup l /\ Forall (fun c => c ∉ Object_prototype_keys) l) /\
  runCity005 notfound_fetch search_two {[js "p1"; js "p2"]} (js "2025-01-01")
    (js "Colombia") (js "Bogota") (Some [js "spas"])
    = Ok (Some (0, [(js "spas", 2, CNum 2)])) /\
  Forall (fun e => e.2 = CNum e.1.2) [(js "spas", 2, CNum 2)].
Proof.
  assert (Hn : forall l, Some [js "spas"] = Some l ->
                 NoDup l /\ Forall (fun c => c ∉ Object_prototype_keys) l).
  { intros l H. injection H as <-. split; [apply NoDup_singleton|].
    repeat constructor. apply (bool_decide_unpack _). vm_compute. exact I. }
  assert (Hv : runCity005 notfound_fetch search_two {[js "p1"; js "p2"]} (js "2025-01-01")
                 (js "Colombia") (js "Bogota") (Some [js "spas"])
               = Ok (Some (0, [(js "spas", 2, CNum 2)]))) by (vm_compute; reflexivity).
  split; [exact Hn|split; [exact Hv|]].
  exact (runCity005_nothing_appended_added_found _ _ _ _ _ _ _ _ Hn Hv).
Defined.
